(** * Multi-agent orchestrator (multi_claude.py): a shallow embedding

    The first part holds the definitions, in the layout of the Python
    module:
    - [PyStr]        the few [str] and [int] operations the program uses;
    - [Datetime]     naive [datetime] values, their difference and [strftime];
    - [Md5]          [hashlib.md5(...).hexdigest()];
    - [Coordination] the class [CoordinationManager];
    - [Parser]       [PromptParser.parse_text];
    - [Launcher]     the classes [TmuxManager] and [AgentLauncher];
    - [Orchestrator] the class [MultiClaudeOrchestrator];
    - [Protocol]     sequences of calls of the coordination manager;
    - [TmuxShell]    [TmuxManager.create_session] and the command lines
                     that [send_to_pane] and [set_pane_title] give the shell;
    - [Delivery]     what the launcher and the scheduler deliver to a pane;
    - [TextFormat]   prompts written in the text format;
    - [Yaml]         [PromptParser.parse_yaml].

    The second part holds the properties: [CoordinationFacts] (work
    claims), [RegistryFacts] (registration and uids), [LauncherFacts],
    [OrchestratorFacts] (the collaborative broadcast), [SchedulerFacts] (the
    sequential scheduler), [RunFacts] ([run] and its cleanup),
    [ParserFacts], and then [PyStrFacts], [ProtocolFacts],
    [TmuxShellFacts], [LaunchFacts], [SchedulerEdgeFacts],
    [TextFormatFacts], [YamlFacts] and [RunThroughFacts] (whole runs).

    Python [str] values are lists of characters; every reading of the clock
    and every text captured from a pane is an explicit input; the files of
    the coordination directory and the calls made to tmux are an explicit
    state. Sleeps and prints are left out. *)

From Stdlib Require Import ZArith NArith List Ascii String Bool Lia.
From Stdlib Require Import DecimalString DecimalPos.
From stdpp Require Import base gmap sets list strings sorting.
Import ListNotations.

(** Python [str]: a sequence of code points below 256. *)
Abbreviation str := (list ascii).

(** A literal of the source. *)
Definition py (s : string) : str := list_ascii_of_string s.

(* ===================================================================== *)
(** ** The [str] and [int] operations the program uses *)
(* ===================================================================== *)

Module PyStr.

Local Open Scope N_scope.

(** [c.isspace()] for a code point below 256. *)
Definition isspace (c : ascii) : bool :=
  let n := N_of_ascii c in
  ((9 <=? n) && (n <=? 13)) || ((28 <=? n) && (n <=? 32))
  || (n =? 133) || (n =? 160).

(** [c.isdigit()] for a code point below 256: the ASCII digits and the
    superscripts one, two and three. *)
Definition isdigit (c : ascii) : bool :=
  let n := N_of_ascii c in
  ((48 <=? n) && (n <=? 57)) || (n =? 178) || (n =? 179) || (n =? 185).

(** An ASCII decimal digit, and its value. *)
Definition is_decimal (c : ascii) : bool :=
  let n := N_of_ascii c in (48 <=? n) && (n <=? 57).

Definition digit_value (c : ascii) : Z := Z.of_N (N_of_ascii c) - 48.

(** [s.lstrip()], [s.rstrip()], [s.strip()] *)
Fixpoint lstrip (s : str) : str :=
  match s with
  | c :: r => if isspace c then lstrip r else s
  | [] => []
  end.

Definition rstrip (s : str) : str := rev (lstrip (rev s)).

Definition strip (s : str) : str := rstrip (lstrip s).

Definition newline : ascii := ascii_of_N 10.

(** [s.split('\n')] *)
Fixpoint split_lines (s : str) : list str :=
  match s with
  | [] => [[]]
  | c :: r =>
      if bool_decide (c = newline) then [] :: split_lines r
      else match split_lines r with
           | l :: ls => (c :: l) :: ls
           | [] => [[c]]
           end
  end.

(** ['\n'.join(ls)] *)
Fixpoint join_lines (ls : list str) : str :=
  match ls with
  | [] => []
  | [l] => l
  | l :: rest => l ++ newline :: join_lines rest
  end.

(** [s.startswith(p)] *)
Fixpoint startswith (p s : str) : bool :=
  match p, s with
  | [], _ => true
  | a :: p', b :: s' => bool_decide (a = b) && startswith p' s'
  | _ :: _, [] => false
  end.

(** [sub in s] *)
Fixpoint contains (sub s : str) : bool :=
  startswith sub s
  || match s with
     | [] => false
     | _ :: r => contains sub r
     end.

(** The first occurrence of [sep] in [s]: what is before and after it. *)
Fixpoint partition (sep s : str) : option (str * str) :=
  if startswith sep s then Some ([], drop (length sep) s)
  else match s with
       | [] => None
       | c :: r =>
           match partition sep r with
           | Some (a, b) => Some (c :: a, b)
           | None => None
           end
       end.

(** [s.split(sep, 1)] for a non-empty [sep]. *)
Definition split1 (sep s : str) : list str :=
  match partition sep s with
  | Some (a, b) => [a; b]
  | None => [s]
  end.

(** [s.lower()] for code points below 256. *)
Definition lower_char (c : ascii) : ascii :=
  let n := N_of_ascii c in
  if ((65 <=? n) && (n <=? 90))
     || ((192 <=? n) && (n <=? 222) && negb (n =? 215))
  then ascii_of_N (n + 32) else c.

Definition lower (s : str) : str := lower_char <$> s.

(** [str(n)] for an [int]. *)
Definition str_of_int (n : Z) : str :=
  list_ascii_of_string (NilZero.string_of_int (Z.to_int n)).

(** White space that [int()] skips around a literal: the C white space, and
    the two other spaces below 256 that it first turns into blanks. *)
Definition int_space (c : ascii) : bool :=
  let n := N_of_ascii c in
  ((9 <=? n) && (n <=? 13)) || (n =? 32) || (n =? 133) || (n =? 160).

(** The digits of a literal: [digit (_? digit)*], read left to right with
    the value so far and the number of digits seen; what follows the
    literal is returned with them. [last_us] tells that the character just
    read is an underscore. *)
Fixpoint int_digits (s : str) (acc : Z) (count : nat) (last_us : bool)
  : option (Z * nat * str) :=
  match s with
  | c :: r =>
      if is_decimal c then int_digits r (acc * 10 + digit_value c)%Z (S count) false
      else if bool_decide (c = "_"%char) then
        if last_us then None else int_digits r acc count true
      else if last_us then None else Some (acc, count, s)
  | [] => if last_us then None else Some (acc, count, [])
  end.

(** [sys.get_int_max_str_digits()], at its default. *)
Definition int_max_str_digits : nat := 4300.

Fixpoint skip_int_space (s : str) : str :=
  match s with
  | c :: r => if int_space c then skip_int_space r else s
  | [] => []
  end.

(** [int(s)] for a [str]: white space, an optional sign, the digits, white
    space; [None] stands for [ValueError]. *)
Definition int_of_str (s : str) : option Z :=
  let s1 := skip_int_space s in
  let '(neg, s2) :=
    match s1 with
    | c :: r =>
        if bool_decide (c = "-"%char) then (true, r)
        else if bool_decide (c = "+"%char) then (false, r)
        else (false, s1)
    | [] => (false, [])
    end in
  match s2 with
  | c :: _ =>
      if is_decimal c then
        match int_digits s2 0 0 false with
        | Some (v, count, rest) =>
            match skip_int_space rest with
            | [] => if bool_decide (count ≤ int_max_str_digits)%nat
                    then Some (if neg then - v else v)%Z else None
            | _ :: _ => None
            end
        | None => None
        end
      else None
  | [] => None
  end.

(** [s.encode()]: UTF-8, for code points below 256. *)
Definition encode (s : str) : list N :=
  s ≫= λ c, let n := N_of_ascii c in
            if n <? 128 then [n]
            else [N.lor 192 (N.shiftr n 6); N.lor 128 (N.land n 63)].

End PyStr.

Export PyStr.

(** The exceptions the program can meet, and the outcome of a call that
    either returns or raises. *)
Inductive exn :=
| OSError | JSONDecodeError | TypeError | KeyError | ValueError
| AttributeError | IndexError.

Inductive result (A : Type) :=
| Ok (a : A)
| Raise (e : exn).

Arguments Ok {A} a.
Arguments Raise {A} e.

(* ===================================================================== *)
(** ** [datetime]: naive date-times as the standard library computes them *)
(* ===================================================================== *)

Module Datetime.

Local Open Scope Z_scope.

Record datetime := mk_datetime {
  year : Z; month : Z; day : Z;
  hour : Z; minute : Z; second : Z; microsecond : Z
}.

(** [_is_leap(year)] *)
Definition is_leap (y : Z) : bool :=
  (y mod 4 =? 0) && (negb (y mod 100 =? 0) || (y mod 400 =? 0)).

(** [_days_before_year(year)] *)
Definition days_before_year (y : Z) : Z :=
  let y1 := y - 1 in y1 * 365 + y1 / 4 - y1 / 100 + y1 / 400.

(** [_DAYS_BEFORE_MONTH] *)
Definition DAYS_BEFORE_MONTH : list Z :=
  [-1; 0; 31; 59; 90; 120; 151; 181; 212; 243; 273; 304; 334].

(** [_days_before_month(year, month)] *)
Definition days_before_month (y m : Z) : Z :=
  nth (Z.to_nat m) DAYS_BEFORE_MONTH 0
  + (if (2 <? m) && is_leap y then 1 else 0).

(** [date.toordinal()] *)
Definition toordinal (d : datetime) : Z :=
  days_before_year (year d) + days_before_month (year d) (month d) + day d.

(** Microseconds of the [timedelta] [a - b] (days, seconds and microseconds
    of the difference, put together). *)
Definition delta_micros (a b : datetime) : Z :=
  let secs x := second x + minute x * 60 + hour x * 3600 in
  ((toordinal a - toordinal b) * 86400 + (secs a - secs b)) * 1000000
  + (microsecond a - microsecond b).

(** [(a - b).total_seconds() > secs] for an integer [secs]. The float
    [total_seconds()] is the correctly rounded quotient of the integer
    microsecond count by 10^6, and the comparison with an integer is exact,
    so the test is the integer comparison below. *)
Definition total_seconds_gt (a b : datetime) (secs : Z) : bool :=
  secs * 1000000 <? delta_micros a b.

(** A number on two digits, as [%m], [%d], [%H], [%M] and [%S] print it. *)
Definition pad2 (n : Z) : str :=
  let s := str_of_int n in
  if (length s <? 2)%nat then "0"%char :: s else s.

(** [d.strftime("%Y%m%d_%H%M%S")]; [%Y] prints the digits of the year, which
    are four from the year 1000 on. *)
Definition strftime_Ymd_HMS (d : datetime) : str :=
  str_of_int (year d) ++ pad2 (month d) ++ pad2 (day d) ++ py "_"
  ++ pad2 (hour d) ++ pad2 (minute d) ++ pad2 (second d).

End Datetime.

Export Datetime.

(* ===================================================================== *)
(** ** [hashlib.md5]: the MD5 digest (RFC 1321) *)
(* ===================================================================== *)

Module Md5.

Local Open Scope N_scope.

Definition mask32 : N := 4294967295.
Definition add32 (a b : N) : N := N.land (a + b) mask32.
Definition not32 (a : N) : N := N.lxor a mask32.
Definition rotl32 (x c : N) : N :=
  N.land (N.lor (N.shiftl x c) (N.shiftr x (32 - c))) mask32.

(** Per-round shift amounts. *)
Definition S_table : list N :=
  [7; 12; 17; 22; 7; 12; 17; 22; 7; 12; 17; 22; 7; 12; 17; 22;
   5; 9; 14; 20; 5; 9; 14; 20; 5; 9; 14; 20; 5; 9; 14; 20;
   4; 11; 16; 23; 4; 11; 16; 23; 4; 11; 16; 23; 4; 11; 16; 23;
   6; 10; 15; 21; 6; 10; 15; 21; 6; 10; 15; 21; 6; 10; 15; 21].

(** [floor(2^32 * abs(sin(i + 1)))] for i = 0 .. 63. *)
Definition K_table : list N :=
  [3614090360; 3905402710; 606105819; 3250441966;
   4118548399; 1200080426; 2821735955; 4249261313;
   1770035416; 2336552879; 4294925233; 2304563134;
   1804603682; 4254626195; 2792965006; 1236535329;
   4129170786; 3225465664; 643717713; 3921069994;
   3593408605; 38016083; 3634488961; 3889429448;
   568446438; 3275163606; 4107603335; 1163531501;
   2850285829; 4243563512; 1735328473; 2368359562;
   4294588738; 2272392833; 1839030562; 4259657740;
   2763975236; 1272893353; 4139469664; 3200236656;
   681279174; 3936430074; 3572445317; 76029189;
   3654602809; 3873151461; 530742520; 3299628645;
   4096336452; 1126891415; 2878612391; 4237533241;
   1700485571; 2399980690; 4293915773; 2240044497;
   1873313359; 4264355552; 2734768916; 1309151649;
   4149444226; 3174756917; 718787259; 3951481745].

Record state := mk_state { sA : N; sB : N; sC : N; sD : N }.

Definition init : state :=
  mk_state 1732584193 4023233417 2562383102 271733878.

(** Little-endian words of a byte sequence, four bytes each. *)
Fixpoint words (bytes : list N) : list N :=
  match bytes with
  | b0 :: b1 :: b2 :: b3 :: rest =>
      (b0 + N.shiftl b1 8 + N.shiftl b2 16 + N.shiftl b3 24) :: words rest
  | _ => []
  end.

(** One of the 64 operations on a block [m] of sixteen words. *)
Definition step (m : list N) (st : state) (i : nat) : state :=
  let '(mk_state a b c d) := st in
  let '(f, g) :=
    if (i <? 16)%nat then (N.lor (N.land b c) (N.land (not32 b) d), i)
    else if (i <? 32)%nat
      then (N.lor (N.land d b) (N.land (not32 d) c), ((5 * i + 1) mod 16)%nat)
    else if (i <? 48)%nat
      then (N.lxor b (N.lxor c d), ((3 * i + 5) mod 16)%nat)
    else (N.lxor c (N.lor b (not32 d)), ((7 * i) mod 16)%nat) in
  let f' := add32 (add32 (add32 f a) (nth i K_table 0)) (nth g m 0) in
  mk_state d (add32 b (rotl32 f' (nth i S_table 0))) b c.

(** One block of 64 bytes. *)
Definition compress (st : state) (block : list N) : state :=
  let st' := foldl (step (words block)) st (seq 0 64) in
  mk_state (add32 (sA st) (sA st')) (add32 (sB st) (sB st'))
           (add32 (sC st) (sC st')) (add32 (sD st) (sD st')).

(** [n] as [k] little-endian bytes. *)
Fixpoint le_bytes (k : nat) (n : N) : list N :=
  match k with
  | O => []
  | S k' => N.land n 255 :: le_bytes k' (N.shiftr n 8)
  end.

(** The message, a one bit, zeros up to 56 modulo 64, the bit length. *)
Definition pad (msg : list N) : list N :=
  let len := length msg in
  let zeros := ((119 - len mod 64) mod 64)%nat in
  msg ++ 128 :: replicate zeros 0 ++ le_bytes 8 (8 * N.of_nat len).

Fixpoint run (blocks : nat) (st : state) (bytes : list N) : state :=
  match blocks with
  | O => st
  | S k => run k (compress st (take 64 bytes)) (drop 64 bytes)
  end.

Definition digest (msg : list N) : list N :=
  let p := pad msg in
  let st := run (length p / 64) init p in
  le_bytes 4 (sA st) ++ le_bytes 4 (sB st)
  ++ le_bytes 4 (sC st) ++ le_bytes 4 (sD st).

Definition hex_digit (n : N) : ascii :=
  if n <? 10 then ascii_of_N (48 + n) else ascii_of_N (87 + n).

Definition hex_byte (b : N) : str := [hex_digit (N.shiftr b 4); hex_digit (N.land b 15)].

(** The sixteen characters a digest is printed with. *)
Definition is_hex (c : ascii) : bool :=
  bool_decide (c ∈ py "0123456789abcdef").

(** [hashlib.md5(msg).hexdigest()] *)
Definition hexdigest (msg : list N) : str := digest msg ≫= hex_byte.

End Md5.

(* ===================================================================== *)
(** ** class CoordinationManager: work claims *)
(* ===================================================================== *)

Module Coordination.

(** The JSON object of one [*.lock] file, as [json.loads] and
    [datetime.fromisoformat] read it; the files of the directory are taken
    to be well formed. *)
Record lock_data := mk_lock {
  agent : str;
  files : list str;
  description : str;
  timestamp : datetime
}.

(** The directory [work_claims/]: the [*.lock] files it holds, keyed by the
    file stem, in the order in which [glob("*.lock")] lists them. *)
Abbreviation claims_dir := (list (str * lock_data)).

(** [lock_file.unlink()] *)
Definition unlink (name : str) (dir : claims_dir) : claims_dir :=
  filter (λ e, e.1 ≠ name) dir.

(** [lock_file.exists()] *)
Definition exists_lock (name : str) (dir : claims_dir) : bool :=
  bool_decide (name ∈ fst <$> dir).

(** Reading back [name.lock]. *)
Fixpoint read_lock (name : str) (dir : claims_dir) : option lock_data :=
  match dir with
  | [] => None
  | (n, l) :: rest => if bool_decide (n = name) then Some l else read_lock name rest
  end.

(** [lock_file.write_text(...)]: an existing file is overwritten where it
    is, a new one is added to the directory (where later listings show a
    new file is up to the file system; it is put last here, and no property
    below depends on that). *)
Definition write_lock (name : str) (l : lock_data) (dir : claims_dir)
  : claims_dir :=
  if exists_lock name dir
  then (λ e, if bool_decide (e.1 = name) then (name, l) else e) <$> dir
  else dir ++ [(name, l)].

(** [any(f in lock_data["files"] for f in files)] *)
Definition intersects (fs lock_files : list str) : bool :=
  existsb (fun f => bool_decide (f ∈ lock_files)) fs.

(** [(datetime.now() - lock_time).total_seconds() > 7200] *)
Definition is_stale (now lock_time : datetime) : bool :=
  total_seconds_gt now lock_time 7200.

(** The [for lock_file in glob("*.lock")] loop of [claim_work]. [listing]
    is what remains of the listing, [i] the position reached in it, [dir]
    the directory as the deletions made so far have left it; [clock i] is
    the reading of [datetime.now()] taken while the i-th listed file is
    examined. The result is [false] when the loop leaves through
    [return False]. *)
Fixpoint scan (clock : nat -> datetime) (fs : list str) (i : nat)
    (listing : list (str * lock_data)) (dir : claims_dir)
  : bool * claims_dir :=
  match listing with
  | [] => (true, dir)
  | (name, lock) :: rest =>
      if intersects fs (files lock) then
        if is_stale (clock i) (timestamp lock)
        then scan clock fs (S i) rest (unlink name dir)
        else (false, dir)
      else scan clock fs (S i) rest dir
  end.

(** [claim_work(agent_uid, files, description)]; [stamp] is the reading of
    [datetime.now()] stored in the new record. *)
Definition claim_work (clock : nat -> datetime) (stamp : datetime)
    (agent_uid : str) (fs : list str) (descr : str) (dir : claims_dir)
  : bool * claims_dir :=
  let '(free, dir') := scan clock fs 0 dir dir in
  if free
  then (true, write_lock agent_uid (mk_lock agent_uid fs descr stamp) dir')
  else (false, dir').

(** [release_work(agent_uid)] *)
Definition release_work (agent_uid : str) (dir : claims_dir) : claims_dir :=
  if exists_lock agent_uid dir then unlink agent_uid dir else dir.

(** A file [f] is claimed when some record of the directory lists it. *)
Definition claimed (f : str) (dir : claims_dir) : Prop :=
  ∃ name lock, (name, lock) ∈ dir ∧ f ∈ files lock.

(** No two files of a directory have the same name. *)
Definition wf_dir (dir : claims_dir) : Prop := NoDup (fst <$> dir).

(** The scan of [claim_work] gets as far as position [i] of the listing:
    every intersecting record listed before it was stale when examined. *)
Definition examined (clock : nat -> datetime) (fs : list str)
    (listing : list (str * lock_data)) (i : nat) : Prop :=
  ∀ j name lock, (j < i)%nat → listing !! j = Some (name, lock) →
    intersects fs (files lock) = true →
    is_stale (clock j) (timestamp lock) = true.

(** A record of the listing blocks a claim on [fs]: it shares a file with
    [fs] and is at most 7200 seconds old when it is examined. *)
Definition blocks (clock : nat -> datetime) (fs : list str)
    (listing : list (str * lock_data)) : Prop :=
  ∃ i name lock, listing !! i = Some (name, lock) ∧
    intersects fs (files lock) = true ∧
    (delta_micros (clock i) (timestamp lock) <= 7200 * 1000000)%Z.

(** The names of the records of a listing that share a file with [fs]. *)
Definition intersecting_names (fs : list str) (listing : list (str * lock_data))
  : list str :=
  fst <$> filter (λ e, intersects fs (files e.2) = true) listing.

(** *** The registry of active agents *)

(** One value of the registry: [{"agent_id", "started", "status"}]. *)
Record agent_entry := mk_entry {
  entry_agent_id : Z;
  started : datetime;
  entry_status : str
}.

(** What [json.loads] makes of the text of [active_agents.json]: an object,
    or some other JSON value (a list, a number, a string, null). *)
Inductive json_value :=
| JObject (agents : gmap str agent_entry)
| JOther.

(** The file [active_agents.json] as [register_agent] finds it. *)
Inductive registry_file :=
| Missing                      (* [exists()] is false *)
| Unreadable                   (* [read_text()] raises *)
| Corrupt                      (* the text is not JSON *)
| Json (v : json_value).

(** [hashlib.md5(f"{agent_id}{time.time()}".encode()).hexdigest()[:4]];
    [time_repr] is the text [time.time()] prints as. *)
Definition random_suffix (agent_id : Z) (time_repr : str) : str :=
  take 4 (Md5.hexdigest (encode (str_of_int agent_id ++ time_repr))).

(** [f"agent_{timestamp}_{random_suffix}"] *)
Definition unique_id (agent_id : Z) (now : datetime) (time_repr : str) : str :=
  py "agent_" ++ strftime_Ymd_HMS now ++ py "_" ++ random_suffix agent_id time_repr.

(** The [agents = {}; if exists(): agents = json.loads(read_text())] part. *)
Definition load_agents (file : registry_file) : result json_value :=
  match file with
  | Missing => Ok (JObject ∅)
  | Unreadable => Raise OSError
  | Corrupt => Raise JSONDecodeError
  | Json v => Ok v
  end.

(** [register_agent(agent_id)]: [now] and [now'] are the two readings of
    [datetime.now()], [time_repr] that of [time.time()]. The outcome is the
    uid returned and the file as rewritten; a call that raises has written
    nothing. *)
Definition register_agent (file : registry_file) (agent_id : Z)
    (now : datetime) (time_repr : str) (now' : datetime)
  : result (str * registry_file) :=
  let uid := unique_id agent_id now time_repr in
  match load_agents file with
  | Raise e => Raise e
  | Ok (JObject agents) =>
      Ok (uid, Json (JObject (<[uid := mk_entry agent_id now' (py "active")]> agents)))
  | Ok JOther => Raise TypeError
  end.

(** Data for the worked examples: three times of one day and three agents
    with one record each. *)
Definition nine : datetime := mk_datetime 2025 1 1 9 0 0 0.
Definition eleven : datetime := mk_datetime 2025 1 1 11 0 0 0.
Definition noon : datetime := mk_datetime 2025 1 1 12 0 0 0.
Definition agent_a : str := py "agent_20250101_090000_1a2b".
Definition agent_b : str := py "agent_20250101_090010_3c4d".
Definition agent_c : str := py "agent_20250101_090020_5e6f".
Definition a_py : str := py "src/a.py".
Definition b_py : str := py "src/b.py".

End Coordination.

(* ===================================================================== *)
(** ** Data model *)
(* ===================================================================== *)

(** [BuildStep] *)
Record BuildStep := mk_step {
  number : Z;
  content : str;
  description : option str
}.

(** [BuildPrompt] *)
Record BuildPrompt := mk_prompt {
  initial_prompt : str;
  steps : list BuildStep;
  name : str
}.

(** The default of [BuildPrompt.name]. *)
Definition default_name : str := py "Multi-Agent Task".

(* ===================================================================== *)
(** ** class PromptParser: the text format *)
(* ===================================================================== *)

Module Parser.

(** The test of the first loop of [parse_text]:
    [line.strip() and line.strip()[0].isdigit() and '. ' in line]. *)
Definition starts_steps (line : str) : bool :=
  match strip line with
  | c :: _ => isdigit c && contains (py ". ") line
  | [] => false
  end.

(** The first loop: the lines before the first one that passes the test,
    and the index of that one. *)
Fixpoint find_steps (i : nat) (lines initial_lines : list str)
  : list str * option nat :=
  match lines with
  | [] => (initial_lines, None)
  | line :: rest =>
      if starts_steps line then (initial_lines, Some i)
      else find_steps (S i) rest (initial_lines ++ [line])
  end.

(** The test of the second loop, on the stripped line:
    [line and line[0].isdigit() and '. ' in line]. *)
Definition is_step_line (line : str) : bool :=
  match line with
  | c :: _ => isdigit c && contains (py ". ") line
  | [] => false
  end.

(** The body of the second loop for one line of the text. *)
Definition parse_step (raw : str) (acc : list BuildStep)
  : result (list BuildStep) :=
  let line := strip raw in
  if is_step_line line then
    match split1 (py ". ") line with
    | [p0; p1] =>
        match int_of_str p0 with
        | Some step_num => Ok (acc ++ [mk_step step_num p1 None])
        | None => Raise ValueError
        end
    | _ => Ok acc
    end
  else Ok acc.

(** The second loop, over [lines[step_start_idx:]]. *)
Fixpoint parse_steps (lines : list str) (acc : list BuildStep)
  : result (list BuildStep) :=
  match lines with
  | [] => Ok acc
  | raw :: rest =>
      match parse_step raw acc with
      | Ok acc' => parse_steps rest acc'
      | Raise e => Raise e
      end
  end.

(** [PromptParser.parse_text(content)] *)
Definition parse_text (text : str) : result BuildPrompt :=
  let lines := split_lines (strip text) in
  let '(initial_lines, step_start_idx) := find_steps 0 lines [] in
  let initial := strip (join_lines initial_lines) in
  match step_start_idx with
  | None => Ok (mk_prompt initial [] default_name)
  | Some idx =>
      match parse_steps (drop idx lines) [] with
      | Ok found => Ok (mk_prompt initial found default_name)
      | Raise e => Raise e
      end
  end.

(** *** The format in the words of the specification *)

(** The value of a sequence of decimal digits. *)
Definition digits_value (ds : str) : Z :=
  foldl (λ acc c, acc * 10 + digit_value c)%Z 0%Z ds.

Fixpoint take_digits (s : str) : str :=
  match s with
  | c :: r => if is_decimal c then c :: take_digits r else []
  | [] => []
  end.

Fixpoint drop_digits (s : str) : str :=
  match s with
  | c :: r => if is_decimal c then drop_digits r else s
  | [] => []
  end.

(** A line is a leading integer followed by ['. '] and the rest. *)
Definition numbered (line : str) : option (Z * str) :=
  let ds := take_digits line in
  let r := drop_digits line in
  if bool_decide (ds ≠ []) && startswith (py ". ") r
  then Some (digits_value ds, drop 2 r)
  else None.

Definition spec_step (raw : str) : option BuildStep :=
  (λ p, mk_step p.1 p.2 None) <$> numbered (strip raw).

Fixpoint take_until {A} (p : A → bool) (l : list A) : list A :=
  match l with
  | x :: r => if p x then [] else x :: take_until p r
  | [] => []
  end.

Fixpoint drop_until {A} (p : A → bool) (l : list A) : list A :=
  match l with
  | x :: r => if p x then l else drop_until p r
  | [] => []
  end.

(** The prompt the specification describes: the lines before the first
    numbered line, trimmed, are the initial prompt; every numbered line from
    there on is a step. *)
Definition parse_text_spec (text : str) : BuildPrompt :=
  let lines := split_lines (strip text) in
  let is_numbered raw := bool_decide (is_Some (spec_step raw)) in
  mk_prompt (strip (join_lines (take_until is_numbered lines)))
            (omap spec_step (drop_until is_numbered lines))
            default_name.

(** The inputs on which the test of the code and the pattern of the
    specification agree: a line that passes the test of the code is a
    numbered line, of at most [int_max_str_digits] digits. *)
Definition well_numbered (text : str) : Prop :=
  ∀ raw, raw ∈ split_lines (strip text) → starts_steps raw = true →
    is_Some (numbered (strip raw))
    ∧ (length (take_digits (strip raw)) ≤ int_max_str_digits)%nat.

(** Texts for the worked examples. *)
Definition service_text : str :=
  py "  Build the service
for real  
1. Design the API
(not a step)
2. Write the tests  
".

Definition retry_text : str :=
  py "Fix the build
2nd attempt. Retry it".

Definition padded_text : str :=
  py "  Build it  
1. First  
2. Second".

Definition empty_step_text : str :=
  py "intro
1. 
2. b".

End Parser.

(* ===================================================================== *)
(** ** class TmuxManager and class AgentLauncher *)
(* ===================================================================== *)

Module Launcher.

(** [Agent.status]: starting, ready, working, idle, error. *)
Inductive agent_status := Starting | Ready | Working | Idle | Error.

(** [Agent]; [uid] is the attribute [launch_agent] sets after registering. *)
Record Agent := mk_agent {
  id : nat;
  pane_id : str;
  status : agent_status;
  start_time : datetime;
  current_step : nat;
  uid : option str
}.

(** What the program asks of tmux, once a pane is known for the agent. *)
Inductive tmux_call :=
| SendToPane (agent_id : nat) (command : str) (enter : bool)
| SetPaneTitle (agent_id : nat) (title : str)
| KillSession.

(** The state the orchestrator works on: the pane of each agent, the calls
    made to tmux so far (oldest first), the agents of the launcher and the
    three parts of the coordination directory. *)
Record world := mk_world {
  pane_mapping : gmap nat str;
  tmux_calls : list tmux_call;
  agents : gmap nat Agent;
  registry : Coordination.registry_file;
  work_claims : list (str * Coordination.lock_data);
  completed_work : option (list str)
}.

(** A call returns, raises, or is still inside a polling loop when the
    steps allotted to it are used up. *)
Inductive outcome (A : Type) :=
| Returns (a : A)
| Raises (e : exn)
| Pending.

Arguments Returns {A} a.
Arguments Raises {A} e.
Arguments Pending {A}.

(** Computations on the world. *)
Definition M (A : Type) : Type := world → outcome A * world.

#[global] Instance M_ret : MRet M := λ A a w, (Returns a, w).

#[global] Instance M_bind : MBind M := λ A B k m w,
  match m w with
  | (Returns a, w') => k a w'
  | (Raises e, w') => (Raises e, w')
  | (Pending, w') => (Pending, w')
  end.

Definition raise {A} (e : exn) : M A := λ w, (Raises e, w).
Definition pending {A} : M A := λ w, (Pending, w).
Definition get : M world := λ w, (Returns w, w).
Definition modify (f : world → world) : M unit := λ w, (Returns tt, f w).

(** A [for] loop that threads a value through its body. *)
Fixpoint for_each {A S} (l : list A) (body : S → A → M S) (s : S) : M S :=
  match l with
  | [] => mret s
  | x :: rest => s' ← body s x; for_each rest body s'
  end.

Definition log_call (c : tmux_call) (w : world) : world :=
  mk_world (pane_mapping w) (tmux_calls w ++ [c]) (agents w)
           (registry w) (work_claims w) (completed_work w).

Definition set_agent (agent_id : nat) (a : Agent) (w : world) : world :=
  mk_world (pane_mapping w) (tmux_calls w) (<[agent_id := a]> (agents w))
           (registry w) (work_claims w) (completed_work w).

Definition set_registry (r : Coordination.registry_file) (w : world) : world :=
  mk_world (pane_mapping w) (tmux_calls w) (agents w)
           r (work_claims w) (completed_work w).

Definition set_panes (p : gmap nat str) (w : world) : world :=
  mk_world p (tmux_calls w) (agents w)
           (registry w) (work_claims w) (completed_work w).

(** [pane = self.pane_mapping.get(agent_id)], [None] when [not pane]. *)
Definition pane_of (w : world) (agent_id : nat) : option str :=
  match pane_mapping w !! agent_id with
  | Some (c :: p) => Some (c :: p)
  | _ => None
  end.

(** [TmuxManager.send_to_pane(agent_id, command, enter)] *)
Definition send_to_pane (agent_id : nat) (command : str) (enter : bool)
  : M unit :=
  modify (λ w, match pane_of w agent_id with
               | Some _ => log_call (SendToPane agent_id command enter) w
               | None => w
               end).

(** [TmuxManager.set_pane_title(agent_id, title)] *)
Definition set_pane_title (agent_id : nat) (title : str) : M unit :=
  modify (λ w, match pane_of w agent_id with
               | Some _ => log_call (SetPaneTitle agent_id title) w
               | None => w
               end).

(** [TmuxManager.kill_session()] *)
Definition kill_session : M unit := modify (log_call KillSession).

(** [TmuxManager.capture_pane(agent_id, lines)]; [screen] is the text tmux
    prints for the pane at that moment. *)
Definition capture_pane (w : world) (agent_id : nat) (screen : str) : str :=
  match pane_of w agent_id with
  | Some _ => screen
  | None => []
  end.

Definition ready_indicators : list str :=
  [py "Welcome to Claude Code"; py "/help for help"; py "? for shortcuts";
   py "cwd:"; py "Press Esc twice"].

(** [AgentLauncher.check_agent_ready(agent_id)] *)
Definition check_agent_ready (w : world) (agent_id : nat) (screen : str)
  : bool :=
  let output := capture_pane w agent_id screen in
  existsb (λ indicator, contains indicator output) ready_indicators.

(** What one call of [launch_agent] reads from outside: the clock when the
    [Agent] is made, the screen of the pane at the readiness check, and the
    three readings of [register_agent]. *)
Record launch_readings := mk_readings {
  start_reading : datetime;
  screen_at_check : str;
  register_now : datetime;
  register_time : str;
  register_now' : datetime
}.

(** [self.coord.register_agent(agent_id)] on the registry of the world. *)
Definition coord_register_agent (agent_id : nat) (r : launch_readings)
  : M str :=
  λ w, match Coordination.register_agent (registry w) (Z.of_nat agent_id)
               (register_now r) (register_time r) (register_now' r) with
       | Ok (agent_uid, file) => (Returns agent_uid, set_registry file w)
       | Raise e => (Raises e, w)
       end.

Definition agent_title (agent_id : nat) (what : str) : str :=
  py "Agent " ++ str_of_int (Z.of_nat agent_id) ++ py " - " ++ what.

(** [AgentLauncher.launch_agent(agent_id, project_path)] *)
Definition launch_agent (agent_id : nat) (project_path : str)
    (r : launch_readings) : M Agent :=
  w ← get;
  match pane_mapping w !! agent_id with
  | None => raise KeyError
  | Some pane =>
      let agent := mk_agent agent_id pane Starting (start_reading r) 0 None in
      modify (set_agent agent_id agent);;
      send_to_pane agent_id (py "cd " ++ project_path) true;;
      send_to_pane agent_id (py "claude --dangerously-skip-permissions") true;;
      w' ← get;
      (* the result of the check is printed and nothing else *)
      let _ := check_agent_ready w' agent_id (screen_at_check r) in
      agent_uid ← coord_register_agent agent_id r;
      let agent := mk_agent agent_id pane Ready (start_reading r) 0
                            (Some agent_uid) in
      modify (set_agent agent_id agent);;
      set_pane_title agent_id (agent_title agent_id (py "Ready"));;
      mret agent
  end.

Definition nl : str := [newline].

(** [f"{prompt}\n\n[Agent ID: {agent.uid}]"] *)
Definition salted (prompt agent_uid : str) : str :=
  prompt ++ nl ++ nl ++ py "[Agent ID: " ++ agent_uid ++ py "]".

(** [AgentLauncher.send_prompt(agent_id, prompt)] *)
Definition send_prompt (agent_id : nat) (prompt : str) : M unit :=
  w ← get;
  match agents w !! agent_id with
  | None => mret tt
  | Some agent =>
      match uid agent with
      | None => raise AttributeError
      | Some agent_uid =>
          send_to_pane agent_id (salted prompt agent_uid) true;;
          set_pane_title agent_id (agent_title agent_id (py "Working"));;
          modify (set_agent agent_id
                    (mk_agent (id agent) (pane_id agent) Working
                              (start_time agent) (current_step agent)
                              (uid agent)))
      end
  end.

(** The uid under which agent [i] is registered, when it was launched. *)
Definition uid_of (w : world) (i : nat) : option str :=
  agents w !! i ≫= uid.

(** The texts sent to the pane of agent [i] so far, oldest first. *)
Definition delivered (i : nat) (w : world) : list str :=
  omap (λ c, match c with
             | SendToPane j command _ =>
                 if bool_decide (j = i) then Some command else None
             | _ => None
             end) (tmux_calls w).

(** The prompts sent to the panes so far, oldest first, each with the agent
    to whose pane it went: the [send_to_pane] calls that found a pane. *)
Definition sent_to_panes (w : world) : list (nat * str) :=
  omap (λ c, match c with
             | SendToPane i command _ => Some (i, command)
             | _ => None
             end) (tmux_calls w).

(** Every agent of the launcher has a uid and a pane: the state in which
    [launch_agent] leaves the agents it has launched. *)
Definition registered_agents (w : world) : Prop :=
  ∀ i a, agents w !! i = Some a → is_Some (uid a) ∧ is_Some (pane_of w i).

(** [m] does not stay in a loop: it returns or raises. *)
Definition settles {A} (m : M A) : Prop := ∀ w, (m w).1 ≠ Pending.

(** [w'] is [w] with the same panes and more calls made to tmux. *)
Definition extends (w w' : world) : Prop :=
  pane_mapping w' = pane_mapping w
  ∧ ∃ more, tmux_calls w' = tmux_calls w ++ more.

(** [m] keeps the panes and only adds to the calls made to tmux. *)
Definition growing {A} (m : M A) : Prop :=
  ∀ w out w', m w = (out, w') → extends w w'.

(** [sub] occurs in [s]. *)
Definition occurs_in (sub s : str) : Prop :=
  ∃ before after, s = before ++ sub ++ after.

End Launcher.

(* ===================================================================== *)
(** ** class MultiClaudeOrchestrator *)
(* ===================================================================== *)

Module Orchestrator.
Import Launcher.

(** The fields of [args] the orchestrator reads. *)
Record args := mk_args {
  n_agents : nat;
  kill_on_exit : bool;
  cleanup_coordination : bool;
  collaborative : bool;
  bundle_steps : option Z
}.

(** The coordination text of collaborative mode, before and after the
    number of agents. *)
Definition collaborative_head : str :=
  py "

IMPORTANT: You are part of a team of ".

Definition collaborative_tail : str :=
  py " AI agents working collaboratively.
All agents have received the complete list of steps for this project.

Collaboration Protocol:
1. Review ALL steps before choosing what to work on
2. Check /tmp/claude_coordination/work_claims/ to see what others are doing
3. Choose work that complements what others have claimed
4. Create detailed work claims including:
   - Which step(s) you're working on
   - Which files you'll modify
   - Expected interfaces/APIs you'll create
5. Regularly check completed work and adjust your approach
6. Focus on integration points between components
7. Communicate through descriptive commits and clear interfaces

Your goal is to work as a cohesive team, not just complete individual tasks.
".

(** The coordination text of sequential mode. *)
Definition sequential_instructions : str :=
  py "

IMPORTANT: You are part of a team of AI agents working in parallel. 
Before making any changes:
1. Check /tmp/claude_coordination/work_claims/ for existing claims
2. Claim your work area by creating a lock file before starting
3. Release your claim when done or if you encounter issues
4. Log completed work to help other agents avoid duplication
".

(** The closing text of [_send_all_steps_to_agent]. *)
Definition choose_steps_text : str :=
  py "

Choose which step(s) to work on based on:
- What others have already claimed
- Your analysis of the codebase
- Dependencies between steps
- Your strengths and the step requirements

Remember to claim your work before starting and update the completed work log when done.
".

(** What a run reads from outside. [create_session] is the pane mapping
    that [TmuxManager.create_session] builds, or [None] when it returns
    [False]; [launch_running i] is the flag [RUNNING] when the launch loop
    reaches agent [i]; [running it] is the flag at the head of the it-th
    turn of the loops of sequential mode, [idle_running k] at the head of
    the k-th turn of a monitoring loop; [ready_screen it i] and
    [done_screen it i] are the screens of pane [i] when turn [it] checks
    the agent for readiness and for completion. *)
Record env := mk_env {
  create_session : option (gmap nat str);
  launch_running : nat → bool;
  readings : nat → launch_readings;
  running : nat → bool;
  ready_screen : nat → nat → str;
  done_screen : nat → nat → str;
  idle_running : nat → bool
}.

(** The local variables of the sequential loop, with the list of the
    assignments made so far (agent and steps, oldest first). *)
Record sched := mk_sched {
  step_index : nat;
  agents_working : gset nat;
  assignments : list (nat * list BuildStep)
}.

(** [try: body / except Exception: print / finally: final] *)
Definition try_finally {A} (body : M A) (final : M unit) : M unit :=
  λ w, match body w with
       | (Returns _, w') => final w'
       | (Raises _, w') => final w'
       | (Pending, w') => (Pending, w')
       end.

Section WithArgs.

Variable a : args.
Variable prompt : BuildPrompt.
Variable project_path : str.
Variable e : env.

(** [full_prompt] of [_send_initial_prompts] *)
Definition full_prompt : str :=
  let base_prompt := initial_prompt prompt in
  if (1 <? n_agents a)%nat then
    if collaborative a
    then base_prompt
         ++ (collaborative_head ++ str_of_int (Z.of_nat (n_agents a))
             ++ collaborative_tail)
    else base_prompt ++ sequential_instructions
  else base_prompt.

(** [if step.description:] holds for a description that is not empty. *)
Definition described (step : BuildStep) : option str :=
  match description step with
  | Some (c :: d) => Some (c :: d)
  | _ => None
  end.

(** [f"\nStep {step.number}: {step.content}"], and the description line
    when there is one. *)
Definition step_lines (step : BuildStep) : str :=
  nl ++ py "Step " ++ str_of_int (number step) ++ py ": " ++ content step
  ++ match described step with
     | Some d => nl ++ py "   Description: " ++ d
     | None => []
     end.

(** [steps_text] of [_send_all_steps_to_agent] *)
Definition steps_text : str :=
  (nl ++ nl ++ py "COMPLETE PROJECT STEPS:" ++ nl)
  ++ (steps prompt ≫= step_lines) ++ choose_steps_text.

Definition _send_all_steps_to_agent (agent_id : nat) : M unit :=
  send_prompt agent_id steps_text.

Definition _send_initial_prompts : M unit :=
  for_each (seq 0 (n_agents a)) (λ _ i, send_prompt i full_prompt) tt;;
  if collaborative a && bool_decide (steps prompt ≠ [])
  then for_each (seq 0 (n_agents a)) (λ _ i, _send_all_steps_to_agent i) tt
  else mret tt.

(** [self.bundle_steps and self.bundle_steps > 1] *)
Definition bundling : option nat :=
  match bundle_steps a with
  | Some b => if (1 <? b)%Z then Some (Z.to_nat b) else None
  | None => None
  end.

(** [step_prompt] of the single-step branch *)
Definition step_prompt (step : BuildStep) : str :=
  let p := py "Step " ++ str_of_int (number step) ++ py ": " ++ content step in
  match described step with
  | Some d => p ++ nl ++ nl ++ py "Description: " ++ d
  | None => p
  end.

(** [bundled_prompt] of the bundle branch *)
Definition bundled_prompt (steps_to_send : list BuildStep) : str :=
  (py "You have been assigned the following related steps:" ++ nl)
  ++ (steps_to_send ≫= step_lines)
  ++ (nl ++ nl ++ py "These steps are related and should be completed together.").

(** The body of [for agent_id in range(self.args.agents)] in turn [it]. *)
Definition assign (it : nat) (s : sched) (agent_id : nat) : M sched :=
  if bool_decide (agent_id ∈ agents_working s) then mret s
  else
    w ← get;
    if check_agent_ready w agent_id (ready_screen e it agent_id) then
      if (step_index s <? length (steps prompt))%nat then
        match bundling with
        | Some b =>
            let bundle_end :=
              (step_index s + b) `min` length (steps prompt) in
            let steps_to_send :=
              omap (λ i, steps prompt !! i)
                   (seq (step_index s) (bundle_end - step_index s)) in
            send_prompt agent_id (bundled_prompt steps_to_send);;
            mret (mk_sched bundle_end ({[agent_id]} ∪ agents_working s)
                           (assignments s ++ [(agent_id, steps_to_send)]))
        | None =>
            match steps prompt !! step_index s with
            | Some step =>
                send_prompt agent_id (step_prompt step);;
                mret (mk_sched (step_index s + 1)
                               ({[agent_id]} ∪ agents_working s)
                               (assignments s ++ [(agent_id, [step])]))
            | None => raise IndexError
            end
        end
      else mret s
    else mret s.

(** ["ready" in output.lower()] on the last lines of the pane *)
Definition shows_ready (w : world) (agent_id : nat) (screen : str) : bool :=
  contains (py "ready") (lower (capture_pane w agent_id screen)).

(** [for agent_id in list(agents_working)]: the agents whose pane shows
    the word leave the set. *)
Definition poll (it : nat) (s : sched) : M sched :=
  w ← get;
  mret (mk_sched (step_index s)
          (filter (λ i, shows_ready w i (done_screen e it i) = false)
                  (agents_working s))
          (assignments s)).

(** [while RUNNING and step_index < len(self.prompt.steps)]; [it] counts
    the turns. The loop is [Pending] when [fuel] turns do not end it. *)
Fixpoint assign_loop (fuel it : nat) (s : sched) : M (nat * sched) :=
  match fuel with
  | O => pending
  | S fuel' =>
      if running e it && (step_index s <? length (steps prompt))%nat then
        s1 ← for_each (seq 0 (n_agents a)) (assign it) s;
        s2 ← poll it s1;
        assign_loop fuel' (S it) s2
      else mret (it, s)
  end.

(** [while RUNNING and agents_working] *)
Fixpoint wait_loop (fuel it : nat) (s : sched) : M sched :=
  match fuel with
  | O => pending
  | S fuel' =>
      if running e it && bool_decide (agents_working s ≠ ∅) then
        s' ← poll it s; wait_loop fuel' (S it) s'
      else mret s
  end.

(** [while RUNNING: time.sleep(...)] *)
Fixpoint idle_loop (fuel k : nat) : M unit :=
  match fuel with
  | O => pending
  | S fuel' => if idle_running e k then idle_loop fuel' (S k) else mret tt
  end.

Definition _orchestrate_steps (fuel : nat) : M unit :=
  if collaborative a then idle_loop fuel 0
  else
    r ← assign_loop fuel 0 (mk_sched 0 ∅ []);
    wait_loop fuel r.1 r.2;;
    mret tt.

(** [CoordinationManager._cleanup()] *)
Definition coord_cleanup (w : world) : world :=
  mk_world (pane_mapping w) (tmux_calls w) (agents w)
           (Coordination.Json (Coordination.JObject ∅)) [] None.

(** [MultiClaudeOrchestrator._cleanup()] *)
Definition _cleanup : M unit :=
  for_each (seq 0 (n_agents a)) (λ _ i, send_to_pane i (py "/exit") true) tt;;
  (if kill_on_exit a then kill_session else mret tt);;
  (if cleanup_coordination a then modify coord_cleanup else mret tt).

(** The launch loop of [run], with its [break]. *)
Fixpoint launch_all (ids : list nat) : M unit :=
  match ids with
  | [] => mret tt
  | i :: rest =>
      if launch_running e i
      then launch_agent i project_path (readings e i);; launch_all rest
      else mret tt
  end.

(** The [try] block of [run]. *)
Definition run_body (fuel : nat) : M unit :=
  launch_all (seq 0 (n_agents a));;
  _send_initial_prompts;;
  if bool_decide (steps prompt ≠ [])
  then _orchestrate_steps fuel
  else idle_loop fuel 0.

(** [MultiClaudeOrchestrator.run()] *)
Definition run (fuel : nat) : M unit :=
  match create_session e with
  | None => mret tt
  | Some panes =>
      modify (set_panes panes);;
      try_finally (run_body fuel) _cleanup
  end.

End WithArgs.

(** The calls [_cleanup] makes to tmux in a world with the given panes. *)
Definition cleanup_calls (a : args) (w : world) : list tmux_call :=
  ((seq 0 (n_agents a)) ≫= λ i,
     match pane_of w i with
     | Some _ => [SendToPane i (py "/exit") true]
     | None => []
     end)
  ++ (if kill_on_exit a then [KillSession] else []).

(** The contiguous bundles of [b] elements of a list, the last one being
    what remains. *)
Definition chunks {A} (b : nat) (l : list A) : list (list A) :=
  (λ k, take b (drop (k * b) l)) <$> seq 0 ((length l + b - 1) / b).

(** The bundle size in effect: [bundle_steps] when it exceeds one, else
    one. *)
Definition bundle_size (a : args) : nat :=
  match bundling a with
  | Some b => b
  | None => 1
  end.

(** The bundles assigned so far, oldest first. *)
Definition bundles (s : sched) : list (list BuildStep) := snd <$> assignments s.

(** What holds of the local variables of the sequential loop at every
    point: the assignments made are the first [k] bundles, in order, and the
    cursor stands after them. *)
Definition sched_inv (a : args) (prompt : BuildPrompt) (s : sched) : Prop :=
  ∃ k, bundles s = take k (chunks (bundle_size a) (steps prompt))
       ∧ step_index s = (k * bundle_size a) `min` length (steps prompt).

(** The local variables after the next bundle has been assigned to agent
    [i]. *)
Definition after_assignment (a : args) (prompt : BuildPrompt) (s : sched)
    (i : nat) : sched :=
  mk_sched ((step_index s + bundle_size a) `min` length (steps prompt))
           ({[i]} ∪ agents_working s)
           (assignments s
            ++ [(i, take (bundle_size a) (drop (step_index s) (steps prompt)))]).

(** The prompt with which a bundle is assigned: [bundled_prompt] when
    bundling is on, [step_prompt] of its one step otherwise. *)
Definition assignment_prompt (a : args) (bundle : list BuildStep) : str :=
  match bundling a, bundle with
  | Some _, _ => bundled_prompt bundle
  | None, [step] => step_prompt step
  | None, _ => []
  end.

(** What [send_prompt] asks of tmux for an agent with uid [u] and a pane:
    the prompt goes to the pane with the uid after it, then the title of the
    pane is set. *)
Definition prompt_calls (i : nat) (text u : str) : list tmux_call :=
  [SendToPane i (salted text u) true;
   SetPaneTitle i (agent_title i (py "Working"))].

(** What the scheduler asks of tmux for a list of assignments, in the
    order of the list, the uids being those of the world [w]: each bundle
    goes to its agent as one prompt; an agent that was not launched is sent
    nothing. *)
Definition assignment_calls (a : args) (w : world)
    (assigned : list (nat * list BuildStep)) : list tmux_call :=
  assigned ≫= λ p, match uid_of w p.1 with
                   | Some u => prompt_calls p.1 (assignment_prompt a p.2) u
                   | None => []
                   end.

(** Prompt [c], sent to the pane of agent [c.1], assigns [bundle]: the agent
    is one of the [n_agents] and was launched, and the text is the prompt of
    the bundle followed by the uid of the agent. *)
Definition assigns (a : args) (w : world) (c : nat * str)
    (bundle : list BuildStep) : Prop :=
  c.1 < n_agents a
  ∧ ∃ u, uid_of w c.1 = Some u ∧ c.2 = salted (assignment_prompt a bundle) u.

(** Agent [i] is live: it has a pane, which shows a readiness marker at
    every readiness check and the word [ready] at every completion check. *)
Definition live_agent (e : env) (w : world) (i : nat) : Prop :=
  is_Some (pane_of w i)
  ∧ (∀ it, existsb (λ indicator, contains indicator (ready_screen e it i))
                   ready_indicators = true)
  ∧ (∀ it, contains (py "ready") (lower (done_screen e it i)) = true).

(** The world before a run: nothing sent, nobody launched, the
    coordination directory as the constructor leaves it. *)
Definition fresh_world : world :=
  mk_world ∅ [] ∅ (Coordination.Json (Coordination.JObject ∅)) [] None.

(** Data for the worked examples: two launched agents, and a prompt of two
    steps, the second with a description. *)
Definition uid_0 : str := py "agent_20250101_090000_1a2b".
Definition uid_1 : str := py "agent_20250101_090010_3c4d".

Definition two_agents : world :=
  mk_world {[ 0 := py "claude_agents:agents.0"; 1 := py "claude_agents:agents.1" ]}
           []
           {[ 0 := mk_agent 0 (py "claude_agents:agents.0") Ready
                            Coordination.nine 0 (Some uid_0);
              1 := mk_agent 1 (py "claude_agents:agents.1") Ready
                            Coordination.nine 0 (Some uid_1) ]}
           (Coordination.Json (Coordination.JObject ∅)) [] None.

(** Five steps numbered 1 to 5, and surroundings in which the flag
    [RUNNING] stays set and every pane shows the prompt of an idle agent. *)
Definition five_steps : BuildPrompt :=
  mk_prompt (py "Build the service")
            ((λ n, mk_step n (py "step " ++ str_of_int n) None) <$> [1; 2; 3; 4; 5]%Z)
            default_name.

Definition always_ready : env :=
  mk_env (Some (pane_mapping two_agents)) (λ _, true)
         (λ _, mk_readings Coordination.nine (py "? for shortcuts")
                           Coordination.nine (py "1735722000.5") Coordination.nine)
         (λ _, true)
         (λ _ _, py "? for shortcuts")
         (λ _ _, py "Ready for input")
         (λ _, true).

(** Surroundings in which tmux fails to create the session. *)
Definition no_session : env :=
  mk_env None (running always_ready) (readings always_ready)
         (running always_ready) (ready_screen always_ready)
         (done_screen always_ready) (idle_running always_ready).

(** Surroundings in which the session is created with two panes and the
    operator interrupts the run at the third turn of any loop. *)
Definition interrupted : env :=
  mk_env (Some (pane_mapping two_agents)) (λ _, true) (readings always_ready)
         (λ k, k <? 3) (ready_screen always_ready)
         (done_screen always_ready) (λ k, k <? 3).

(** A fresh world whose registry file has been overwritten with text that
    is not JSON. *)
Definition corrupt_registry : world :=
  mk_world ∅ [] ∅ Coordination.Corrupt [] None.

Definition two_steps : BuildPrompt :=
  mk_prompt (py "Build the service")
            [mk_step 1 (py "Design the API") None;
             mk_step 2 (py "Write the tests") (Some (py "unit tests first"))]
            default_name.

End Orchestrator.

(* ===================================================================== *)
(** ** class CoordinationManager: sequences of calls *)
(* ===================================================================== *)

Module Protocol.
Import Coordination.

(** [CoordinationManager._cleanup()], on the directory of work claims:
    [for f in glob("*.lock"): f.unlink()]. *)
Definition _cleanup (dir : claims_dir) : claims_dir :=
  foldl (λ d e, unlink e.1 d) dir dir.

(** One call made to the coordination manager, with the readings of the
    clock it takes. *)
Inductive call :=
| ClaimWork (clock : nat → datetime) (stamp : datetime)
            (agent_uid : str) (fs : list str) (descr : str)
| ReleaseWork (agent_uid : str)
| Cleanup.

Definition perform (dir : claims_dir) (c : call) : claims_dir :=
  match c with
  | ClaimWork clock stamp agent_uid fs descr =>
      (claim_work clock stamp agent_uid fs descr dir).2
  | ReleaseWork agent_uid => release_work agent_uid dir
  | Cleanup => _cleanup dir
  end.

(** The directory after a sequence of calls, made one after the other. *)
Definition perform_all (calls : list call) (dir : claims_dir) : claims_dir :=
  foldl perform dir calls.

(** No file is listed by two records of the directory. *)
Definition exclusive (dir : claims_dir) : Prop :=
  ∀ e1 e2 f, e1 ∈ dir → e2 ∈ dir →
    f ∈ files e1.2 → f ∈ files e2.2 → e1 = e2.

End Protocol.

(* ===================================================================== *)
(** ** class TmuxManager: the session and the command lines *)
(* ===================================================================== *)

Module TmuxShell.
Import Launcher.

(** [s <= t] on [str]: the order of the code points, a proper prefix
    first. *)
Fixpoint str_le (s t : str) : bool :=
  match s, t with
  | [], _ => true
  | _ :: _, [] => false
  | a :: s', b :: t' =>
      (N_of_ascii a <? N_of_ascii b)%N
      || ((N_of_ascii a =? N_of_ascii b)%N && str_le s' t')
  end.

(** [sorted(l)] for a list of [str]. The order is total and equal
    strings are the same value, so the result is the one ascending
    arrangement of [l], whichever way it is computed. *)
Definition sorted (l : list str) : list str :=
  merge_sort (λ s t, str_le s t) l.

(** What [create_session] reads from the commands it runs: the return code
    of [tmux new-session] and the standard output of [tmux list-panes]. *)
Record session_readings := mk_session_readings {
  new_session_returncode : Z;
  list_panes_stdout : str
}.

(** [sorted([pid.strip() for pid in result.stdout.strip().split('\n')])] *)
Definition pane_ids (stdout : str) : list str :=
  sorted (strip <$> split_lines (strip stdout)).

(** [f"{self.session}:agents.{pane_id}"] *)
Definition pane_target (session pane_id : str) : str :=
  session ++ py ":agents." ++ pane_id.

(** [TmuxManager.create_session(num_agents)]: the value returned and the
    pane mapping afterwards, for a number of agents that is not negative. The
    commands that make and configure the panes act on tmux alone. *)
Definition create_session (session : str) (num_agents : nat)
    (r : session_readings) (pane_mapping : gmap nat str)
  : bool * gmap nat str :=
  if bool_decide (new_session_returncode r ≠ 0%Z) then (false, pane_mapping)
  else
    (true,
     foldl (λ m p, <[p.1 := pane_target session p.2]> m) pane_mapping
           (imap pair (take num_agents (pane_ids (list_panes_stdout r))))).

(** What [tmux list-panes -F '#{pane_index}'] prints for a window of [m]
    panes numbered from 0. *)
Definition pane_listing (m : nat) : str :=
  (seq 0 m) ≫= λ i, str_of_int (Z.of_nat i) ++ nl.

(** What a call does outside of the program. *)
Inductive action :=
| Shell (command_line : str)        (* [subprocess.run(..., shell=True)] *)
| WriteTemp (path content : str)    (* the temporary file, written and closed *)
| Unlink (path : str).              (* [os.unlink(temp_path)], errors ignored *)

#[global] Instance action_eq_dec : EqDecision action.
Proof. solve_decision. Defined.

(** What [send_to_pane] reads from outside on its multi-line path: the
    name of the temporary file, [uuid.uuid4().hex] and the return code of
    [tmux load-buffer]. *)
Record send_readings := mk_send_readings {
  temp_path : str;
  uuid_hex : str;
  load_buffer_returncode : Z
}.

Definition single_quote : ascii := "'"%char.
Definition double_quote : ascii := ascii_of_N 34.

(** [s.replace("'", "'\"'\"'")] *)
Definition escape (s : str) : str :=
  s ≫= λ c, if bool_decide (c = single_quote)
            then [single_quote; double_quote; single_quote; double_quote;
                  single_quote]
            else [c].

(** [f"tmux send-keys -t {pane} '{text}'"] and [f"tmux send-keys -t {pane} C-m"] *)
Definition send_keys (pane text : str) : str :=
  py "tmux send-keys -t " ++ pane ++ py " " ++ [single_quote] ++ text
  ++ [single_quote].

Definition send_enter (pane : str) : str :=
  py "tmux send-keys -t " ++ pane ++ py " C-m".

(** The fallback of the multi-line path:
    [for line in command.split('\n'): if line: ...]. *)
Definition send_lines (pane command : str) : list action :=
  split_lines command ≫= λ line,
    match line with
    | [] => []
    | _ :: _ => [Shell (send_keys pane (escape line)); Shell (send_enter pane)]
    end.

(** [TmuxManager.send_to_pane(agent_id, command, enter)], as the actions it
    takes, in order. *)
Definition send_to_pane (pane_mapping : gmap nat str) (agent_id : nat)
    (command : str) (enter : bool) (r : send_readings) : list action :=
  match pane_mapping !! agent_id with
  | Some (c :: p) =>
      let pane := c :: p in
      if contains nl command && enter then
        let buf_name := py "multiclaude_" ++ take 8 (uuid_hex r) in
        [WriteTemp (temp_path r) command;
         Shell (py "tmux load-buffer -b " ++ buf_name ++ py " " ++ temp_path r)]
        ++ (if bool_decide (load_buffer_returncode r = 0%Z)
            then [Shell (py "tmux paste-buffer -d -b " ++ buf_name
                         ++ py " -t " ++ pane)]
            else send_lines pane command)
        ++ [Unlink (temp_path r)]
        ++ [Shell (send_enter pane)]
      else
        let escaped_cmd := escape command in
        if enter
        then [Shell (send_keys pane escaped_cmd); Shell (send_enter pane)]
        else [Shell (send_keys pane escaped_cmd)]
  | _ => []
  end.

(** [TmuxManager.set_pane_title(agent_id, title)] *)
Definition set_pane_title (pane_mapping : gmap nat str) (agent_id : nat)
    (title : str) : list action :=
  match pane_mapping !! agent_id with
  | Some (c :: p) =>
      [Shell (py "tmux select-pane -t " ++ (c :: p) ++ py " -T "
              ++ [single_quote] ++ title ++ [single_quote])]
  | _ => []
  end.

(** How the shell reads a word made of quoted parts only (POSIX, Shell
    Command Language, 2.2.2 and 2.2.3): between single quotes every
    character stands for itself; between double quotes too, but for the
    dollar sign, the backquote and the backslash; the parts are joined.
    [None] stands for every other word: one with a character outside of
    quotes, with one of the three characters between double quotes, or that
    ends inside quotes. *)
Inductive quoting := Unquoted | InSingle | InDouble.

Definition dollar : ascii := ascii_of_N 36.
Definition backquote : ascii := ascii_of_N 96.
Definition backslash : ascii := ascii_of_N 92.

Fixpoint read_word (q : quoting) (s : str) : option str :=
  match s with
  | [] => match q with Unquoted => Some [] | _ => None end
  | c :: r =>
      match q with
      | Unquoted =>
          if bool_decide (c = single_quote) then read_word InSingle r
          else if bool_decide (c = double_quote) then read_word InDouble r
          else None
      | InSingle =>
          if bool_decide (c = single_quote) then read_word Unquoted r
          else (c ::.) <$> read_word InSingle r
      | InDouble =>
          if bool_decide (c = double_quote) then read_word Unquoted r
          else if bool_decide (c ∈ [dollar; backquote; backslash]) then None
          else (c ::.) <$> read_word InDouble r
      end
  end.

End TmuxShell.

(* ===================================================================== *)
(** ** What the launcher and the scheduler deliver *)
(* ===================================================================== *)

Module Delivery.
Import Launcher Orchestrator.

(** The uid [register_agent] gives agent [i] when [launch_agent] calls it
    with the readings of the surroundings. *)
Definition launch_uid (e : env) (i : nat) : str :=
  Coordination.unique_id (Z.of_nat i) (register_now (readings e i))
                         (register_time (readings e i)).

(** The agent [launch_agent] returns for agent [i] with pane [pane]. *)
Definition launched (e : env) (i : nat) (pane : str) : Agent :=
  mk_agent i pane Ready (start_reading (readings e i)) 0 (Some (launch_uid e i)).

(** The entry [register_agent] writes for agent [i] under that uid. *)
Definition launch_entry (e : env) (i : nat) : Coordination.agent_entry :=
  Coordination.mk_entry (Z.of_nat i) (register_now' (readings e i)) (py "active").

(** The registry after the agents of [ids] have been registered in this
    order: [agents[unique_id] = {...}] for each, a later agent replacing the
    entry of an earlier one with the same uid. *)
Definition registered_after (e : env) (ids : list nat)
    (registered : gmap str Coordination.agent_entry)
  : gmap str Coordination.agent_entry :=
  foldl (λ r i, <[launch_uid e i := launch_entry e i]> r) registered ids.

(** The prompts of the bundles assigned to agent [i], oldest first, each
    with the uid [u] of the agent as [send_prompt] adds it. *)
Definition prompts_for (a : args) (i : nat) (u : str)
    (assigned : list (nat * list BuildStep)) : list str :=
  omap (λ p : nat * list BuildStep,
          if bool_decide (p.1 = i)
          then Some (salted (assignment_prompt a p.2) u) else None)
       assigned.

End Delivery.

(* ===================================================================== *)
(** ** The text format, written out *)
(* ===================================================================== *)

Module TextFormat.
Import Parser.

(** A step as a line of the text format: its number, a period, a space
    and its content. *)
Definition step_line (s : BuildStep) : str :=
  str_of_int (number s) ++ py ". " ++ content s.

(** A prompt as a text of the format: the initial prompt, then one line
    for each step. *)
Definition prompt_text (p : BuildPrompt) : str :=
  join_lines (initial_prompt p :: (step_line <$> steps p)).

(** The steps the format can hold: a number that is not negative and has
    no more digits than [int] reads, a content of one line that is not empty
    and has no white space at either end, and no description. *)
Definition writable_step (s : BuildStep) : Prop :=
  (0 <= number s)%Z
  ∧ length (str_of_int (number s)) ≤ int_max_str_digits
  ∧ content s ≠ []
  ∧ strip (content s) = content s
  ∧ (newline ∉ content s)
  ∧ description s = None.

(** The prompts the format can hold: an initial prompt without white
    space at either end and without a line that the parser takes for a step,
    writable steps, and the default name. *)
Definition writable (p : BuildPrompt) : Prop :=
  strip (initial_prompt p) = initial_prompt p
  ∧ (∀ line, line ∈ split_lines (initial_prompt p) → starts_steps line = false)
  ∧ Forall writable_step (steps p)
  ∧ name p = default_name.

End TextFormat.

(* ===================================================================== *)
(** ** class PromptParser: the YAML format *)
(* ===================================================================== *)

Module Yaml.

(** What [yaml.safe_load] returns for a document made of nulls, booleans,
    integers, strings, sequences and mappings; a mapping holds its entries
    in the order of the document, under distinct keys. Floats, timestamps,
    binary data and sets are left out. *)
#[warnings="-register-all"] Inductive value :=
| VNone
| VBool (b : bool)
| VInt (n : Z)
| VStr (s : str)
| VList (items : list value)
| VDict (entries : list (value * value)).

(** [d.get(key)] for a [str] key: only a [str] equals a [str]. *)
Fixpoint dict_get (key : str) (entries : list (value * value)) : option value :=
  match entries with
  | [] => None
  | (VStr k, v) :: rest =>
      if bool_decide (k = key) then Some v else dict_get key rest
  | _ :: rest => dict_get key rest
  end.

(** [BuildStep] and [BuildPrompt] as [parse_yaml] fills them: the fields
    hold whatever the document gives, of whatever type. *)
Record YamlStep := mk_yaml_step {
  step_number : Z;
  step_content : value;
  step_description : value
}.

Record YamlPrompt := mk_yaml_prompt {
  prompt_name : value;
  prompt_initial : value;
  prompt_steps : list YamlStep
}.

(** The values [for i, step in enumerate(v)] goes through: the items of a
    sequence, the characters of a string, the keys of a mapping; the other
    values cannot be iterated. *)
Definition iterate (v : value) : result (list value) :=
  match v with
  | VList items => Ok items
  | VStr s => Ok ((λ c, VStr [c]) <$> s)
  | VDict entries => Ok (entries.*1)
  | VNone | VBool _ | VInt _ => Raise TypeError
  end.

(** The body of the loop for the item at position [i]: a step for a
    string and for a mapping, nothing for another value. *)
Definition step_of (i : nat) (step : value) : option YamlStep :=
  match step with
  | VStr _ => Some (mk_yaml_step (Z.of_nat i + 1) step VNone)
  | VDict entries =>
      Some (mk_yaml_step (Z.of_nat i + 1)
              (default (VStr []) (dict_get (py "content") entries))
              (default VNone (dict_get (py "description") entries)))
  | _ => None
  end.

(** [PromptParser.parse_yaml], from the value [yaml.safe_load] returns. *)
Definition parse_yaml (data : value) : result YamlPrompt :=
  match data with
  | VDict entries =>
      let name := default (VStr default_name) (dict_get (py "name") entries) in
      let initial := default (VStr []) (dict_get (py "initial_prompt") entries) in
      match dict_get (py "steps") entries with
      | None => Ok (mk_yaml_prompt name initial [])
      | Some v =>
          match iterate v with
          | Ok items =>
              Ok (mk_yaml_prompt name initial (omap id (imap step_of items)))
          | Raise e => Raise e
          end
      end
  | _ => Raise AttributeError
  end.

End Yaml.

(* ===================================================================== *)
(** * Properties *)
(* ===================================================================== *)

(** ** Work claims *)

Module CoordinationFacts.
Import Coordination.

Lemma is_stale_false now t :
  is_stale now t = false ↔ (delta_micros now t <= 7200 * 1000000)%Z.
Proof. unfold is_stale, total_seconds_gt. rewrite Z.ltb_ge. done. Qed.

Lemma is_stale_true now t :
  is_stale now t = true ↔ (7200 * 1000000 < delta_micros now t)%Z.
Proof. unfold is_stale, total_seconds_gt. rewrite Z.ltb_lt. done. Qed.

Lemma intersects_spec fs lf :
  intersects fs lf = true ↔ ∃ f, f ∈ fs ∧ f ∈ lf.
Proof.
  unfold intersects. rewrite existsb_exists. split.
  - intros (f & Hin & Hb). exists f. apply bool_decide_eq_true in Hb.
    by rewrite list_elem_of_In.
  - intros (f & Hin & Hb). exists f. rewrite bool_decide_eq_true.
    by rewrite <- list_elem_of_In.
Qed.

Lemma elem_of_unlink e name dir :
  e ∈ unlink name dir ↔ e.1 ≠ name ∧ e ∈ dir.
Proof. unfold unlink. by rewrite list_elem_of_filter. Qed.

Lemma unlink_sublist name dir : unlink name dir `sublist_of` dir.
Proof. apply sublist_filter. Qed.

Lemma scan_shift clock fs i listing dir :
  scan clock fs (S i) listing dir = scan (λ n, clock (S n)) fs i listing dir.
Proof.
  revert i dir. induction listing as [|[n l] rest IH]; intros i dir; simpl; [done|].
  destruct (intersects fs (files l)); [destruct (is_stale _ _)|]; auto.
Qed.

Lemma examined_cons clock fs n l rest i :
  examined clock fs ((n, l) :: rest) (S i) ↔
  (intersects fs (files l) = true → is_stale (clock 0%nat) (timestamp l) = true)
  ∧ examined (λ k, clock (S k)) fs rest i.
Proof.
  unfold examined. split.
  - intros H. split.
    + intros Hi. apply (H 0%nat n l); [lia|done|done].
    + intros j n' l' Hj Hl Hi. apply (H (S j) n' l'); [lia|done|done].
  - intros [H0 H] j n' l' Hj Hl Hi. destruct j as [|j]; simpl in Hl.
    + simplify_eq. auto.
    + apply (H j n' l'); [lia|done|done].
Qed.

Lemma examined_0 clock fs listing : examined clock fs listing 0.
Proof. intros j ? ? Hj. lia. Qed.

(** The scan leaves through [return False] exactly when some listed record
    intersects and is not stale when examined. *)
Lemma scan_false_iff clock fs listing dir :
  (scan clock fs 0 listing dir).1 = false ↔
  ∃ i name lock, listing !! i = Some (name, lock) ∧
    intersects fs (files lock) = true ∧
    is_stale (clock i) (timestamp lock) = false.
Proof.
  revert clock dir.
  induction listing as [|[n l] rest IH]; intros clock dir; simpl.
  - split; [done|]. by intros (i & ? & ? & H & _).
  - destruct (intersects fs (files l)) eqn:Hi;
      [destruct (is_stale (clock 0%nat) (timestamp l)) eqn:Hs|].
    + rewrite scan_shift, IH. split.
      * intros (i & n' & l' & ? & ? & ?). by exists (S i), n', l'.
      * intros (i & n' & l' & Hl & Hint & Hst).
        destruct i as [|i]; simpl in Hl; [simplify_eq; congruence|].
        by exists i, n', l'.
    + simpl. split; [|done]. intros _. by exists 0%nat, n, l.
    + rewrite scan_shift, IH. split.
      * intros (i & n' & l' & ? & ? & ?). by exists (S i), n', l'.
      * intros (i & n' & l' & Hl & Hint & Hst).
        destruct i as [|i]; simpl in Hl; [simplify_eq; congruence|].
        by exists i, n', l'.
Qed.

(** What the scan leaves in the directory: the files it held, minus the
    names of the stale intersecting records the scan got to. *)
Lemma scan_elem clock fs listing dir e :
  e ∈ (scan clock fs 0 listing dir).2 ↔
  e ∈ dir ∧ ¬ ∃ i lock, listing !! i = Some (e.1, lock) ∧
    examined clock fs listing i ∧
    intersects fs (files lock) = true ∧
    is_stale (clock i) (timestamp lock) = true.
Proof.
  revert clock dir.
  induction listing as [|[n l] rest IH]; intros clock dir; simpl.
  - split; [|by intros [? _]]. intros He. split; [done|].
    by intros (i & ? & H & _).
  - destruct (intersects fs (files l)) eqn:Hi;
      [destruct (is_stale (clock 0%nat) (timestamp l)) eqn:Hs|].
    + rewrite scan_shift, IH, elem_of_unlink. split.
      * intros [[Hne He] Hno]. split; [done|].
        intros (i & l' & Hl & Hex & Hint & Hst). destruct i as [|i]; simpl in Hl.
        -- by simplify_eq.
        -- apply Hno. exists i, l'. apply examined_cons in Hex as [_ Hex]. done.
      * intros [He Hno]. split; [split; [|done]|].
        -- intros <-. apply Hno. exists 0%nat, l. simpl.
           split; [done|]. split; [apply examined_0|done].
        -- intros (i & l' & Hl & Hex & Hint & Hst). apply Hno.
           exists (S i), l'. simpl. split; [done|].
           split; [|done]. apply examined_cons. done.
    + simpl. split; [|by intros [? _]]. intros He. split; [done|].
      intros (i & l' & Hl & Hex & Hint & Hst). destruct i as [|i]; simpl in Hl.
      * simplify_eq. congruence.
      * apply examined_cons in Hex as [Hex _]. specialize (Hex Hi). congruence.
    + rewrite scan_shift, IH. split.
      * intros [He Hno]. split; [done|].
        intros (i & l' & Hl & Hex & Hint & Hst). destruct i as [|i]; simpl in Hl.
        -- simplify_eq. congruence.
        -- apply Hno. exists i, l'. apply examined_cons in Hex as [_ Hex]. done.
      * intros [He Hno]. split; [done|].
        intros (i & l' & Hl & Hex & Hint & Hst). apply Hno.
        exists (S i), l'. simpl. split; [done|].
        split; [|done]. apply examined_cons. split; [congruence|done].
Qed.

Lemma scan_sublist clock fs i listing dir :
  (scan clock fs i listing dir).2 `sublist_of` dir.
Proof.
  revert i dir. induction listing as [|[n l] rest IH]; intros i dir; simpl; [done|].
  destruct (intersects fs (files l)); [destruct (is_stale _ _)|]; simpl; auto.
  etrans; [apply IH|apply unlink_sublist].
Qed.

Lemma sublist_wf d d' : d' `sublist_of` d → wf_dir d → wf_dir d'.
Proof.
  unfold wf_dir. intros Hs Hd. eapply sublist_NoDup; [exact Hd|].
  by apply fmap_sublist.
Qed.

Lemma exists_lock_true n dir : exists_lock n dir = true ↔ ∃ l, (n, l) ∈ dir.
Proof.
  unfold exists_lock. rewrite bool_decide_eq_true, list_elem_of_fmap. split.
  - intros ([n' l] & -> & H). by exists l.
  - intros (l & H). by exists (n, l).
Qed.

Lemma elem_of_write_lock e n l dir :
  e ∈ write_lock n l dir ↔ e = (n, l) ∨ (e.1 ≠ n ∧ e ∈ dir).
Proof.
  unfold write_lock. destruct (exists_lock n dir) eqn:Hex.
  - apply exists_lock_true in Hex as (l0 & Hl0). rewrite list_elem_of_fmap. split.
    + intros (x & -> & Hx). case_bool_decide; [by left|by right].
    + intros [->|[Hne He]].
      * exists (n, l0). simpl. by rewrite bool_decide_eq_true_2.
      * exists e. by rewrite bool_decide_eq_false_2.
  - rewrite elem_of_app, list_elem_of_singleton. split.
    + intros [He| ->]; [right|by left]. split; [|done]. intros <-.
      assert (exists_lock e.1 dir = true) as Ht; [|congruence].
      apply exists_lock_true. exists e.2. by destruct e.
    + intros [->|[_ He]]; [by right|by left].
Qed.

Lemma wf_write_lock n l dir : wf_dir dir → wf_dir (write_lock n l dir).
Proof.
  unfold wf_dir, write_lock. intros Hwf. destruct (exists_lock n dir) eqn:Hex.
  - rewrite <- list_fmap_compose.
    erewrite list_fmap_ext; [exact Hwf|].
    intros i x _. simpl. by case_bool_decide.
  - rewrite fmap_app. apply NoDup_app. split; [done|]. split; [|apply NoDup_singleton].
    intros x Hx. simpl. rewrite list_elem_of_singleton. intros ->.
    unfold exists_lock in Hex. by apply bool_decide_eq_false in Hex.
Qed.

Lemma read_lock_Some n dir l : read_lock n dir = Some l → (n, l) ∈ dir.
Proof.
  induction dir as [|[n' l'] rest IH]; simpl; [done|].
  rewrite elem_of_cons. case_bool_decide; intros Hr; simplify_eq; auto.
Qed.

Lemma read_lock_None n dir : read_lock n dir = None ↔ ∀ l, (n, l) ∉ dir.
Proof.
  induction dir as [|[n' l'] rest IH]; simpl.
  - split; [|done]. intros _ l. apply not_elem_of_nil.
  - case_bool_decide as Hn.
    + split; [done|]. intros H. exfalso. apply (H l'). subst. left.
    + rewrite IH. split.
      * intros H l. rewrite elem_of_cons. intros [?|?]; [congruence|]. by eapply H.
      * intros H l Hl. apply (H l). by right.
Qed.

Lemma read_lock_unique n l dir :
  (∃ l0, (n, l0) ∈ dir) → (∀ l', (n, l') ∈ dir → l' = l) →
  read_lock n dir = Some l.
Proof.
  intros [l0 H0] Hu. destruct (read_lock n dir) as [l'|] eqn:Hr.
  - f_equal. apply Hu. by apply read_lock_Some.
  - exfalso. by eapply read_lock_None.
Qed.

Lemma read_lock_wf n l dir : wf_dir dir → (n, l) ∈ dir → read_lock n dir = Some l.
Proof.
  unfold wf_dir. induction dir as [|[n' l'] rest IH]; simpl.
  - by intros _ ?%elem_of_nil.
  - rewrite NoDup_cons, elem_of_cons. intros [Hni Hnd] [Heq|Hin].
    + simplify_eq. by rewrite bool_decide_eq_true_2.
    + case_bool_decide; [|auto]. subst. exfalso. apply Hni.
      apply list_elem_of_fmap. by exists (n, l).
Qed.

Lemma claim_work_unfold clock stamp uid fs d dir :
  claim_work clock stamp uid fs d dir =
  if (scan clock fs 0 dir dir).1
  then (true, write_lock uid (mk_lock uid fs d stamp) (scan clock fs 0 dir dir).2)
  else (false, (scan clock fs 0 dir dir).2).
Proof. unfold claim_work. by destruct (scan _ _ _ _ _) as [[] ?]. Qed.

Lemma claim_work_fst clock stamp uid fs d dir :
  (claim_work clock stamp uid fs d dir).1 = (scan clock fs 0 dir dir).1.
Proof. rewrite claim_work_unfold. by destruct (scan _ _ _ _ _).1. Qed.

Lemma blocks_scan clock fs dir :
  blocks clock fs dir ↔ (scan clock fs 0 dir dir).1 = false.
Proof.
  rewrite scan_false_iff. unfold blocks.
  by setoid_rewrite is_stale_false.
Qed.

(** [claim_work] answers [False] exactly when a recorded claim blocks. *)
Lemma claim_work_false_iff clock stamp uid fs d dir :
  (claim_work clock stamp uid fs d dir).1 = false ↔ blocks clock fs dir.
Proof. by rewrite claim_work_fst, blocks_scan. Qed.

Lemma claim_work_true_iff clock stamp uid fs d dir :
  (claim_work clock stamp uid fs d dir).1 = true ↔ ¬ blocks clock fs dir.
Proof.
  rewrite <- (claim_work_false_iff clock stamp uid fs d dir).
  destruct (claim_work _ _ _ _ _ _).1; split; intros H; congruence.
Qed.

Lemma not_blocks_examined clock fs dir i :
  ¬ blocks clock fs dir → examined clock fs dir i.
Proof.
  intros Hnb j n l _ Hl Hi.
  destruct (is_stale (clock j) (timestamp l)) eqn:Hs; [done|].
  exfalso. apply Hnb. exists j, n, l. by rewrite <- is_stale_false.
Qed.

(** A stale intersecting record the scan gets to is deleted: afterwards
    its name is that of no file, the record just written apart. *)
Lemma claim_work_deletes clock stamp uid fs d dir i name lock lock' :
  dir !! i = Some (name, lock) →
  intersects fs (files lock) = true →
  is_stale (clock i) (timestamp lock) = true →
  examined clock fs dir i →
  (name, lock') ∈ (claim_work clock stamp uid fs d dir).2 →
  (claim_work clock stamp uid fs d dir).1 = true
  ∧ name = uid ∧ lock' = mk_lock uid fs d stamp.
Proof.
  intros Hl Hi Hs Hex. rewrite claim_work_unfold.
  assert (∀ l, (name, l) ∉ (scan clock fs 0 dir dir).2) as Hgone.
  { intros l [_ Hno]%scan_elem. apply Hno. by exists i, lock. }
  destruct (scan clock fs 0 dir dir).1; simpl.
  - rewrite elem_of_write_lock. intros [?|[_ ?]]; [by simplify_eq|].
    exfalso. by eapply Hgone.
  - intros ?. exfalso. by eapply Hgone.
Qed.

(** After a successful claim the directory holds the new record and,
    besides it, only records that share no file with the claim. *)
Lemma claim_work_survivors clock stamp uid fs d dir e :
  (claim_work clock stamp uid fs d dir).1 = true →
  e ∈ (claim_work clock stamp uid fs d dir).2 →
  e = (uid, mk_lock uid fs d stamp)
  ∨ (e.1 ≠ uid ∧ e ∈ dir ∧ intersects fs (files e.2) = false).
Proof.
  intros Hok. pose proof Hok as Hnb%claim_work_true_iff.
  rewrite claim_work_fst in Hok. rewrite claim_work_unfold, Hok. simpl.
  rewrite elem_of_write_lock. intros [?|[Hne [He Hno]%scan_elem]]; [by left|right].
  split; [done|]. split; [done|].
  destruct (intersects fs (files e.2)) eqn:Hi; [|done].
  exfalso. apply list_elem_of_lookup in He as [i Hl].
  apply Hno. exists i, e.2. destruct e as [n l]; simpl in *.
  split; [done|]. split; [by apply not_blocks_examined|]. split; [done|].
  destruct (is_stale (clock i) (timestamp l)) eqn:Hs; [done|].
  exfalso. apply Hnb. exists i, n, l. by rewrite <- is_stale_false.
Qed.

Lemma claim_work_new_elem clock stamp uid fs d dir :
  (claim_work clock stamp uid fs d dir).1 = true →
  (uid, mk_lock uid fs d stamp) ∈ (claim_work clock stamp uid fs d dir).2.
Proof.
  intros Hok. rewrite claim_work_fst in Hok. rewrite claim_work_unfold, Hok.
  simpl. apply elem_of_write_lock. by left.
Qed.

(** A successful claim writes its record under the caller's uid. *)
Lemma claim_work_writes clock stamp uid fs d dir :
  (claim_work clock stamp uid fs d dir).1 = true →
  read_lock uid (claim_work clock stamp uid fs d dir).2
  = Some (mk_lock uid fs d stamp).
Proof.
  intros Hok. apply read_lock_unique.
  - eexists. by apply claim_work_new_elem.
  - intros l' Hl'. apply claim_work_survivors in Hl' as [?|[? _]]; [|done..].
    by simplify_eq.
Qed.

(** A refused claim writes nothing: the directory only loses files. *)
Lemma claim_work_refused clock stamp uid fs d dir :
  (claim_work clock stamp uid fs d dir).1 = false →
  (claim_work clock stamp uid fs d dir).2 `sublist_of` dir.
Proof.
  intros Hok. rewrite claim_work_fst in Hok. rewrite claim_work_unfold, Hok.
  apply scan_sublist.
Qed.

Lemma wf_claim_work clock stamp uid fs d dir :
  wf_dir dir → wf_dir (claim_work clock stamp uid fs d dir).2.
Proof.
  intros Hwf. rewrite claim_work_unfold.
  pose proof (sublist_wf _ _ (scan_sublist clock fs 0 dir dir) Hwf).
  destruct (scan clock fs 0 dir dir).1; simpl; [by apply wf_write_lock|done].
Qed.

Lemma wf_release_work uid dir : wf_dir dir → wf_dir (release_work uid dir).
Proof.
  unfold release_work. intros Hwf. destruct (exists_lock uid dir); [|done].
  eapply sublist_wf; [apply unlink_sublist|done].
Qed.

Lemma read_lock_unlink n m dir :
  read_lock n (unlink m dir) = if bool_decide (n = m) then None else read_lock n dir.
Proof.
  unfold unlink. induction dir as [|[n' l'] rest IH].
  - simpl. by case_bool_decide.
  - rewrite filter_cons. simpl. destruct (decide (n' ≠ m)) as [Hne|Heq]; simpl.
    + rewrite IH. repeat case_bool_decide; congruence.
    + apply dec_stable in Heq. rewrite IH. repeat case_bool_decide; congruence.
Qed.

Lemma exists_lock_read n dir : exists_lock n dir = false ↔ read_lock n dir = None.
Proof.
  rewrite read_lock_None. split.
  - intros Hex l Hl. assert (exists_lock n dir = true); [|congruence].
    apply exists_lock_true. by exists l.
  - intros Hno. destruct (exists_lock n dir) eqn:Hex; [|done].
    apply exists_lock_true in Hex as [l Hl]. by destruct (Hno l).
Qed.

Lemma elem_of_release_work e uid dir :
  e ∈ release_work uid dir ↔ e.1 ≠ uid ∧ e ∈ dir.
Proof.
  unfold release_work. destruct (exists_lock uid dir) eqn:Hex.
  - apply elem_of_unlink.
  - split; [|by intros [_ ?]]. intros He. split; [|done]. intros <-.
    apply exists_lock_read in Hex. rewrite read_lock_None in Hex.
    apply (Hex e.2). by destruct e.
Qed.

Lemma read_lock_release_work n uid dir :
  read_lock n (release_work uid dir)
  = if bool_decide (n = uid) then None else read_lock n dir.
Proof.
  unfold release_work. destruct (exists_lock uid dir) eqn:Hex.
  - apply read_lock_unlink.
  - case_bool_decide; [|done]. subst. by apply exists_lock_read.
Qed.

Lemma release_work_absent uid dir :
  read_lock uid dir = None → release_work uid dir = dir.
Proof. intros H%exists_lock_read. unfold release_work. by rewrite H. Qed.

Lemma lookup_blocks clock fs dir i name lock :
  dir !! i = Some (name, lock) → intersects fs (files lock) = true →
  (delta_micros (clock i) (timestamp lock) <= 7200 * 1000000)%Z →
  blocks clock fs dir.
Proof. intros. by exists i, name, lock. Qed.

(** After a successful claim of [fs], a claim that shares a file with [fs]
    is refused while the record is not older than 7200 seconds. *)
Lemma claim_after_claim_refused clock stamp uid fs d dir clock2 stamp2 uid2 fs2 d2 :
  (claim_work clock stamp uid fs d dir).1 = true →
  intersects fs2 fs = true →
  (∀ i, delta_micros (clock2 i) stamp <= 7200 * 1000000)%Z →
  (claim_work clock2 stamp2 uid2 fs2 d2 (claim_work clock stamp uid fs d dir).2).1
  = false.
Proof.
  intros Hok Hi Hfresh. apply claim_work_false_iff.
  apply claim_work_new_elem in Hok. apply list_elem_of_lookup in Hok as [i Hl].
  eapply lookup_blocks; [exact Hl|done|apply Hfresh].
Qed.

(** ... and is accepted once the record is older, when no other record
    blocks it. *)
Lemma claim_after_expiry_accepted clock stamp uid fs d dir clock2 stamp2 uid2 fs2 d2 :
  (claim_work clock stamp uid fs d dir).1 = true →
  (∀ i, 7200 * 1000000 < delta_micros (clock2 i) stamp)%Z →
  (∀ i name lock,
     (claim_work clock stamp uid fs d dir).2 !! i = Some (name, lock) →
     name ≠ uid → intersects fs2 (files lock) = true →
     (7200 * 1000000 < delta_micros (clock2 i) (timestamp lock))%Z) →
  (claim_work clock2 stamp2 uid2 fs2 d2 (claim_work clock stamp uid fs d dir).2).1
  = true.
Proof.
  intros Hok Hold Hothers. apply claim_work_true_iff.
  intros (i & name & lock & Hl & Hi & Hfresh).
  pose proof (list_elem_of_lookup_2 _ _ _ Hl) as He.
  apply claim_work_survivors in He as [Heq|(Hne & _ & _)]; [| |done].
  - simplify_eq. simpl in *. specialize (Hold i). lia.
  - simpl in Hne. specialize (Hothers i name lock Hl Hne Hi). lia.
Qed.

(** Claims on disjoint file sets are both accepted when no recorded claim
    blocks either. *)
Lemma disjoint_claims_accepted clock stamp uid fs d dir clock2 stamp2 uid2 fs2 d2 :
  intersects fs2 fs = false →
  ¬ blocks clock fs dir →
  (∀ i name lock, (name, lock) ∈ dir → intersects fs2 (files lock) = true →
     (7200 * 1000000 < delta_micros (clock2 i) (timestamp lock))%Z) →
  (claim_work clock stamp uid fs d dir).1 = true
  ∧ (claim_work clock2 stamp2 uid2 fs2 d2 (claim_work clock stamp uid fs d dir).2).1
    = true.
Proof.
  intros Hdisj Hnb Hfree.
  assert ((claim_work clock stamp uid fs d dir).1 = true) as Hok
    by by apply claim_work_true_iff.
  split; [done|]. apply claim_work_true_iff.
  intros (i & name & lock & Hl & Hi & Hfresh).
  pose proof (list_elem_of_lookup_2 _ _ _ Hl) as He.
  apply claim_work_survivors in He as [Heq|(_ & Hin & _)]; [| |done].
  - simplify_eq. simpl in *. congruence.
  - specialize (Hfree i name lock Hin Hi). lia.
Qed.

(** A claim on the files of a claim that was accepted and then released is
    accepted. *)
Lemma claim_after_release_accepted clock stamp uid fs d dir clock2 stamp2 uid2 d2 :
  (claim_work clock stamp uid fs d dir).1 = true →
  (claim_work clock2 stamp2 uid2 fs d2
     (release_work uid (claim_work clock stamp uid fs d dir).2)).1 = true.
Proof.
  intros Hok. apply claim_work_true_iff.
  intros (i & name & lock & Hl & Hi & Hfresh).
  pose proof (list_elem_of_lookup_2 _ _ _ Hl) as [Hne He]%elem_of_release_work.
  apply claim_work_survivors in He as [Heq|(_ & _ & Hno)]; [| |done].
  - by simplify_eq.
  - simpl in Hno. congruence.
Qed.

Lemma filter_all {A} (P : A → Prop) `{∀ x, Decision (P x)} (l : list A) :
  (∀ x, x ∈ l → P x) → filter P l = l.
Proof.
  induction l as [|x l IH]; intros Hall; [done|].
  rewrite filter_cons_True by (apply Hall; left).
  f_equal. apply IH. intros y Hy. apply Hall. by right.
Qed.

(** The directory a scan leaves when it ends in [return False]: the scan
    stops at the first listed record that intersects and is not stale, and
    what it has unlinked by then are the names of the intersecting records
    listed before that one. *)
Lemma scan_false_exact clock fs listing dir :
  (scan clock fs 0 listing dir).1 = false →
  ∃ i0 name0 lock0,
    listing !! i0 = Some (name0, lock0)
    ∧ intersects fs (files lock0) = true
    ∧ is_stale (clock i0) (timestamp lock0) = false
    ∧ examined clock fs listing i0
    ∧ (scan clock fs 0 listing dir).2
      = filter (λ e, e.1 ∉ intersecting_names fs (take i0 listing)) dir.
Proof.
  revert clock dir.
  induction listing as [|[n l] rest IH]; intros clock dir; cbn [scan]; [done|].
  destruct (intersects fs (files l)) eqn:Hi;
    [destruct (is_stale (clock 0%nat) (timestamp l)) eqn:Hs|].
  - rewrite scan_shift. intros Hf.
    destruct (IH _ _ Hf) as (i0 & name0 & lock0 & Hl & Hint & Hst & Hex & Heq).
    exists (S i0), name0, lock0. split_and!; [done..| |].
    + apply examined_cons. by split.
    + rewrite Heq. unfold unlink. rewrite list_filter_filter.
      apply list_filter_iff. intros e. cbn [take].
      unfold intersecting_names.
      rewrite filter_cons_True by done. cbn [fmap list_fmap fst].
      rewrite not_elem_of_cons. tauto.
  - intros _. exists 0%nat, n, l. split_and!; [done..|apply examined_0|].
    cbn [take fst snd]. symmetry. apply filter_all.
    intros e _. apply not_elem_of_nil.
  - rewrite scan_shift. intros Hf.
    destruct (IH _ _ Hf) as (i0 & name0 & lock0 & Hl & Hint & Hst & Hex & Heq).
    exists (S i0), name0, lock0. split_and!; [done..| |].
    + apply examined_cons. split; [congruence|done].
    + rewrite Heq. apply list_filter_iff. intros e. cbn [take].
      unfold intersecting_names.
      rewrite filter_cons_False by (cbn; congruence). done.
Qed.

Lemma wf_dir_name_inj dir e e' :
  wf_dir dir → e ∈ dir → e' ∈ dir → e.1 = e'.1 → e = e'.
Proof.
  unfold wf_dir. intros Hwf [i Hi]%list_elem_of_lookup [j Hj]%list_elem_of_lookup Heq.
  assert (i = j) as ->; [|congruence].
  eapply NoDup_lookup; [exact Hwf|..]; rewrite list_lookup_fmap.
  - by rewrite Hi.
  - rewrite Hj. simpl. by rewrite Heq.
Qed.

Lemma filter_ext_elem {A} (P Q : A → Prop) `{∀ x, Decision (P x)}
    `{∀ x, Decision (Q x)} (l : list A) :
  (∀ x, x ∈ l → P x ↔ Q x) → filter P l = filter Q l.
Proof.
  induction l as [|x l IH]; intros Hall; [done|].
  rewrite !filter_cons.
  rewrite IH by (intros y Hy; apply Hall; by right).
  destruct (decide (P x)) as [HP|HP], (decide (Q x)) as [HQ|HQ]; try done;
    exfalso; apply (Hall x) in HP || apply (Hall x) in HQ; done || by left.
Qed.

(** In a directory whose names are distinct, unlinking the names of the
    intersecting records listed before [i] removes those records and no
    other. *)
Lemma filter_intersecting_before fs dir i :
  wf_dir dir →
  filter (λ e, e.1 ∉ intersecting_names fs (take i dir)) dir
  = filter (λ e, intersects fs (files e.2) = false) (take i dir) ++ drop i dir.
Proof.
  intros Hwf. set (D := intersecting_names fs (take i dir)).
  rewrite <- (take_drop i dir) at 1. rewrite filter_app.
  pose proof Hwf as Hsplit. unfold wf_dir in Hsplit.
  rewrite <- (take_drop i dir), fmap_app in Hsplit.
  apply NoDup_app in Hsplit as (_ & Hdisj & _).
  assert (∀ n, n ∈ D → n ∈ fst <$> take i dir) as HD.
  { unfold D, intersecting_names.
    intros n (e & -> & [_ He]%list_elem_of_filter)%list_elem_of_fmap.
    apply list_elem_of_fmap. by exists e. }
  f_equal.
  - apply filter_ext_elem. intros e He. split.
    + intros Hno. destruct (intersects fs (files e.2)) eqn:Hi; [|done].
      exfalso. apply Hno. unfold D, intersecting_names.
      apply list_elem_of_fmap. exists e. split; [done|].
      by apply list_elem_of_filter.
    + unfold D, intersecting_names.
      intros Hi (e' & Heq & [Hi' He']%list_elem_of_filter)%list_elem_of_fmap.
      assert (e = e') as <-; [|congruence].
      apply (wf_dir_name_inj dir); [done| | |done];
        (eapply elem_of_sublist; [eassumption|apply sublist_take]).
  - apply filter_all. intros e He Hin. apply HD in Hin.
    apply (Hdisj _ Hin). apply list_elem_of_fmap. by exists e.
Qed.

(** The directory a scan leaves when it runs to the end: every listed
    record that intersects was stale and has been unlinked. *)
Lemma scan_true_exact clock fs listing dir :
  (scan clock fs 0 listing dir).1 = true →
  (scan clock fs 0 listing dir).2
  = filter (λ e, e.1 ∉ intersecting_names fs listing) dir.
Proof.
  revert clock dir.
  induction listing as [|[n l] rest IH]; intros clock dir; cbn [scan].
  - intros _. symmetry. apply filter_all. intros e _. apply not_elem_of_nil.
  - unfold intersecting_names.
    destruct (intersects fs (files l)) eqn:Hi;
      [destruct (is_stale (clock 0%nat) (timestamp l)) eqn:Hs|].
    + rewrite scan_shift. intros Hf. rewrite (IH _ _ Hf).
      unfold unlink. rewrite list_filter_filter.
      apply list_filter_iff. intros e.
      rewrite filter_cons_True by done. cbn [fmap list_fmap fst].
      rewrite not_elem_of_cons. unfold intersecting_names. tauto.
    + done.
    + rewrite scan_shift. intros Hf. rewrite (IH _ _ Hf).
      apply list_filter_iff. intros e.
      rewrite filter_cons_False by (cbn; congruence). done.
Qed.

(** What a refused call leaves: the scan has stopped at the first record
    that blocks, the intersecting records listed before it are unlinked and
    every other file is where it was. *)
Lemma claim_work_stops clock stamp uid fs d dir :
  (claim_work clock stamp uid fs d dir).1 = false →
  ∃ i0 name0 lock0,
    dir !! i0 = Some (name0, lock0)
    ∧ intersects fs (files lock0) = true
    ∧ (delta_micros (clock i0) (timestamp lock0) <= 7200 * 1000000)%Z
    ∧ examined clock fs dir i0
    ∧ (claim_work clock stamp uid fs d dir).2
      = filter (λ e, e.1 ∉ intersecting_names fs (take i0 dir)) dir
    ∧ (wf_dir dir →
         (claim_work clock stamp uid fs d dir).2
         = filter (λ e, intersects fs (files e.2) = false) (take i0 dir)
           ++ drop i0 dir)
    ∧ (wf_dir dir → ∀ j e, i0 ≤ j → dir !! j = Some e →
         e ∈ (claim_work clock stamp uid fs d dir).2).
Proof.
  intros Hr. pose proof Hr as Hs. rewrite claim_work_fst in Hs.
  destruct (scan_false_exact _ _ _ _ Hs)
    as (i0 & name0 & lock0 & Hl & Hi & Hst & Hex & Heq).
  assert ((claim_work clock stamp uid fs d dir).2
          = filter (λ e, e.1 ∉ intersecting_names fs (take i0 dir)) dir) as Hdir.
  { rewrite claim_work_unfold, Hs. exact Heq. }
  exists i0, name0, lock0. split_and!; [done|done|by apply is_stale_false|done|done| |].
  - intros Hwf. rewrite Hdir. by apply filter_intersecting_before.
  - intros Hwf j e Hj He. rewrite Hdir, filter_intersecting_before by done.
    apply elem_of_app. right. apply list_elem_of_lookup.
    exists (j - i0). rewrite lookup_drop. by replace (i0 + (j - i0)) with j by lia.
Qed.

(** What an accepted call leaves: every intersecting record is unlinked,
    every other file is where it was, and the new record is written. *)
Lemma claim_work_accepts clock stamp uid fs d dir :
  (claim_work clock stamp uid fs d dir).1 = true →
  (claim_work clock stamp uid fs d dir).2
  = write_lock uid (mk_lock uid fs d stamp)
      (filter (λ e, e.1 ∉ intersecting_names fs dir) dir).
Proof.
  intros Hr. rewrite claim_work_fst in Hr.
  rewrite claim_work_unfold, Hr. cbn [snd]. f_equal.
  by apply scan_true_exact.
Qed.

(** C1, as the code has it. For every call of [claim_work] on any
    directory of recorded claims: the call answers [False] exactly when some
    recorded claim that shares a file with [fs] is at most 7200 seconds old
    when examined; every intersecting claim older than 7200 seconds that the
    scan gets to (all of them when the call answers [True]) is deleted. The
    scan stops at the first intersecting claim that is not stale: a refused
    call has unlinked the names of the intersecting claims listed before
    that one and nothing else, so that, the names of a directory being
    distinct, every claim listed from there on stays, stale or not, and
    nothing is written. An accepted call has unlinked the names of all
    intersecting claims and written the record (owner, files, description,
    timestamp) under [uid]. In particular, after an accepted claim of [fs] a
    claim sharing a file with it is refused while the record is at most 7200
    seconds old, and accepted once it is older when no other record blocks;
    claims on disjoint file sets are both accepted when no recorded claim
    blocks either. *)
Theorem claim_work_spec :
  ∀ clock stamp uid fs d dir,
    let r := claim_work clock stamp uid fs d dir in
    let new := mk_lock uid fs d stamp in
    (r.1 = false ↔ blocks clock fs dir)
    ∧ (∀ i name lock lock',
         dir !! i = Some (name, lock) →
         intersects fs (files lock) = true →
         (7200 * 1000000 < delta_micros (clock i) (timestamp lock))%Z →
         examined clock fs dir i →
         (name, lock') ∈ r.2 → r.1 = true ∧ name = uid ∧ lock' = new)
    ∧ (r.1 = true →
         read_lock uid r.2 = Some new
         ∧ r.2 = write_lock uid new
                   (filter (λ e, e.1 ∉ intersecting_names fs dir) dir)
         ∧ ∀ name lock lock',
             (name, lock) ∈ dir → intersects fs (files lock) = true →
             (name, lock') ∈ r.2 → name = uid ∧ lock' = new)
    ∧ (r.1 = false → r.2 `sublist_of` dir)
    ∧ (r.1 = false →
         ∃ i0 name0 lock0,
           dir !! i0 = Some (name0, lock0)
           ∧ intersects fs (files lock0) = true
           ∧ (delta_micros (clock i0) (timestamp lock0) <= 7200 * 1000000)%Z
           ∧ examined clock fs dir i0
           ∧ r.2 = filter (λ e, e.1 ∉ intersecting_names fs (take i0 dir)) dir
           ∧ (wf_dir dir →
                r.2 = filter (λ e, intersects fs (files e.2) = false)
                             (take i0 dir)
                      ++ drop i0 dir)
           ∧ (wf_dir dir → ∀ j e, i0 ≤ j → dir !! j = Some e → e ∈ r.2))
    ∧ (r.1 = true → ∀ clock2 stamp2 uid2 fs2 d2,
         intersects fs2 fs = true →
         (∀ i, delta_micros (clock2 i) stamp <= 7200 * 1000000)%Z →
         (claim_work clock2 stamp2 uid2 fs2 d2 r.2).1 = false)
    ∧ (r.1 = true → ∀ clock2 stamp2 uid2 fs2 d2,
         (∀ i, 7200 * 1000000 < delta_micros (clock2 i) stamp)%Z →
         (∀ i name lock, r.2 !! i = Some (name, lock) → name ≠ uid →
            intersects fs2 (files lock) = true →
            (7200 * 1000000 < delta_micros (clock2 i) (timestamp lock))%Z) →
         (claim_work clock2 stamp2 uid2 fs2 d2 r.2).1 = true)
    ∧ (∀ clock2 stamp2 uid2 fs2 d2,
         intersects fs2 fs = false →
         ¬ blocks clock fs dir →
         (∀ i name lock, (name, lock) ∈ dir →
            intersects fs2 (files lock) = true →
            (7200 * 1000000 < delta_micros (clock2 i) (timestamp lock))%Z) →
         r.1 = true ∧ (claim_work clock2 stamp2 uid2 fs2 d2 r.2).1 = true).
Proof.
  intros clock stamp uid fs d dir r new. subst r new.
  split; [apply claim_work_false_iff|].
  split.
  { intros i name lock lock' Hl Hi Hs%is_stale_true Hex He.
    by eapply claim_work_deletes. }
  split.
  { intros Hok. split; [by apply claim_work_writes|].
    split; [by apply claim_work_accepts|].
    intros name lock lock' [i Hl]%list_elem_of_lookup Hi He.
    pose proof Hok as Hnb%claim_work_true_iff.
    destruct (is_stale (clock i) (timestamp lock)) eqn:Hs.
    - eapply claim_work_deletes in He as (_ & ? & ?);
        [done|done|done|done|by apply not_blocks_examined].
    - exfalso. apply Hnb. exists i, name, lock. by rewrite <- is_stale_false. }
  split; [apply claim_work_refused|].
  split; [apply claim_work_stops|].
  split; [intros; by apply claim_after_claim_refused|].
  split; [intros; by apply claim_after_expiry_accepted|].
  intros. by apply disjoint_claims_accepted.
Qed.

(** C1 at concrete directories: [agent_b] holds a stale claim on
    [src/b.py]; at noon [agent_c] claims that file. And with a live claim of
    [agent_a] listed before it, the claim of [agent_c] on both files is
    refused and the stale claim of [agent_b] stays. *)
Lemma claim_work_spec_witness :
  let dir := [(agent_b, mk_lock agent_b [b_py] (py "B") nine)] in
  let r := claim_work (λ _, noon) noon agent_c [b_py] (py "C") dir in
  let lock_a := mk_lock agent_a [a_py] (py "A") eleven in
  let lock_b := mk_lock agent_b [b_py] (py "B") nine in
  let dir2 := [(agent_a, lock_a); (agent_b, lock_b)] in
  let r2 := claim_work (λ _, noon) noon agent_c [a_py; b_py] (py "C") dir2 in
  r.1 = true
  ∧ read_lock agent_c r.2 = Some (mk_lock agent_c [b_py] (py "C") noon)
  ∧ (∀ lock', (agent_b, lock') ∉ r.2)
  ∧ (claim_work (λ _, noon) noon agent_a [b_py; a_py] (py "A") r.2).1 = false
  ∧ (claim_work (λ _, noon) noon agent_a [a_py] (py "A") r.2).1 = true
  ∧ r2.1 = false
  ∧ (agent_b, lock_b) ∈ r2.2.
Proof.
  intros dir r lock_a lock_b dir2 r2.
  destruct (claim_work_spec (λ _, noon) noon agent_c [b_py] (py "C") dir)
    as (_ & Hdel & Hok & _ & _ & Hrefuse & _ & Hdisj).
  destruct (claim_work_spec (λ _, noon) noon agent_c [a_py; b_py] (py "C") dir2)
    as (_ & _ & _ & _ & Hstop & _).
  assert (r.1 = true) as Hr by reflexivity.
  assert (r2.1 = false) as Hr2 by reflexivity.
  split; [exact Hr|].
  split; [apply Hok, Hr|].
  split.
  { intros lock' Hin.
    destruct (Hdel 0%nat agent_b (mk_lock agent_b [b_py] (py "B") nine) lock')
      as (_ & Hne & _); [reflexivity|reflexivity|reflexivity| |exact Hin|].
    - intros j n l Hj. lia.
    - discriminate Hne. }
  split.
  { apply Hrefuse; [exact Hr|reflexivity|]. intros i. vm_compute. discriminate. }
  split.
  { apply (Hdisj (λ _, noon) noon agent_a [a_py] (py "A")).
    - reflexivity.
    - intros (i & n & l & Hl & Hi & Hfresh). destruct i as [|[|i]]; simpl in Hl;
        [|discriminate..]. injection Hl as <- <-. vm_compute in Hfresh. by apply Hfresh.
    - intros i n l Hin Hi. apply list_elem_of_singleton in Hin. injection Hin as -> ->.
      vm_compute in Hi. discriminate Hi. }
  split; [exact Hr2|].
  destruct (Hstop Hr2) as (i0 & name0 & lock0 & Hl & _ & _ & Hex & _ & _ & Hstay).
  assert (i0 = 0) as ->.
  { destruct i0 as [|i0]; [done|]. exfalso.
    assert (is_stale noon (timestamp lock_a) = true) as Hs; [|by vm_compute in Hs].
    apply (Hex 0 agent_a lock_a); [lia|reflexivity|reflexivity]. }
  assert (wf_dir dir2) as Hwf
    by (apply (bool_decide_unpack _); vm_compute; exact I).
  apply (Hstay Hwf 1); [lia|reflexivity].
Defined.

(** C1 fails as stated: a refused call leaves a stale intersecting record
    in place ([agent_a]'s live claim is listed first, the scan stops there
    and never gets to [agent_b]'s stale one); and a claim is still refused
    after the older claim has expired when a third record blocks it. *)
Lemma claim_work_refusal_keeps_stale :
  let lock_a := mk_lock agent_a [a_py] (py "A") eleven in
  let lock_b := mk_lock agent_b [b_py] (py "B") nine in
  let dir := [(agent_a, lock_a); (agent_b, lock_b)] in
  let r := claim_work (λ _, noon) noon agent_c [a_py; b_py] (py "C") dir in
  (r.1 = false
   ∧ intersects [a_py; b_py] (files lock_b) = true
   ∧ (7200 * 1000000 < delta_micros noon (timestamp lock_b))%Z
   ∧ read_lock agent_b r.2 = Some lock_b)
  ∧ (let r1 := claim_work (λ _, nine) nine agent_a [a_py] (py "A") [] in
     let r2 := claim_work (λ _, eleven) eleven agent_b [b_py] (py "B") r1.2 in
     let r3 := claim_work (λ _, noon) noon agent_c [a_py; b_py] (py "C") r2.2 in
     r1.1 = true ∧ r2.1 = true
     ∧ intersects [a_py; b_py] [a_py] = true
     ∧ (7200 * 1000000 < delta_micros noon nine)%Z
     ∧ r3.1 = false).
Proof. vm_compute. repeat split; congruence. Qed.

(** C7. [release_work(uid)] deletes the record of [uid] when there is one
    and touches no other record; when there is none the directory is left as
    it was, so a second call changes nothing; and once the holder of an
    accepted claim has released it, a claim on the same files by any uid is
    accepted at once. *)
Theorem release_work_spec :
  ∀ uid dir,
    read_lock uid (release_work uid dir) = None
    ∧ (∀ n, n ≠ uid → read_lock n (release_work uid dir) = read_lock n dir)
    ∧ (∀ e, e ∈ release_work uid dir ↔ e.1 ≠ uid ∧ e ∈ dir)
    ∧ (read_lock uid dir = None → release_work uid dir = dir)
    ∧ release_work uid (release_work uid dir) = release_work uid dir
    ∧ (∀ clock stamp fs d clock2 stamp2 uid2 d2,
         (claim_work clock stamp uid fs d dir).1 = true →
         (claim_work clock2 stamp2 uid2 fs d2
            (release_work uid (claim_work clock stamp uid fs d dir).2)).1 = true).
Proof.
  intros uid dir.
  assert (read_lock uid (release_work uid dir) = None) as Hgone.
  { rewrite read_lock_release_work. by rewrite bool_decide_eq_true_2. }
  split; [exact Hgone|].
  split.
  { intros n Hn. rewrite read_lock_release_work. by rewrite bool_decide_eq_false_2. }
  split; [intros e; apply elem_of_release_work|].
  split; [apply release_work_absent|].
  split; [by apply release_work_absent|].
  intros. by apply claim_after_release_accepted.
Qed.

(** C7 at a concrete directory: [agent_a] claims [src/a.py] at nine and
    releases it; [agent_b] claims the same file right away. *)
Lemma release_work_spec_witness :
  let r := claim_work (λ _, nine) nine agent_a [a_py] (py "A") [] in
  r.1 = true
  ∧ (claim_work (λ _, nine) nine agent_b [a_py] (py "B") r.2).1 = false
  ∧ (claim_work (λ _, nine) nine agent_b [a_py] (py "B")
       (release_work agent_a r.2)).1 = true
  ∧ release_work agent_b [] = [].
Proof.
  intros r.
  destruct (release_work_spec agent_a []) as (_ & _ & _ & _ & _ & Hclaim).
  destruct (release_work_spec agent_b []) as (_ & _ & _ & Habsent & _).
  split; [reflexivity|]. split; [reflexivity|].
  split; [apply Hclaim; reflexivity|apply Habsent; reflexivity].
Defined.

(** C10, as the code has it. The directory holds at most one record per
    uid, and [claim_work] and [release_work] keep it so. When the same uid
    makes two accepted claims in a row, the second record replaces the
    first: afterwards a file of the first claim is listed by no record
    other than the new one, so every file of the first claim that the second
    does not list again is claimed by nobody, without any [release_work];
    and when the first record is still within its 7200 seconds, the second
    claim is only accepted if it shares no file with the first, so then no
    file of the first claim is claimed at all. *)
Theorem reclaim_overwrites :
  ∀ clock1 stamp1 uid fs1 d1 clock2 stamp2 fs2 d2 dir,
    let r1 := claim_work clock1 stamp1 uid fs1 d1 dir in
    let r2 := claim_work clock2 stamp2 uid fs2 d2 r1.2 in
    (wf_dir dir → wf_dir r1.2 ∧ wf_dir r2.2
                  ∧ ∀ u, wf_dir (release_work u r2.2))
    ∧ (r1.1 = true → r2.1 = true →
       read_lock uid r2.2 = Some (mk_lock uid fs2 d2 stamp2)
       ∧ (∀ l, (uid, l) ∈ r2.2 → l = mk_lock uid fs2 d2 stamp2)
       ∧ (∀ f name lock, f ∈ fs1 → (name, lock) ∈ r2.2 → f ∈ files lock →
            name = uid ∧ lock = mk_lock uid fs2 d2 stamp2)
       ∧ (∀ f, f ∈ fs1 → f ∉ fs2 → ¬ claimed f r2.2)
       ∧ ((∀ i, delta_micros (clock2 i) stamp1 <= 7200 * 1000000)%Z →
            intersects fs2 fs1 = false ∧ ∀ f, f ∈ fs1 → ¬ claimed f r2.2)).
Proof.
  intros clock1 stamp1 uid fs1 d1 clock2 stamp2 fs2 d2 dir r1 r2. subst r1 r2.
  split.
  { intros Hwf. pose proof (wf_claim_work clock1 stamp1 uid fs1 d1 _ Hwf) as H1.
    pose proof (wf_claim_work clock2 stamp2 uid fs2 d2 _ H1) as H2.
    split; [done|]. split; [done|]. intros u. by apply wf_release_work. }
  intros Hok1 Hok2.
  assert (∀ f name lock, f ∈ fs1 →
    (name, lock) ∈ (claim_work clock2 stamp2 uid fs2 d2
                      (claim_work clock1 stamp1 uid fs1 d1 dir).2).2 →
    f ∈ files lock → name = uid ∧ lock = mk_lock uid fs2 d2 stamp2) as Honly.
  { intros f name lock Hf He Hfl.
    apply claim_work_survivors in He as [Heq|(Hne & He & _)]; [| |done].
    - by simplify_eq.
    - exfalso. simpl in Hne.
      apply claim_work_survivors in He as [Heq|(_ & _ & Hno)]; [| |done].
      + by simplify_eq.
      + simpl in Hno. assert (intersects fs1 (files lock) = true); [|congruence].
        apply intersects_spec. by exists f. }
  split; [by apply claim_work_writes|].
  split.
  { intros l Hl. apply claim_work_survivors in Hl as [?|[? _]]; [| |done].
    - by simplify_eq.
    - done. }
  split; [exact Honly|].
  split.
  { intros f Hf Hnf (name & lock & He & Hfl).
    destruct (Honly f name lock Hf He Hfl) as [_ ->]. done. }
  intros Hfresh.
  assert (intersects fs2 fs1 = false) as Hdisj.
  { destruct (intersects fs2 fs1) eqn:Hi; [|done].
    pose proof (claim_after_claim_refused clock1 stamp1 uid fs1 d1 dir
                  clock2 stamp2 uid fs2 d2 Hok1 Hi Hfresh). congruence. }
  split; [done|].
  intros f Hf (name & lock & He & Hfl).
  destruct (Honly f name lock Hf He Hfl) as [_ ->]. simpl in Hfl.
  assert (intersects fs2 fs1 = true); [|congruence].
  apply intersects_spec. by exists f.
Qed.

(** C10 at a concrete directory: [agent_a] claims [src/a.py] at nine and
    [src/b.py] at eleven; [src/a.py] is then free for [agent_b]. *)
Lemma reclaim_overwrites_witness :
  let r1 := claim_work (λ _, nine) nine agent_a [a_py] (py "A") [] in
  let r2 := claim_work (λ _, eleven) eleven agent_a [b_py] (py "A2") r1.2 in
  wf_dir r2.2
  ∧ read_lock agent_a r2.2 = Some (mk_lock agent_a [b_py] (py "A2") eleven)
  ∧ ¬ claimed a_py r2.2.
Proof.
  intros r1 r2.
  destruct (reclaim_overwrites (λ _, nine) nine agent_a [a_py] (py "A")
              (λ _, eleven) eleven [b_py] (py "A2") [])
    as [Hwf (Hread & _ & _ & Hfree & _)]; [reflexivity|reflexivity|].
  split; [apply Hwf; apply NoDup_nil_2|].
  split; [exact Hread|].
  apply Hfree; [apply list_elem_of_singleton; reflexivity|].
  intros Hin%list_elem_of_singleton. vm_compute in Hin. discriminate Hin.
Defined.

(** C10 fails as stated: [agent_a] claims [src/a.py] at nine and again at
    noon, when its own record has gone stale; both claims are accepted and
    the file of the earlier claim is still claimed afterwards. *)
Lemma reclaim_keeps_file_claimed :
  let r1 := claim_work (λ _, nine) nine agent_a [a_py] (py "A") [] in
  let r2 := claim_work (λ _, noon) noon agent_a [a_py] (py "A") r1.2 in
  r1.1 = true ∧ r2.1 = true ∧ a_py ∈ [a_py] ∧ claimed a_py r2.2.
Proof.
  intros r1 r2. split; [reflexivity|]. split; [reflexivity|].
  split; [apply list_elem_of_singleton; reflexivity|].
  exists agent_a, (mk_lock agent_a [a_py] (py "A") noon).
  split; apply list_elem_of_singleton; reflexivity.
Qed.

End CoordinationFacts.

(** ** The registry of active agents *)

Module RegistryFacts.
Import Coordination.

(** The digest on the test suite of RFC 1321: the empty message, a short
    one, and one of two blocks. *)
Example md5_empty :
  Md5.hexdigest (encode (py "")) = py "d41d8cd98f00b204e9800998ecf8427e".
Proof. vm_compute. reflexivity. Qed.

Example md5_abc :
  Md5.hexdigest (encode (py "abc")) = py "900150983cd24fb0d6963f7d28e17f72".
Proof. vm_compute. reflexivity. Qed.

Example md5_digits :
  Md5.hexdigest (encode (py "12345678901234567890123456789012345678901234567890123456789012345678901234567890"))
  = py "57edf4a22be3c955ac49da2e2107b67a".
Proof. vm_compute. reflexivity. Qed.

Lemma length_le_bytes k n : length (Md5.le_bytes k n) = k.
Proof. revert n. induction k as [|k IH]; intros n; simpl; [done|]. by rewrite IH. Qed.

Lemma length_bind_hex_byte l : length (l ≫= Md5.hex_byte) = 2 * length l.
Proof.
  induction l as [|b l IH]; [done|].
  rewrite bind_cons, length_app, IH. simpl. lia.
Qed.

(** A digest prints as 32 characters. *)
Lemma length_hexdigest msg : length (Md5.hexdigest msg) = 32.
Proof.
  unfold Md5.hexdigest, Md5.digest. rewrite length_bind_hex_byte.
  rewrite !length_app, !length_le_bytes. done.
Qed.

Lemma length_random_suffix agent_id time_repr :
  length (random_suffix agent_id time_repr) = 4.
Proof. unfold random_suffix. rewrite length_take, length_hexdigest. done. Qed.

Lemma hex_byte_is_hex b : (b < 256)%N → forallb Md5.is_hex (Md5.hex_byte b) = true.
Proof.
  intros Hb.
  assert (forallb (λ n, forallb Md5.is_hex (Md5.hex_byte (N.of_nat n))) (seq 0 256)
          = true) as Hall by (vm_compute; reflexivity).
  rewrite forallb_forall in Hall.
  specialize (Hall (N.to_nat b)). rewrite N2Nat.id in Hall.
  apply Hall, in_seq. lia.
Qed.

Lemma le_bytes_bound k n : Forall (λ b, (b < 256)%N) (Md5.le_bytes k n).
Proof.
  revert n. induction k as [|k IH]; intros n; simpl; constructor; [|apply IH].
  change 255%N with (N.ones 8). rewrite N.land_ones. by apply N.mod_lt.
Qed.

Lemma hexdigest_is_hex msg : forallb Md5.is_hex (Md5.hexdigest msg) = true.
Proof.
  unfold Md5.hexdigest, Md5.digest.
  set (st := Md5.run _ _ _).
  assert (Forall (λ b, (b < 256)%N)
            (Md5.le_bytes 4 (Md5.sA st) ++ Md5.le_bytes 4 (Md5.sB st)
             ++ Md5.le_bytes 4 (Md5.sC st) ++ Md5.le_bytes 4 (Md5.sD st))) as Hb.
  { rewrite !Forall_app. repeat split; apply le_bytes_bound. }
  induction Hb as [|b l Hb _ IH]; [done|].
  rewrite bind_cons, forallb_app, IH, hex_byte_is_hex; done.
Qed.

Lemma forallb_take {A} (p : A → bool) n l :
  forallb p l = true → forallb p (take n l) = true.
Proof.
  revert n. induction l as [|x l IH]; intros [|n]; simpl; try done.
  intros [-> Hl]%andb_true_iff. simpl. by apply IH.
Qed.

Lemma random_suffix_is_hex agent_id time_repr :
  forallb Md5.is_hex (random_suffix agent_id time_repr) = true.
Proof. apply forallb_take, hexdigest_is_hex. Qed.

(** Two uids are equal when their time parts and their suffixes are. *)
Lemma unique_id_eq_iff id1 now1 t1 id2 now2 t2 :
  unique_id id1 now1 t1 = unique_id id2 now2 t2 ↔
  strftime_Ymd_HMS now1 = strftime_Ymd_HMS now2
  ∧ random_suffix id1 t1 = random_suffix id2 t2.
Proof.
  unfold unique_id. split; [|by intros [-> ->]].
  intros H. apply app_inv_head in H.
  rewrite !(assoc_L (++)) in H.
  apply app_inj_2 in H as [H ?]; [|by rewrite !length_random_suffix].
  apply app_inj_2 in H as [? _]; done.
Qed.

Lemma register_agent_uid file agent_id now tr now' u file' :
  register_agent file agent_id now tr now' = Ok (u, file') →
  u = unique_id agent_id now tr.
Proof.
  unfold register_agent. destruct (load_agents file) as [[agents|]|]; try done.
  by intros [= <- _].
Qed.

(** C4, as the code has it. [register_agent] succeeds exactly when the
    registry file is absent or holds a JSON object. An absent file is taken
    as the empty registry; the uid is generated, [{agent_id, started,
    status: active}] is recorded under it next to the registrations already
    there, and the uid is returned. When the file exists and cannot be read
    or parsed, or holds JSON that is not an object, the call raises; it has
    then written nothing. *)
Theorem register_agent_spec :
  ∀ file agent_id now tr now',
    let uid := unique_id agent_id now tr in
    let entry := mk_entry agent_id now' (py "active") in
    (file = Missing →
       register_agent file agent_id now tr now'
       = Ok (uid, Json (JObject {[uid := entry]})))
    ∧ (∀ agents, file = Json (JObject agents) →
         ∃ agents',
           register_agent file agent_id now tr now'
           = Ok (uid, Json (JObject agents'))
           ∧ agents' !! uid = Some entry
           ∧ ∀ k, k ≠ uid → agents' !! k = agents !! k)
    ∧ (file = Unreadable ∨ file = Corrupt ∨ file = Json JOther →
         ∃ e, register_agent file agent_id now tr now' = Raise e)
    ∧ ((∃ r, register_agent file agent_id now tr now' = Ok r)
       ↔ file = Missing ∨ ∃ agents, file = Json (JObject agents)).
Proof.
  intros file agent_id now tr now' uid entry.
  split; [by intros ->|].
  split.
  { intros agents ->. eexists. split; [reflexivity|].
    split; [by rewrite lookup_insert_eq|].
    intros k Hk. by rewrite lookup_insert_ne. }
  split.
  { intros [->|[->| ->]]; by eexists. }
  split.
  - intros [r Hr]. destruct file as [| | |[agents|]]; try done; eauto.
  - intros [->|[agents ->]]; by eexists.
Qed.

(** C4 on the registry a fresh coordinator writes, and on an absent one. *)
Lemma register_agent_spec_witness :
  register_agent Missing 0 nine (py "1735722000.5") nine
  = Ok (unique_id 0 nine (py "1735722000.5"),
        Json (JObject {[unique_id 0 nine (py "1735722000.5")
                        := mk_entry 0 nine (py "active")]}))
  ∧ ∃ agents',
      register_agent (Json (JObject ∅)) 1 nine (py "1735722000.75") nine
      = Ok (unique_id 1 nine (py "1735722000.75"), Json (JObject agents')).
Proof.
  destruct (register_agent_spec Missing 0 nine (py "1735722000.5") nine)
    as (Hmissing & _).
  destruct (register_agent_spec (Json (JObject ∅)) 1 nine
              (py "1735722000.75") nine) as (_ & Hobject & _).
  split; [apply Hmissing; reflexivity|].
  destruct (Hobject ∅ eq_refl) as (agents' & Heq & _). by exists agents'.
Defined.

(** C4 fails as stated: on a registry file that is not JSON, or that
    cannot be read, the call raises: no uid is returned and nothing is
    recorded. *)
Lemma register_agent_corrupt_raises :
  register_agent Corrupt 0 nine (py "1735722000.5") nine = Raise JSONDecodeError
  ∧ register_agent Unreadable 0 nine (py "1735722000.5") nine = Raise OSError
  ∧ register_agent (Json JOther) 0 nine (py "1735722000.5") nine
    = Raise TypeError.
Proof. repeat split. Qed.

(** How far the suffix separates uids. Two registrations read in the same
    second return distinct uids exactly when their four-character hash
    suffixes differ; the uid is [agent_], the time to the second, [_] and
    the suffix, and the suffix is four hexadecimal digits: one of 65536
    values. *)
Lemma register_agent_distinct_iff :
  ∀ file1 id1 now1 tr1 now1' u1 out1 file2 id2 now2 tr2 now2' u2 out2,
    register_agent file1 id1 now1 tr1 now1' = Ok (u1, out1) →
    register_agent file2 id2 now2 tr2 now2' = Ok (u2, out2) →
    strftime_Ymd_HMS now1 = strftime_Ymd_HMS now2 →
    (u1 ≠ u2 ↔ random_suffix id1 tr1 ≠ random_suffix id2 tr2)
    ∧ u1 = py "agent_" ++ strftime_Ymd_HMS now1 ++ py "_" ++ random_suffix id1 tr1
    ∧ length (random_suffix id1 tr1) = 4
    ∧ forallb Md5.is_hex (random_suffix id1 tr1) = true.
Proof.
  intros file1 id1 now1 tr1 now1' u1 out1 file2 id2 now2 tr2 now2' u2 out2
         H1%register_agent_uid H2%register_agent_uid Hts.
  subst u1 u2. split; [|split; [done|]].
  - rewrite unique_id_eq_iff. split.
    + intros Hne Heq. apply Hne. by split.
    + intros Hne [_ Heq]. by apply Hne.
  - split; [apply length_random_suffix|apply random_suffix_is_hex].
Qed.

(** C8. The uid that [register_agent] returns is not unique. Agents 0 and
    1 register within the second 09:00:00 of one day, at the times
    1735722000.029 and 1735722000.2125 of [time.time()], on the registry a
    fresh coordinator has written: both calls return the uid
    [agent_20250101_090000_6451], and the second registration replaces the
    entry of agent 0, so that the registry ends with the one entry of
    agent 1 for two registered agents. *)
Theorem register_agent_uid_collision :
  let now1 := mk_datetime 2025 1 1 9 0 0 29000 in
  let now2 := mk_datetime 2025 1 1 9 0 0 212500 in
  ∃ u out1 out2,
    (0 ≠ 1)%Z
    ∧ strftime_Ymd_HMS now1 = strftime_Ymd_HMS now2
    ∧ register_agent (Json (JObject ∅)) 0 now1 (py "1735722000.029") now1
      = Ok (u, out1)
    ∧ register_agent out1 1 now2 (py "1735722000.2125") now2 = Ok (u, out2)
    ∧ u = py "agent_20250101_090000_6451"
    ∧ out1 = Json (JObject {[u := mk_entry 0 now1 (py "active")]})
    ∧ out2 = Json (JObject {[u := mk_entry 1 now2 (py "active")]}).
Proof.
  intros now1 now2. eexists _, _, _.
  split; [done|]. split; [reflexivity|]. split; [reflexivity|].
  assert (unique_id 1 now2 (py "1735722000.2125")
          = unique_id 0 now1 (py "1735722000.029")) as Heq
    by (vm_compute; reflexivity).
  split; [|split; [|split]].
  - unfold register_agent. rewrite Heq. reflexivity.
  - vm_compute. reflexivity.
  - by rewrite insert_empty.
  - by rewrite insert_insert_eq, insert_empty.
Qed.

End RegistryFacts.

(** ** Launching agents *)

Module LauncherFacts.
Import Launcher.

Ltac munfold :=
  unfold mbind, M_bind, mret, M_ret, get, modify, raise, pending in *.

Lemma pane_of_log_call c w i : pane_of (log_call c w) i = pane_of w i.
Proof. done. Qed.

Lemma pane_of_set_agent j a w i : pane_of (set_agent j a w) i = pane_of w i.
Proof. done. Qed.

Lemma pane_of_set_registry r w i : pane_of (set_registry r w) i = pane_of w i.
Proof. done. Qed.

(** [send_to_pane] and [set_pane_title] return, and only add to the calls. *)
Lemma send_to_pane_run i c e w :
  ∃ w', send_to_pane i c e w = (Returns tt, w')
        ∧ pane_mapping w' = pane_mapping w ∧ agents w' = agents w
        ∧ registry w' = registry w ∧ work_claims w' = work_claims w
        ∧ completed_work w' = completed_work w
        ∧ tmux_calls w' = tmux_calls w
            ++ (if pane_of w i is Some _ then [SendToPane i c e] else []).
Proof.
  unfold send_to_pane, modify. eexists. split; [reflexivity|].
  destruct (pane_of w i); simpl; by rewrite ?app_nil_r.
Qed.

Lemma set_pane_title_run i t w :
  ∃ w', set_pane_title i t w = (Returns tt, w')
        ∧ pane_mapping w' = pane_mapping w ∧ agents w' = agents w
        ∧ registry w' = registry w ∧ work_claims w' = work_claims w
        ∧ completed_work w' = completed_work w
        ∧ tmux_calls w' = tmux_calls w
            ++ (if pane_of w i is Some _ then [SetPaneTitle i t] else []).
Proof.
  unfold set_pane_title, modify. eexists. split; [reflexivity|].
  destruct (pane_of w i); simpl; by rewrite ?app_nil_r.
Qed.

(** The screen read at the readiness check has no part in what
    [launch_agent] does. *)
Lemma launch_agent_screen agent_id pp start screen screen' now tr now' w :
  launch_agent agent_id pp (mk_readings start screen' now tr now') w
  = launch_agent agent_id pp (mk_readings start screen now tr now') w.
Proof. reflexivity. Qed.

Lemma bind_returns {A B} (m : M A) (k : A → M B) w a w' :
  m w = (Returns a, w') → (m ≫= k) w = k a w'.
Proof. unfold mbind, M_bind. by intros ->. Qed.

Lemma bind_raises {A B} (m : M A) (k : A → M B) w e w' :
  m w = (Raises e, w') → (m ≫= k) w = (Raises e, w').
Proof. unfold mbind, M_bind. by intros ->. Qed.

Lemma bind_pending {A B} (m : M A) (k : A → M B) w w' :
  m w = (Pending, w') → (m ≫= k) w = (Pending, w').
Proof. unfold mbind, M_bind. by intros ->. Qed.

Lemma get_bind {B} (k : world → M B) w : (get ≫= k) w = k w w.
Proof. done. Qed.

Lemma modify_bind {B} f (k : unit → M B) w : (modify f ≫= k) w = k tt (f w).
Proof. done. Qed.

Lemma ret_bind {A B} (a : A) (k : A → M B) w : (mret a ≫= k) w = k a w.
Proof. done. Qed.

(** What [launch_agent] does when the agent has a pane. *)
Lemma launch_agent_run agent_id pp r w pane :
  pane_mapping w !! agent_id = Some pane →
  ∃ w1,
    pane_mapping w1 = pane_mapping w
    ∧ registry w1 = registry w
    ∧ agents w1 = <[agent_id := mk_agent agent_id pane Starting
                                         (start_reading r) 0 None]> (agents w)
    ∧ match Coordination.register_agent (registry w) (Z.of_nat agent_id)
              (register_now r) (register_time r) (register_now' r) with
      | Raise e => launch_agent agent_id pp r w = (Raises e, w1)
      | Ok (u, file) =>
          let agent := mk_agent agent_id pane Ready (start_reading r) 0 (Some u) in
          ∃ w2, launch_agent agent_id pp r w = (Returns agent, w2)
                ∧ pane_mapping w2 = pane_mapping w
                ∧ registry w2 = file
                ∧ agents w2 = <[agent_id := agent]> (agents w)
      end.
Proof.
  intros Hpane. unfold launch_agent. rewrite get_bind, Hpane, modify_bind.
  set (w0 := set_agent agent_id _ w).
  destruct (send_to_pane_run agent_id (py "cd " ++ pp) true w0)
    as (wa & Ha & Hpa & Haa & Hra & _).
  rewrite (bind_returns _ _ _ _ _ Ha).
  destruct (send_to_pane_run agent_id
              (py "claude --dangerously-skip-permissions") true wa)
    as (wb & Hb & Hpb & Hab & Hrb & _).
  rewrite (bind_returns _ _ _ _ _ Hb), get_bind.
  exists wb. split; [by rewrite Hpb, Hpa|]. split; [by rewrite Hrb, Hra|].
  split; [by rewrite Hab, Haa|].
  assert (registry wb = registry w) as Hreg by by rewrite Hrb, Hra.
  destruct (Coordination.register_agent (registry w) _ _ _ _)
    as [[u file]|e] eqn:Hregister.
  - assert (coord_register_agent agent_id r wb
            = (Returns u, set_registry file wb)) as Hc.
    { unfold coord_register_agent. by rewrite Hreg, Hregister. }
    rewrite (bind_returns _ _ _ _ _ Hc), modify_bind.
    set (wc := set_agent agent_id _ (set_registry file wb)).
    destruct (set_pane_title_run agent_id (agent_title agent_id (py "Ready")) wc)
      as (wd & Hd & Hpd & Had & Hrd & _).
    rewrite (bind_returns _ _ _ _ _ Hd). exists wd.
    split; [reflexivity|]. split; [by rewrite Hpd; simpl; rewrite Hpb, Hpa|].
    split; [by rewrite Hrd|]. rewrite Had. simpl. rewrite Hab, Haa. simpl.
    by rewrite insert_insert_eq.
  - assert (coord_register_agent agent_id r wb = (Raises e, wb)) as Hc.
    { unfold coord_register_agent. by rewrite Hreg, Hregister. }
    by rewrite (bind_raises _ _ _ _ _ Hc).
Qed.

Lemma launch_agent_no_pane agent_id pp r w :
  pane_mapping w !! agent_id = None →
  launch_agent agent_id pp r w = (Raises KeyError, w).
Proof. intros Hpane. unfold launch_agent. munfold. by rewrite Hpane. Qed.

Lemma register_agent_loaded file registered agent_id now tr now' :
  Coordination.load_agents file = Ok (Coordination.JObject registered) →
  Coordination.register_agent file agent_id now tr now'
  = Ok (Coordination.unique_id agent_id now tr,
        Coordination.Json (Coordination.JObject
          (<[Coordination.unique_id agent_id now tr
             := Coordination.mk_entry agent_id now' (py "active")]> registered))).
Proof. unfold Coordination.register_agent. by intros ->. Qed.

(** C9. Whatever the pane shows at the one readiness check, [launch_agent]
    does the same: the check has no part in the outcome. When the agent has
    a pane and the registry can be loaded, the launch returns the agent in
    status ready, registered under its uid; a launch only raises for want of
    a pane or of a registry that loads, and the only agent it can leave in
    status error is one it never touched. *)
Theorem launch_agent_ready :
  ∀ agent_id pp start screen now tr now' w,
    let r := mk_readings start screen now tr now' in
    (∀ screen',
       launch_agent agent_id pp (mk_readings start screen' now tr now') w
       = launch_agent agent_id pp r w)
    ∧ (∀ pane registered,
         pane_mapping w !! agent_id = Some pane →
         Coordination.load_agents (registry w)
         = Ok (Coordination.JObject registered) →
         ∃ w', let u := Coordination.unique_id (Z.of_nat agent_id) now tr in
               let agent := mk_agent agent_id pane Ready start 0 (Some u) in
           launch_agent agent_id pp r w = (Returns agent, w')
           ∧ agents w' !! agent_id = Some agent
           ∧ status agent = Ready
           ∧ registry w'
             = Coordination.Json (Coordination.JObject
                 (<[u := Coordination.mk_entry (Z.of_nat agent_id) now'
                           (py "active")]> registered)))
    ∧ (∀ out w' a,
         launch_agent agent_id pp r w = (out, w') →
         agents w' !! agent_id = Some a → status a = Error →
         w' = w ∧ out = Raises KeyError)
    ∧ (∀ e w',
         launch_agent agent_id pp r w = (Raises e, w') →
         pane_mapping w !! agent_id = None
         ∨ ∀ registered, Coordination.load_agents (registry w)
                         ≠ Ok (Coordination.JObject registered)).
Proof.
  intros agent_id pp start screen now tr now' w r.
  split; [intros; apply launch_agent_screen|].
  split.
  { intros pane registered Hpane Hload.
    destruct (launch_agent_run agent_id pp r w pane Hpane) as (w1 & _ & _ & _ & Hrun).
    rewrite (register_agent_loaded _ registered) in Hrun by done.
    destruct Hrun as (w2 & Hrun & _ & Hreg & Hag). exists w2. simpl.
    split; [exact Hrun|]. split; [by rewrite Hag, lookup_insert_eq|].
    split; [done|]. exact Hreg. }
  split.
  { intros out w' a Hrun Ha Herr.
    destruct (pane_mapping w !! agent_id) as [pane|] eqn:Hpane.
    - exfalso.
      destruct (launch_agent_run agent_id pp r w pane Hpane)
        as (w1 & _ & _ & Hag1 & Hcase).
      destruct (Coordination.register_agent _ _ _ _ _) as [[u file]|e].
      + destruct Hcase as (w2 & Hrun2 & _ & _ & Hag2).
        rewrite Hrun2 in Hrun. injection Hrun as <- <-.
        rewrite Hag2, lookup_insert_eq in Ha. injection Ha as <-. done.
      + rewrite Hcase in Hrun. injection Hrun as <- <-.
        rewrite Hag1, lookup_insert_eq in Ha. injection Ha as <-. done.
    - rewrite launch_agent_no_pane in Hrun by done. by injection Hrun as <- <-. }
  intros e w' Hrun.
  destruct (pane_mapping w !! agent_id) as [pane|] eqn:Hpane; [right|by left].
  intros registered Hload.
  destruct (launch_agent_run agent_id pp r w pane Hpane) as (w1 & _ & _ & _ & Hcase).
  rewrite (register_agent_loaded _ registered) in Hcase by done.
  destruct Hcase as (w2 & Hrun2 & _). rewrite Hrun2 in Hrun. done.
Qed.

(** C9 for agent 0 in a pane that shows a shell error at the check: the
    detector answers [False] and the agent is launched all the same. *)
Lemma launch_agent_ready_witness :
  let w := Orchestrator.fresh_world in
  let w0 := set_panes {[ 0 := py "claude_agents:agents.0" ]} w in
  let screen := py "bash: claude: command not found" in
  check_agent_ready w0 0 screen = false
  ∧ ∃ a w', launch_agent 0 (py "/srv/app")
              (mk_readings Coordination.nine screen Coordination.nine
                           (py "1735722000.5") Coordination.nine) w0
            = (Returns a, w')
            ∧ status a = Ready ∧ agents w' !! 0 = Some a.
Proof.
  intros w w0 screen. split; [reflexivity|].
  destruct (launch_agent_ready 0 (py "/srv/app") Coordination.nine screen
              Coordination.nine (py "1735722000.5") Coordination.nine w0)
    as (_ & Hok & _).
  destruct (Hok (py "claude_agents:agents.0") ∅) as (w' & Hrun & Hag & Hst & _);
    [reflexivity|reflexivity|].
  eexists _, w'. split; [exact Hrun|]. split; [exact Hst|exact Hag].
Defined.

Lemma delivered_calls i w w' l :
  tmux_calls w' = tmux_calls w ++ l →
  delivered i w' = delivered i w
    ++ omap (λ c, match c with
                  | SendToPane j command _ =>
                      if bool_decide (j = i) then Some command else None
                  | _ => None
                  end) l.
Proof. unfold delivered. intros ->. by rewrite omap_app. Qed.

(** [send_prompt] to an agent that was not launched does nothing. *)
Lemma send_prompt_absent i prompt w :
  agents w !! i = None → send_prompt i prompt w = (Returns tt, w).
Proof. intros Hno. unfold send_prompt. by rewrite get_bind, Hno. Qed.

(** [send_prompt] to a registered agent sends the prompt with the uid of
    the agent after it, then the title, and marks the agent as working. *)
Lemma send_prompt_run i prompt w a u :
  agents w !! i = Some a → uid a = Some u →
  ∃ w', send_prompt i prompt w = (Returns tt, w')
        ∧ pane_mapping w' = pane_mapping w
        ∧ registry w' = registry w
        ∧ work_claims w' = work_claims w
        ∧ completed_work w' = completed_work w
        ∧ agents w' = <[i := mk_agent (id a) (pane_id a) Working (start_time a)
                                      (current_step a) (uid a)]> (agents w)
        ∧ tmux_calls w' = tmux_calls w
            ++ (if pane_of w i is Some _
                then [SendToPane i (salted prompt u) true;
                      SetPaneTitle i (agent_title i (py "Working"))]
                else []).
Proof.
  intros Ha Hu. unfold send_prompt. rewrite get_bind, Ha, Hu.
  destruct (send_to_pane_run i (salted prompt u) true w)
    as (w1 & H1 & Hp1 & Ha1 & Hr1 & Hc1 & Hd1 & Ht1).
  rewrite (bind_returns _ _ _ _ _ H1).
  destruct (set_pane_title_run i (agent_title i (py "Working")) w1)
    as (w2 & H2 & Hp2 & Ha2 & Hr2 & Hc2 & Hd2 & Ht2).
  rewrite (bind_returns _ _ _ _ _ H2). eexists. split; [reflexivity|]. simpl.
  split; [by rewrite Hp2, Hp1|]. split; [by rewrite Hr2, Hr1|].
  split; [by rewrite Hc2, Hc1|]. split; [by rewrite Hd2, Hd1|].
  split; [by rewrite Ha2, Ha1|].
  rewrite Ht2, Ht1. unfold pane_of in *. rewrite Hp1.
  destruct (pane_mapping w !! i) as [[|c p]|]; by rewrite <- ?(assoc_L (++)), ?app_nil_r.
Qed.

Lemma uid_of_insert_status w w' i a st :
  agents w !! i = Some a →
  agents w' = <[i := mk_agent (id a) (pane_id a) st (start_time a)
                              (current_step a) (uid a)]> (agents w) →
  ∀ j, uid_of w' j = uid_of w j.
Proof.
  intros Ha Hw' j. unfold uid_of. rewrite Hw'.
  destruct (decide (i = j)) as [<-|Hne].
  - by rewrite lookup_insert_eq, Ha.
  - by rewrite lookup_insert_ne.
Qed.

Lemma registered_agents_insert_status w w' i a st :
  registered_agents w →
  agents w !! i = Some a →
  pane_mapping w' = pane_mapping w →
  agents w' = <[i := mk_agent (id a) (pane_id a) st (start_time a)
                              (current_step a) (uid a)]> (agents w) →
  registered_agents w'.
Proof.
  intros Hreg Ha Hp Hw' j b. rewrite Hw'. unfold pane_of. rewrite Hp.
  destruct (decide (i = j)) as [<-|Hne].
  - rewrite lookup_insert_eq. intros [= <-]. simpl. by apply Hreg.
  - rewrite lookup_insert_ne by done. apply Hreg.
Qed.

(** On a world whose agents are registered, [send_prompt] returns: each
    launched agent gets the text with its own uid after it. *)
Lemma send_prompt_registered i prompt w :
  registered_agents w →
  ∃ w', send_prompt i prompt w = (Returns tt, w')
        ∧ registered_agents w'
        ∧ pane_mapping w' = pane_mapping w
        ∧ registry w' = registry w
        ∧ (∀ j, uid_of w' j = uid_of w j)
        ∧ (∀ j, is_Some (agents w' !! j) ↔ is_Some (agents w !! j))
        ∧ ∀ j, delivered j w' = delivered j w
                 ++ (if bool_decide (i = j)
                     then match uid_of w j with
                          | Some u => [salted prompt u]
                          | None => []
                          end
                     else []).
Proof.
  intros Hreg. destruct (agents w !! i) as [a|] eqn:Ha.
  - destruct (Hreg i a Ha) as [[u Hu] [pn Hpn]].
    destruct (send_prompt_run i prompt w a u Ha Hu)
      as (w' & Hrun & Hp & Hr & _ & _ & Hag & Hcalls).
    exists w'. split; [done|].
    split; [by eapply registered_agents_insert_status|].
    split; [done|]. split; [done|].
    split; [by eapply uid_of_insert_status|].
    split.
    { intros j. rewrite Hag. destruct (decide (i = j)) as [<-|Hne].
      - rewrite lookup_insert_eq, Ha. split; eauto.
      - by rewrite lookup_insert_ne. }
    intros j. rewrite (delivered_calls j w w' _ Hcalls), Hpn. simpl.
    case_bool_decide as Hij; [|done]. subst j.
    unfold uid_of. by rewrite Ha; simpl; rewrite Hu.
  - exists w. rewrite send_prompt_absent by done.
    split; [done|]. split; [done|]. split; [done|]. split; [done|].
    split; [done|]. split; [done|].
    intros j. case_bool_decide as Hij; [|by rewrite app_nil_r]. subst j.
    unfold uid_of. rewrite Ha. simpl. by rewrite app_nil_r.
Qed.

(** The loop [for i in range(...): send_prompt(i, prompt)]. *)
Lemma for_each_send_prompt (l : list nat) prompt w :
  registered_agents w → NoDup l →
  ∃ w', for_each l (λ _ i, send_prompt i prompt) tt w = (Returns tt, w')
        ∧ registered_agents w'
        ∧ pane_mapping w' = pane_mapping w
        ∧ registry w' = registry w
        ∧ (∀ j, uid_of w' j = uid_of w j)
        ∧ (∀ j, is_Some (agents w' !! j) ↔ is_Some (agents w !! j))
        ∧ ∀ j, delivered j w' = delivered j w
                 ++ (if bool_decide (j ∈ l)
                     then match uid_of w j with
                          | Some u => [salted prompt u]
                          | None => []
                          end
                     else []).
Proof.
  revert w. induction l as [|i l IH]; intros w Hreg Hnd.
  - exists w. simpl. split; [done|]. split; [done|]. split; [done|].
    split; [done|]. split; [done|]. split; [done|].
    intros j. by rewrite app_nil_r.
  - apply NoDup_cons in Hnd as [Hni Hnd].
    destruct (send_prompt_registered i prompt w Hreg)
      as (w1 & Hrun1 & Hreg1 & Hp1 & Hr1 & Hu1 & Hs1 & Hd1).
    destruct (IH w1 Hreg1 Hnd) as (w2 & Hrun2 & Hreg2 & Hp2 & Hr2 & Hu2 & Hs2 & Hd2).
    exists w2. simpl. rewrite (bind_returns _ _ _ _ _ Hrun1).
    destruct (tt). split; [exact Hrun2|]. split; [done|].
    split; [by rewrite Hp2|]. split; [by rewrite Hr2|].
    split; [intros j; by rewrite Hu2|]. split; [intros j; by rewrite Hs2|].
    intros j. rewrite Hd2, Hd1, Hu1, <- (assoc_L (++)). f_equal.
    destruct (decide (i = j)) as [<-|Hne].
    + rewrite (bool_decide_eq_true_2 (i = i)) by done.
      rewrite (bool_decide_eq_false_2 (i ∈ l)) by done.
      rewrite (bool_decide_eq_true_2 (i ∈ i :: l)) by left.
      by rewrite app_nil_r.
    + rewrite (bool_decide_eq_false_2 (i = j)) by done. simpl.
      destruct (decide (j ∈ l)) as [Hin|Hnin].
      * rewrite (bool_decide_eq_true_2 (j ∈ l)) by done.
        by rewrite (bool_decide_eq_true_2 (j ∈ i :: l)) by by right.
      * rewrite (bool_decide_eq_false_2 (j ∈ l)) by done.
        rewrite (bool_decide_eq_false_2 (j ∈ i :: l)); [done|].
        rewrite elem_of_cons. intros [?|?]; [by subst|done].
Qed.

End LauncherFacts.

(** ** The orchestrator *)

Module OrchestratorFacts.
Import Launcher Orchestrator LauncherFacts.

Lemma occurs_in_refl s : occurs_in s s.
Proof. exists [], []. by rewrite app_nil_r. Qed.

Lemma occurs_in_app_l sub s t : occurs_in sub s → occurs_in sub (t ++ s).
Proof.
  intros (b & af & ->). exists (t ++ b), af. by rewrite <- !(assoc_L (++)).
Qed.

Lemma occurs_in_app_r sub s t : occurs_in sub s → occurs_in sub (s ++ t).
Proof.
  intros (b & af & ->). exists b, (af ++ t). by rewrite <- !(assoc_L (++)).
Qed.

Lemma occurs_in_trans a b c : occurs_in a b → occurs_in b c → occurs_in a c.
Proof.
  intros (b1 & a1 & ->) (b2 & a2 & ->). exists (b2 ++ b1), (a1 ++ a2).
  by rewrite <- !(assoc_L (++)).
Qed.

(** The lines of a step hold its number and content, and its description. *)
Lemma step_lines_holds step :
  occurs_in (py "Step " ++ str_of_int (number step) ++ py ": " ++ content step)
            (step_lines step)
  ∧ ∀ d, description step = Some d → occurs_in d (step_lines step).
Proof.
  unfold step_lines. split.
  - apply occurs_in_app_l. rewrite !(assoc_L (++)). apply occurs_in_app_r.
    rewrite <- !(assoc_L (++)). apply occurs_in_refl.
  - intros d Hd. unfold described. rewrite Hd. destruct d as [|c d].
    + by exists [], (nl ++ py "Step " ++ str_of_int (number step) ++ py ": "
                     ++ content step ++ []).
    + do 7 apply occurs_in_app_l. apply occurs_in_refl.
Qed.

Lemma bind_step_lines_holds (l : list BuildStep) step :
  step ∈ l → occurs_in (step_lines step) (l ≫= step_lines).
Proof.
  intros (l1 & l2 & ->)%list_elem_of_split.
  rewrite bind_app, bind_cons. apply occurs_in_app_l, occurs_in_app_r, occurs_in_refl.
Qed.

(** The text of [_send_all_steps_to_agent] holds every step. *)
Lemma steps_text_holds prompt step :
  step ∈ steps prompt →
  occurs_in (py "Step " ++ str_of_int (number step) ++ py ": " ++ content step)
            (steps_text prompt)
  ∧ ∀ d, description step = Some d → occurs_in d (steps_text prompt).
Proof.
  intros Hin.
  assert (occurs_in (step_lines step) (steps_text prompt)) as Hocc.
  { unfold steps_text. apply occurs_in_app_l, occurs_in_app_r.
    by apply bind_step_lines_holds. }
  destruct (step_lines_holds step) as [H1 H2].
  split; [by eapply occurs_in_trans|].
  intros d Hd. eapply occurs_in_trans; [by apply H2|done].
Qed.

(** Launching keeps the agents registered: an agent that [launch_agent]
    returns has its uid, and its pane when pane names are not empty. *)
Lemma launch_agent_registered i pp r w ag w' :
  registered_agents w →
  (∀ j p, pane_mapping w !! j = Some p → p ≠ []) →
  launch_agent i pp r w = (Returns ag, w') →
  registered_agents w' ∧ pane_mapping w' = pane_mapping w.
Proof.
  intros Hreg Hpanes Hrun.
  destruct (pane_mapping w !! i) as [pane|] eqn:Hpane;
    [|by rewrite launch_agent_no_pane in Hrun].
  destruct (launch_agent_run i pp r w pane Hpane) as (w1 & _ & _ & _ & Hcase).
  destruct (Coordination.register_agent _ _ _ _ _) as [[u file]|x];
    [|by rewrite Hcase in Hrun].
  destruct Hcase as (w2 & Hrun2 & Hp2 & _ & Hag2).
  rewrite Hrun2 in Hrun. injection Hrun as <- <-. split; [|done].
  intros j b. rewrite Hag2. unfold pane_of. rewrite Hp2.
  destruct (decide (j = i)) as [Heq|Hne].
  - subst j. rewrite lookup_insert_eq. intros [= <-]. simpl. split; [by eexists|].
    rewrite Hpane. destruct pane as [|c pn]; [by destruct (Hpanes i [] Hpane)|].
    by eexists.
  - rewrite lookup_insert_ne by done. apply Hreg.
Qed.

(** So every agent is registered when the launch loop of [run] is over. *)
Lemma launch_all_registered pp e l w w' :
  registered_agents w →
  (∀ j p, pane_mapping w !! j = Some p → p ≠ []) →
  launch_all pp e l w = (Returns tt, w') →
  registered_agents w' ∧ pane_mapping w' = pane_mapping w.
Proof.
  revert w. induction l as [|i l IH]; intros w Hreg Hpanes; simpl.
  - by intros [= <-].
  - destruct (launch_running e i); [|by intros [= <-]].
    unfold mbind, M_bind.
    destruct (launch_agent i pp (readings e i) w) as [[ag|x|] w1] eqn:Hlaunch;
      [|done|done].
    destruct (launch_agent_registered _ _ _ _ _ _ Hreg Hpanes Hlaunch)
      as [Hreg1 Hp1].
    intros Hrest. destruct (IH w1 Hreg1) as [Hreg' Hp']; [|done|].
    + intros j p0. rewrite Hp1. apply Hpanes.
    + split; [done|]. by rewrite Hp'.
Qed.

(** C5. In collaborative mode with steps, on a world whose launched agents
    are registered, [_send_initial_prompts] returns, and every launched
    agent [i] among the [n_agents] has been sent, after the initial prompt,
    the one text [steps_text] followed by the suffix that names its own uid;
    no other agent is sent anything. That text holds, for every step, its
    number and content on a line [Step n: content], and its description. *)
Theorem collaborative_broadcast :
  ∀ a prompt w,
    collaborative a = true → steps prompt ≠ [] → registered_agents w →
    ∃ w',
      _send_initial_prompts a prompt w = (Returns tt, w')
      ∧ (∀ i u, i < n_agents a → uid_of w i = Some u →
           delivered i w'
           = delivered i w
             ++ [salted (full_prompt a prompt) u; salted (steps_text prompt) u]
           ∧ salted (steps_text prompt) u
             = steps_text prompt ++ nl ++ nl ++ py "[Agent ID: " ++ u ++ py "]")
      ∧ (∀ i, n_agents a ≤ i ∨ uid_of w i = None →
           delivered i w' = delivered i w)
      ∧ (∀ step, step ∈ steps prompt →
           occurs_in (py "Step " ++ str_of_int (number step) ++ py ": "
                      ++ content step) (steps_text prompt)
           ∧ ∀ d, description step = Some d → occurs_in d (steps_text prompt)).
Proof.
  intros a prompt w Hcollab Hsteps Hreg.
  destruct (for_each_send_prompt (seq 0 (n_agents a)) (full_prompt a prompt) w
              Hreg (NoDup_seq _ _))
    as (w1 & Hrun1 & Hreg1 & _ & _ & Hu1 & _ & Hd1).
  destruct (for_each_send_prompt (seq 0 (n_agents a)) (steps_text prompt) w1
              Hreg1 (NoDup_seq _ _))
    as (w2 & Hrun2 & _ & _ & _ & _ & _ & Hd2).
  exists w2. split.
  { unfold _send_initial_prompts. rewrite (bind_returns _ _ _ _ _ Hrun1).
    rewrite Hcollab, bool_decide_eq_true_2 by done. exact Hrun2. }
  split.
  { intros i u Hi Hu. split; [|done].
    rewrite Hd2, Hd1, Hu1, Hu, bool_decide_eq_true_2, <- (assoc_L (++)); [done|].
    apply elem_of_seq. lia. }
  split; [|by apply steps_text_holds].
  intros i Hi. rewrite Hd2, Hd1, Hu1.
  destruct Hi as [Hi|Hi].
  - rewrite bool_decide_eq_false_2; [by rewrite !app_nil_r|].
    rewrite elem_of_seq. lia.
  - rewrite Hi. case_bool_decide; by rewrite !app_nil_r.
Qed.

Lemma two_agents_registered : registered_agents two_agents.
Proof.
  intros i a Ha. unfold two_agents in *. simpl in Ha.
  apply lookup_insert_Some in Ha as [[<- <-]|[_ Ha]].
  - split; eexists; reflexivity.
  - apply lookup_singleton_Some in Ha as [<- <-]. split; eexists; reflexivity.
Qed.

(** C5 for two launched agents and two steps. *)
Lemma collaborative_broadcast_witness :
  let a := mk_args 2 true true true None in
  ∃ w',
    _send_initial_prompts a two_steps two_agents = (Returns tt, w')
    ∧ delivered 0 w'
      = [salted (full_prompt a two_steps) uid_0; salted (steps_text two_steps) uid_0]
    ∧ delivered 1 w'
      = [salted (full_prompt a two_steps) uid_1; salted (steps_text two_steps) uid_1]
    ∧ occurs_in (py "Step 2: Write the tests") (steps_text two_steps)
    ∧ occurs_in (py "unit tests first") (steps_text two_steps).
Proof.
  intros a.
  destruct (collaborative_broadcast a two_steps two_agents)
    as (w' & Hrun & Hsent & _ & Hholds);
    [reflexivity|discriminate|apply two_agents_registered|].
  exists w'. split; [exact Hrun|].
  split; [apply (Hsent 0 uid_0); [simpl; lia|reflexivity]|].
  split; [apply (Hsent 1 uid_1); [simpl; lia|reflexivity]|].
  destruct (Hholds (mk_step 2 (py "Write the tests") (Some (py "unit tests first"))))
    as [Hline Hdescr].
  { unfold two_steps. simpl. right. left. }
  split; [exact Hline|]. by apply Hdescr.
Defined.

End OrchestratorFacts.

(** ** The sequential scheduler *)

Module SchedulerFacts.
Import Launcher Orchestrator LauncherFacts OrchestratorFacts.

Section Chunks.
Context {A : Type}.
Implicit Types (l : list A) (b k : nat).

Lemma concat_chunks_upto b l k :
  concat ((λ j, take b (drop (j * b) l)) <$> seq 0 k) = take (k * b) l.
Proof.
  induction k as [|k IH]; [done|].
  rewrite seq_S, fmap_app, concat_app, IH. simpl. rewrite app_nil_r.
  rewrite take_take_drop. f_equal. lia.
Qed.

Lemma chunk_count_spec b n :
  0 < b → n ≤ ((n + b - 1) / b) * b ∧ ∀ k, k * b < n → k < (n + b - 1) / b.
Proof.
  intros Hb. split.
  - pose proof (Nat.div_mod_eq (n + b - 1) b) as Hdm.
    pose proof (Nat.mod_upper_bound (n + b - 1) b ltac:(lia)). nia.
  - intros k Hk. apply Nat.div_le_lower_bound; [lia|]. nia.
Qed.

Lemma length_chunks b l : length (chunks b l) = (length l + b - 1) / b.
Proof. unfold chunks. by rewrite length_fmap, length_seq. Qed.

(** The bundles, put end to end, are the list. *)
Lemma concat_chunks b l : 0 < b → concat (chunks b l) = l.
Proof.
  intros Hb. unfold chunks. rewrite concat_chunks_upto.
  apply take_ge. by apply chunk_count_spec.
Qed.

Lemma lookup_chunks b l k :
  k * b < length l → 0 < b → chunks b l !! k = Some (take b (drop (k * b) l)).
Proof.
  intros Hk Hb. unfold chunks. rewrite list_lookup_fmap, lookup_seq_lt; [done|].
  by apply chunk_count_spec.
Qed.

Lemma take_chunks_all b l k :
  0 < b → length l ≤ k * b → take k (chunks b l) = chunks b l.
Proof.
  intros Hb Hk. apply take_ge. rewrite length_chunks.
  apply Nat.lt_succ_r, Nat.Div0.div_lt_upper_bound. nia.
Qed.

Lemma concat_take_chunks b l k :
  0 < b → concat (take k (chunks b l)) = take ((k * b) `min` length l) l.
Proof.
  intros Hb. destruct (decide (k ≤ (length l + b - 1) / b)) as [Hle|Hgt].
  - unfold chunks. rewrite <- fmap_take, take_seq.
    replace (k `min` ((length l + b - 1) / b)) with k by lia.
    rewrite concat_chunks_upto.
    destruct (decide (k * b ≤ length l)) as [Hkb|Hkb].
    + by rewrite (Nat.min_l _ _ Hkb).
    + apply Nat.nle_gt, Nat.lt_le_incl in Hkb.
      rewrite (Nat.min_r _ _ Hkb). by rewrite !take_ge.
  - rewrite take_ge by (rewrite length_chunks; lia).
    rewrite concat_chunks by done.
    pose proof (proj1 (chunk_count_spec b (length l) Hb)) as Hn.
    assert (length l ≤ k * b) as Hkb by nia.
    rewrite (Nat.min_r _ _ Hkb). by rewrite take_ge.
Qed.

(** The loop that collects [l[i]] for [i] in a range inside the list reads
    off a slice of it. *)
Lemma omap_lookup_seq l i n :
  i + n ≤ length l → omap (λ j, l !! j) (seq i n) = take n (drop i l).
Proof.
  revert i l. induction n as [|n IH]; intros i l Hn; [by rewrite take_0|].
  simpl. destruct (l !! i) as [x|] eqn:Hx.
  - rewrite IH by lia. rewrite (drop_S l x i Hx). done.
  - apply lookup_ge_None in Hx. lia.
Qed.

End Chunks.

Section Loop.
Variable a : args.
Variable prompt : BuildPrompt.
Variable e : env.

Lemma bundle_size_pos : 0 < bundle_size a.
Proof.
  unfold bundle_size, bundling. destruct (bundle_steps a) as [b|]; [|lia].
  destruct (1 <? b)%Z eqn:Hb; [|lia]. apply Z.ltb_lt in Hb. lia.
Qed.

Lemma sched_inv_init : sched_inv a prompt (mk_sched 0 ∅ []).
Proof. exists 0. split; [by rewrite take_0|]. simpl. lia. Qed.

Lemma sched_inv_le s : sched_inv a prompt s → step_index s ≤ length (steps prompt).
Proof. intros (k & _ & ->). lia. Qed.

(** Assigning the next bundle keeps the assignments a prefix of the
    bundles. *)
Lemma sched_inv_after_assignment s i :
  sched_inv a prompt s → step_index s < length (steps prompt) →
  sched_inv a prompt (after_assignment a prompt s i)
  ∧ step_index s < step_index (after_assignment a prompt s i).
Proof.
  pose proof bundle_size_pos as Hb.
  intros (k & Hbundles & Hidx) Hlt.
  assert (k * bundle_size a < length (steps prompt)) as Hk by lia.
  assert (step_index s = k * bundle_size a) as Hidx' by lia.
  split; [|simpl; lia].
  exists (S k). unfold after_assignment, bundles in *. simpl. split.
  - rewrite fmap_app, Hbundles. simpl.
    rewrite (take_S_r _ _ _ (lookup_chunks _ _ _ Hk Hb)). by rewrite Hidx'.
  - rewrite Hidx'. f_equal. lia.
Qed.

(** The two shapes of one turn of the inner loop: the agent is passed
    over, or it is sent the prompt of the next bundle, which is then
    recorded as assigned to it. *)
Lemma assign_shape it s i w :
  sched_inv a prompt s →
  assign a prompt e it s i w = (Returns s, w)
  ∨ ((i ∉ agents_working s)
     ∧ step_index s < length (steps prompt)
     ∧ check_agent_ready w i (ready_screen e it i) = true
     ∧ assign a prompt e it s i w
       = (send_prompt i
            (assignment_prompt a
               (take (bundle_size a) (drop (step_index s) (steps prompt))));;
          mret (after_assignment a prompt s i)) w).
Proof.
  intros Hinv. unfold assign. case_bool_decide as Hw; [by left|].
  rewrite get_bind.
  destruct (check_agent_ready w i (ready_screen e it i)) eqn:Hready; [|by left].
  destruct (step_index s <? length (steps prompt)) eqn:Hlt; [|by left].
  apply Nat.ltb_lt in Hlt. right.
  split; [done|]. split; [done|]. split; [done|].
  unfold after_assignment, assignment_prompt, bundle_size.
  destruct (bundling a) as [b|] eqn:Hb.
  - rewrite omap_lookup_seq by lia.
    replace (take ((step_index s + b) `min` length (steps prompt) - step_index s)
               (drop (step_index s) (steps prompt)))
      with (take b (drop (step_index s) (steps prompt))); [done|].
    rewrite <- (take_ge (drop (step_index s) (steps prompt))
                  (length (steps prompt) - step_index s))
      by (rewrite length_drop; lia).
    rewrite !take_take. f_equal. lia.
  - destruct (steps prompt !! step_index s) as [step|] eqn:Hstep.
    + replace ((step_index s + 1) `min` length (steps prompt))
        with (step_index s + 1) by lia.
      rewrite (drop_S _ _ _ Hstep). simpl. rewrite take_0. done.
    + apply lookup_ge_None in Hstep. lia.
Qed.

(** One turn of the inner loop keeps the invariant and never moves the
    cursor back. *)
Lemma assign_inv it s i w s' w' :
  sched_inv a prompt s →
  assign a prompt e it s i w = (Returns s', w') →
  sched_inv a prompt s' ∧ step_index s ≤ step_index s'.
Proof.
  intros Hinv Hrun.
  destruct (assign_shape it s i w Hinv) as [Hskip|(_ & Hlt & _ & Hsend)].
  - rewrite Hskip in Hrun. by injection Hrun as <- <-.
  - rewrite Hsend in Hrun. unfold mbind, M_bind in Hrun.
    destruct (send_prompt i _ w) as [[[]| |] w1]; try done.
    injection Hrun as <- <-.
    destruct (sched_inv_after_assignment s i Hinv Hlt). split; [done|lia].
Qed.

Lemma for_each_assign_inv it l s w s' w' :
  sched_inv a prompt s →
  for_each l (assign a prompt e it) s w = (Returns s', w') →
  sched_inv a prompt s' ∧ step_index s ≤ step_index s'.
Proof.
  revert s w. induction l as [|i l IH]; intros s w Hinv Hrun; simpl in Hrun.
  - by injection Hrun as <- <-.
  - unfold mbind, M_bind in Hrun.
    destruct (assign a prompt e it s i w) as [[s1| |] w1] eqn:H1; try done.
    destruct (assign_inv _ _ _ _ _ _ Hinv H1) as [Hinv1 Hle1].
    destruct (IH _ _ Hinv1 Hrun) as [Hinv' Hle']. split; [done|lia].
Qed.

Lemma poll_run it s w :
  poll e it s w
  = (Returns (mk_sched (step_index s)
                (filter (λ i, shows_ready w i (done_screen e it i) = false)
                        (agents_working s))
                (assignments s)), w).
Proof. done. Qed.

Lemma sched_inv_poll s working :
  sched_inv a prompt s →
  sched_inv a prompt (mk_sched (step_index s) working (assignments s)).
Proof. intros (k & ? & ?). by exists k. Qed.

(** The assignment loop keeps the invariant; when it ends with the flag
    [RUNNING] still set, the cursor is at the end of the steps. *)
Lemma assign_loop_inv fuel it s w it' s' w' :
  sched_inv a prompt s →
  assign_loop a prompt e fuel it s w = (Returns (it', s'), w') →
  sched_inv a prompt s'
  ∧ (running e it' = true → step_index s' = length (steps prompt)).
Proof.
  revert it s w. induction fuel as [|fuel IH]; intros it s w Hinv Hrun;
    simpl in Hrun; [done|].
  destruct (running e it && (step_index s <? length (steps prompt))) eqn:Hcond.
  - unfold mbind, M_bind in Hrun.
    destruct (for_each _ _ s w) as [[s1| |] w1] eqn:H1; try done.
    destruct (for_each_assign_inv _ _ _ _ _ _ Hinv H1) as [Hinv1 _].
    rewrite poll_run in Hrun.
    eapply IH; [|exact Hrun]. by apply sched_inv_poll.
  - injection Hrun as <- <- <-. split; [done|].
    intros Hr. rewrite Hr in Hcond. simpl in Hcond.
    apply Nat.ltb_ge in Hcond. pose proof (sched_inv_le s Hinv). lia.
Qed.

(** What the invariant says of the assignments. *)
Lemma sched_inv_bundles s :
  sched_inv a prompt s →
  (∃ k, bundles s = take k (chunks (bundle_size a) (steps prompt)))
  ∧ concat (bundles s) = take (step_index s) (steps prompt)
  ∧ (step_index s = length (steps prompt) →
     bundles s = chunks (bundle_size a) (steps prompt)
     ∧ concat (bundles s) = steps prompt).
Proof.
  pose proof bundle_size_pos as Hb.
  intros (k & Hbundles & Hidx). split; [by exists k|].
  split; [by rewrite Hbundles, Hidx, concat_take_chunks|].
  intros Hend. rewrite Hbundles.
  rewrite take_chunks_all by lia. split; [done|]. by apply concat_chunks.
Qed.

Lemma registered_agents_panes w w' :
  pane_mapping w' = pane_mapping w →
  (∀ j, uid_of w' j = uid_of w j) →
  (∀ j, is_Some (agents w' !! j) ↔ is_Some (agents w !! j)) →
  registered_agents w → registered_agents w'.
Proof.
  intros Hp Hu Hs Hreg j b Hb. unfold pane_of. rewrite Hp.
  assert (is_Some (agents w !! j)) as [b0 Hb0] by (apply Hs; eauto).
  destruct (Hreg j b0 Hb0) as [[u Hub0] Hpane]. split; [|done].
  specialize (Hu j). unfold uid_of in Hu. rewrite Hb, Hb0 in Hu. simpl in Hu.
  rewrite Hu. eauto.
Qed.

Lemma live_agent_panes w w' i :
  pane_mapping w' = pane_mapping w → live_agent e w i → live_agent e w' i.
Proof. intros Hp (Hpane & Hr & Hd). unfold live_agent, pane_of in *. by rewrite Hp. Qed.

(** On registered agents one turn of the inner loop returns. *)
Lemma assign_run it s i w :
  registered_agents w → sched_inv a prompt s →
  ∃ s' w',
    assign a prompt e it s i w = (Returns s', w')
    ∧ registered_agents w'
    ∧ pane_mapping w' = pane_mapping w
    ∧ sched_inv a prompt s'
    ∧ step_index s ≤ step_index s'
    ∧ (∀ j, j ∈ agents_working s' → j ∈ agents_working s ∨ j = i)
    ∧ (i ∉ agents_working s → live_agent e w i →
       step_index s < length (steps prompt) →
       step_index s < step_index s').
Proof.
  intros Hreg Hinv.
  destruct (assign_shape it s i w Hinv) as [Hskip|(Hnw & Hlt & Hready & Hsend)].
  - exists s, w. split; [done|]. split; [done|]. split; [done|].
    split; [done|]. split; [done|]. split; [by left|].
    intros Hnw (Hpane & Hr & _) Hlt. exfalso.
    unfold assign in Hskip. rewrite bool_decide_eq_false_2, get_bind in Hskip by done.
    assert (check_agent_ready w i (ready_screen e it i) = true) as Hready.
    { unfold check_agent_ready, capture_pane. destruct Hpane as [pn ->]. apply Hr. }
    rewrite Hready in Hskip. apply Nat.ltb_lt in Hlt. rewrite Hlt in Hskip.
    pose proof bundle_size_pos as Hpos. unfold bundle_size in Hpos.
    destruct (bundling a).
    + unfold mbind, M_bind in Hskip.
      destruct (send_prompt i _ w) as [[[]| |] w1]; try done.
      injection Hskip as Hs _. apply (f_equal step_index) in Hs. simpl in Hs.
      apply Nat.ltb_lt in Hlt. lia.
    + destruct (steps prompt !! step_index s); [|done].
      unfold mbind, M_bind in Hskip.
      destruct (send_prompt i _ w) as [[[]| |] w1]; try done.
      injection Hskip as Hs _. apply (f_equal step_index) in Hs. simpl in Hs. lia.
  - destruct (send_prompt_registered i
                (assignment_prompt a
                   (take (bundle_size a) (drop (step_index s) (steps prompt))))
                w Hreg)
      as (w' & Hrun & Hreg' & Hp' & _).
    destruct (sched_inv_after_assignment s i Hinv Hlt) as [Hinv' Hlt'].
    exists (after_assignment a prompt s i), w'.
    split; [by rewrite Hsend, (bind_returns _ _ _ _ _ Hrun)|].
    split; [done|]. split; [done|]. split; [done|]. split; [lia|].
    split; [|done].
    intros j. unfold after_assignment. simpl.
    rewrite elem_of_union, elem_of_singleton. intros [->|?]; [by right|by left].
Qed.

(** A sweep over the agents returns; when a live agent that is not at work
    is among them and steps remain, the cursor moves on. *)
Lemma for_each_assign_run it l s w :
  registered_agents w → sched_inv a prompt s →
  ∃ s' w',
    for_each l (assign a prompt e it) s w = (Returns s', w')
    ∧ registered_agents w'
    ∧ pane_mapping w' = pane_mapping w
    ∧ sched_inv a prompt s'
    ∧ step_index s ≤ step_index s'
    ∧ (∀ j, j ∈ agents_working s' → j ∈ agents_working s ∨ j ∈ l)
    ∧ (∀ i, i ∈ l → NoDup l → i ∉ agents_working s → live_agent e w i →
         step_index s < length (steps prompt) →
         step_index s < step_index s').
Proof.
  revert s w. induction l as [|x l IH]; intros s w Hreg Hinv.
  - exists s, w. split; [done|]. split; [done|]. split; [done|].
    split; [done|]. split; [done|]. split; [by left|].
    by intros i ?%elem_of_nil.
  - destruct (assign_run it s x w Hreg Hinv)
      as (s1 & w1 & Hrun1 & Hreg1 & Hp1 & Hinv1 & Hle1 & Hw1 & Hprog1).
    destruct (IH s1 w1 Hreg1 Hinv1)
      as (s2 & w2 & Hrun2 & Hreg2 & Hp2 & Hinv2 & Hle2 & Hw2 & Hprog2).
    exists s2, w2. simpl. rewrite (bind_returns _ _ _ _ _ Hrun1).
    split; [done|]. split; [done|]. split; [by rewrite Hp2|].
    split; [done|]. split; [lia|]. split.
    { intros j Hj. rewrite elem_of_cons.
      destruct (Hw2 j Hj) as [Hj1|?]; [|by auto].
      destruct (Hw1 j Hj1); auto. }
    intros i Hi [Hxl Hnd]%NoDup_cons Hnw Hlive Hlt.
    apply elem_of_cons in Hi as [->|Hi].
    + specialize (Hprog1 Hnw Hlive Hlt). lia.
    + destruct (decide (step_index s < step_index s1)) as [?|Hsame]; [lia|].
      assert (step_index s1 = step_index s) as Heq by lia.
      rewrite <- Heq in *. apply (Hprog2 i); try done.
      * intros Hj. destruct (Hw1 i Hj) as [?|Hix]; [done|]. by subst.
      * by apply (live_agent_panes w).
Qed.

Lemma assign_loop_S fuel it s :
  assign_loop a prompt e (S fuel) it s
  = if running e it && (step_index s <? length (steps prompt))
    then s1 ← for_each (seq 0 (n_agents a)) (assign a prompt e it) s;
         s2 ← poll e it s1;
         assign_loop a prompt e fuel (S it) s2
    else mret (it, s).
Proof. done. Qed.

(** With the flag [RUNNING] set throughout and one live agent among the
    [n_agents], the loop ends within as many turns as there are steps, with
    the cursor at the end. *)
Lemma assign_loop_ends i0 m it s w :
  (∀ k, running e k = true) →
  i0 < n_agents a → live_agent e w i0 →
  registered_agents w → sched_inv a prompt s →
  i0 ∉ agents_working s →
  length (steps prompt) - step_index s ≤ m →
  ∃ it' s' w',
    assign_loop a prompt e (S m) it s w = (Returns (it', s'), w')
    ∧ sched_inv a prompt s'
    ∧ step_index s' = length (steps prompt).
Proof.
  intros Hrun Hi0. revert it s w.
  induction m as [|m IH]; intros it s w Hlive Hreg Hinv Hnw Hm;
    pose proof (sched_inv_le s Hinv);
    rewrite assign_loop_S, Hrun, andb_true_l;
    destruct (step_index s <? length (steps prompt)) eqn:Hlt.
  - apply Nat.ltb_lt in Hlt. lia.
  - exists it, s, w. apply Nat.ltb_ge in Hlt.
    split; [done|]. split; [done|]. lia.
  - apply Nat.ltb_lt in Hlt.
    destruct (for_each_assign_run it (seq 0 (n_agents a)) s w Hreg Hinv)
      as (s1 & w1 & Hrun1 & Hreg1 & Hp1 & Hinv1 & Hle1 & Hw1 & Hprog1).
    rewrite (bind_returns _ _ _ _ _ Hrun1).
    rewrite (bind_returns _ _ _ _ _ (poll_run it s1 w1)).
    apply IH.
    + by apply (live_agent_panes w).
    + done.
    + by apply sched_inv_poll.
    + simpl. rewrite elem_of_filter. intros [Hshow _].
      destruct Hlive as (Hpane & _ & Hd).
      unfold shows_ready, capture_pane, pane_of in Hshow.
      unfold pane_of in Hpane. rewrite Hp1 in Hshow.
      destruct (pane_mapping w !! i0) as [[|c pn]|]; try by destruct Hpane.
      by rewrite Hd in Hshow.
    + simpl. assert (step_index s < step_index s1); [|lia].
      apply (Hprog1 i0); try done; [|apply NoDup_seq].
      apply elem_of_seq. lia.
  - exists it, s, w. apply Nat.ltb_ge in Hlt.
    split; [done|]. split; [done|]. lia.
Qed.

End Loop.

Section Trace.
Variable a : args.
Variable prompt : BuildPrompt.
Variable e : env.
Variable w0 : world.

Lemma check_agent_ready_pane w i screen :
  check_agent_ready w i screen = true → is_Some (pane_of w i).
Proof.
  unfold check_agent_ready, capture_pane.
  destruct (pane_of w i); [by eexists|done].
Qed.

(** The calls of one [send_prompt] that returns, to an agent with a pane. *)
Lemma send_prompt_calls i p w w' :
  is_Some (pane_of w i) →
  send_prompt i p w = (Returns tt, w') →
  pane_mapping w' = pane_mapping w
  ∧ (∀ j, uid_of w' j = uid_of w j)
  ∧ tmux_calls w' = tmux_calls w
                    ++ match uid_of w i with
                       | Some u => prompt_calls i p u
                       | None => []
                       end.
Proof.
  intros [pn Hpn] Hrun.
  assert (uid_of w i = agents w !! i ≫= uid) as Huid by done.
  destruct (agents w !! i) as [ag|] eqn:Hag.
  - destruct (uid ag) as [u|] eqn:Hu.
    + destruct (send_prompt_run i p w ag u Hag Hu)
        as (w1 & Hrun1 & Hp & _ & _ & _ & Hagents & Hcalls).
      rewrite Hrun1 in Hrun. injection Hrun as <-.
      split; [done|]. split; [by eapply uid_of_insert_status|].
      rewrite Hcalls, Hpn, Huid. cbn. by rewrite Hu.
    + unfold send_prompt in Hrun. by rewrite get_bind, Hag, Hu in Hrun.
  - rewrite send_prompt_absent in Hrun by done. injection Hrun as <-.
    rewrite Huid. cbn. by rewrite app_nil_r.
Qed.

(** The state of the sequential loop agrees with the calls made to tmux
    since [w0]: they are the calls of the assignments made, which all went
    to agents among the [n_agents]. *)
Local Abbreviation traced s w :=
  (pane_mapping w = pane_mapping w0
   ∧ (∀ j, uid_of w j = uid_of w0 j)
   ∧ sched_inv a prompt s
   ∧ tmux_calls w = tmux_calls w0 ++ assignment_calls a w0 (assignments s)
   ∧ ∀ p, p ∈ assignments s → p.1 < n_agents a).

Lemma assign_traced it s i w s' w' :
  i < n_agents a →
  traced s w →
  assign a prompt e it s i w = (Returns s', w') →
  traced s' w'.
Proof.
  intros Hi (Hp & Hu & Hinv & Hcalls & Hwho) Hrun.
  destruct (assign_shape a prompt e it s i w Hinv) as [H|(Hiw & Hlt & Hc & H)];
    rewrite H in Hrun.
  { injection Hrun as <- <-. done. }
  set (bundle := take (bundle_size a) (drop (step_index s) (steps prompt))) in *.
  unfold mbind, M_bind in Hrun.
  destruct (send_prompt i (assignment_prompt a bundle) w) as [[[]| |] w1] eqn:Hs;
    [|done..].
  injection Hrun as <- <-.
  destruct (send_prompt_calls _ _ _ _ (check_agent_ready_pane _ _ _ Hc) Hs)
    as (Hp1 & Hu1 & Hcalls1).
  split_and!.
  - by rewrite Hp1.
  - intros j. by rewrite Hu1.
  - by apply sched_inv_after_assignment.
  - rewrite Hcalls1, Hcalls, <- app_assoc. f_equal.
    cbn [after_assignment assignments]. fold bundle.
    unfold assignment_calls. rewrite bind_app. f_equal.
    cbn. by rewrite app_nil_r, Hu.
  - intros p. cbn [after_assignment assignments].
    intros [Hin|Hin]%elem_of_app; [by apply Hwho|].
    by apply list_elem_of_singleton in Hin as ->.
Qed.

Lemma sweep_traced it l : ∀ s w s' w',
  (∀ i, i ∈ l → i < n_agents a) →
  traced s w →
  for_each l (assign a prompt e it) s w = (Returns s', w') →
  traced s' w'.
Proof.
  induction l as [|i l IH]; intros s w s' w' Hl Htr Hrun.
  - by injection Hrun as <- <-.
  - cbn [for_each] in Hrun. unfold mbind, M_bind in Hrun.
    destruct (assign a prompt e it s i w) as [[s1| |] w1] eqn:Ha; [|done..].
    eapply IH; [|eapply assign_traced; [|exact Htr|exact Ha]|exact Hrun].
    + intros j Hj. apply Hl. by right.
    + apply Hl. left.
Qed.

Lemma assign_loop_traced fuel : ∀ it s w it' s' w',
  traced s w →
  assign_loop a prompt e fuel it s w = (Returns (it', s'), w') →
  traced s' w'.
Proof.
  induction fuel as [|fuel IH]; intros it s w it' s' w' Htr Hrun; [done|].
  rewrite assign_loop_S in Hrun.
  destruct (running e it && (step_index s <? length (steps prompt))).
  - unfold mbind, M_bind in Hrun.
    destruct (for_each _ _ s w) as [[s1| |] w1] eqn:Hsweep; [|done..].
    rewrite poll_run in Hrun.
    eapply IH; [|exact Hrun].
    assert (∀ i, i ∈ seq 0 (n_agents a) → i < n_agents a) as Hseq
      by (intros i Hi%elem_of_seq; lia).
    destruct (sweep_traced it _ _ _ _ _ Hseq Htr Hsweep) as (? & ? & ? & ? & ?).
    split_and!; [done..|by apply sched_inv_poll|done|done].
  - by injection Hrun as <- <- <-.
Qed.

(** Among the calls of a list of assignments to launched agents, the
    prompts sent are one for each bundle, in order. *)
Lemma sent_assignment_calls w calls assigned :
  (∀ p, p ∈ assigned → p.1 < n_agents a ∧ is_Some (uid_of w0 p.1)) →
  tmux_calls w = calls ++ assignment_calls a w0 assigned →
  ∃ new,
    sent_to_panes w = omap (λ c, match c with
                        | SendToPane i command _ => Some (i, command)
                        | _ => None
                        end) calls ++ new
    ∧ Forall2 (assigns a w0) new assigned.*2.
Proof.
  intros Hall Hcalls. unfold sent_to_panes. rewrite Hcalls, omap_app.
  eexists. split; [reflexivity|]. clear Hcalls.
  induction assigned as [|[i bundle] assigned IH]; [constructor|].
  destruct (Hall (i, bundle)) as [Hi [u Hu]]; [left|]. cbn [fst] in Hi, Hu.
  unfold assignment_calls. rewrite bind_cons, omap_app. cbn [fst snd].
  rewrite Hu. cbn [prompt_calls omap list_omap app fmap list_fmap snd].
  constructor.
  - split; [done|]. by exists u.
  - apply IH. intros p Hp. apply Hall. by right.
Qed.

End Trace.

(** The prompt of a bundle names every step of the bundle. *)
Lemma assignment_prompt_holds a (l : list BuildStep) k bundle step :
  chunks (bundle_size a) l !! k = Some bundle →
  step ∈ bundle →
  occurs_in (py "Step " ++ str_of_int (number step) ++ py ": " ++ content step)
            (assignment_prompt a bundle).
Proof.
  intros Hk Hstep.
  unfold chunks in Hk. rewrite list_lookup_fmap in Hk.
  destruct (seq 0 _ !! k) as [k'|] eqn:Hseq; [|done].
  injection Hk as Hbundle.
  unfold assignment_prompt. unfold bundle_size in Hbundle.
  destruct (bundling a) as [b|].
  - unfold bundled_prompt. apply occurs_in_app_l, occurs_in_app_r.
    eapply occurs_in_trans; [apply (proj1 (step_lines_holds step))|].
    by apply bind_step_lines_holds.
  - destruct (drop (k' * 1) l) as [|s0 rest]; cbn in Hbundle; subst bundle.
    { by apply not_elem_of_nil in Hstep. }
    rewrite take_0 in Hstep. apply list_elem_of_singleton in Hstep as ->.
    rewrite take_0. unfold step_prompt.
    destruct (described s0) as [dd|]; [|apply occurs_in_refl].
    apply occurs_in_app_r, occurs_in_refl.
Qed.

Lemma two_agents_live i : i < 2 → live_agent always_ready two_agents i.
Proof.
  intros Hi. split; [|split; intros it; reflexivity].
  destruct i as [|[|i]]; [eexists; reflexivity..|lia].
Qed.

(** C2. In sequential mode the scheduler sends the steps to the agents as
    the contiguous bundles of the step list, in order. What the first loop
    asks of tmux is, for each assignment it makes and in the order in which
    it makes them, the prompt of the bundle sent to the pane of the agent
    with the uid of the agent after it, and the title of that pane; it asks
    nothing else, and the agents are among the [n_agents]. The bundles
    assigned are at every moment the first bundles of the step list: each
    assignment takes the next [bundle_size] steps (what remains, when fewer
    remain) and moves the cursor past them. So when the agents have been
    launched, the prompts sent to the panes during the loop are one for
    each bundle assigned, in that order, and the prompt of a bundle names
    each of its steps. When the loop ends with the flag [RUNNING] still set,
    the bundles are exactly the contiguous bundles of the steps, so every
    step has been sent once, in ascending position. With the flag set
    throughout and one live agent among the [n_agents], however many there
    are, the loop does end so, within as many turns as there are steps. *)
Theorem sequential_assignment :
  ∀ a prompt e,
    let b := bundle_size a in
    let init := mk_sched 0 ∅ [] in
    (∀ fuel w it s w',
       assign_loop a prompt e fuel 0 init w = (Returns (it, s), w') →
       (∃ k, bundles s = take k (chunks b (steps prompt))
             ∧ step_index s = (k * b) `min` length (steps prompt))
       ∧ concat (bundles s) = take (step_index s) (steps prompt)
       ∧ (running e it = true →
          bundles s = chunks b (steps prompt)
          ∧ concat (bundles s) = steps prompt)
       ∧ tmux_calls w' = tmux_calls w ++ assignment_calls a w (assignments s)
       ∧ (∀ p, p ∈ assignments s → p.1 < n_agents a)
       ∧ ((∀ i, i < n_agents a → is_Some (uid_of w i)) →
          ∃ new, sent_to_panes w' = sent_to_panes w ++ new
                 ∧ Forall2 (assigns a w) new (bundles s)))
    ∧ (∀ w i0,
         (∀ k, running e k = true) → i0 < n_agents a →
         live_agent e w i0 → registered_agents w →
         ∃ it s w',
           assign_loop a prompt e (S (length (steps prompt))) 0 init w
           = (Returns (it, s), w')
           ∧ bundles s = chunks b (steps prompt)
           ∧ concat (bundles s) = steps prompt
           ∧ tmux_calls w' = tmux_calls w ++ assignment_calls a w (assignments s)
           ∧ ((∀ i, i < n_agents a → is_Some (uid_of w i)) →
              ∃ new, sent_to_panes w' = sent_to_panes w ++ new
                     ∧ Forall2 (assigns a w) new (chunks b (steps prompt))))
    ∧ (∀ k bundle step,
         chunks b (steps prompt) !! k = Some bundle → step ∈ bundle →
         occurs_in (py "Step " ++ str_of_int (number step) ++ py ": "
                    ++ content step)
                   (assignment_prompt a bundle))
    ∧ (∀ k, k * b < length (steps prompt) →
         chunks b (steps prompt) !! k
         = Some (take b (drop (k * b) (steps prompt)))
         ∧ length (take b (drop (k * b) (steps prompt)))
           = b `min` (length (steps prompt) - k * b))
    ∧ (∀ B, bundle_steps a = Some B → (1 < B)%Z → b = Z.to_nat B)
    ∧ (∀ B, bundle_steps a = Some B → (B <= 1)%Z → b = 1)
    ∧ (bundle_steps a = None → b = 1).
Proof.
  intros a prompt e b init. subst b init.
  assert (∀ fuel w it s w',
    assign_loop a prompt e fuel 0 (mk_sched 0 ∅ []) w = (Returns (it, s), w') →
    tmux_calls w' = tmux_calls w ++ assignment_calls a w (assignments s)
    ∧ (∀ p, p ∈ assignments s → p.1 < n_agents a)
    ∧ ((∀ i, i < n_agents a → is_Some (uid_of w i)) →
       ∃ new, sent_to_panes w' = sent_to_panes w ++ new
              ∧ Forall2 (assigns a w) new (bundles s))) as Htrace.
  { intros fuel w it s w' Hrun.
    destruct (assign_loop_traced a prompt e w fuel 0 (mk_sched 0 ∅ []) w it s w')
      as (_ & _ & _ & Hcalls & Hwho); [|done|].
    { split_and!; [done|done|apply sched_inv_init|by rewrite app_nil_r|].
      intros p Hp. by apply not_elem_of_nil in Hp. }
    split; [done|]. split; [done|]. intros Hall.
    apply (sent_assignment_calls a w w' (tmux_calls w) (assignments s)); [|done].
    intros p Hp. split; [by apply Hwho|]. by apply Hall, Hwho. }
  split.
  { intros fuel w it s w' Hrun.
    destruct (assign_loop_inv a prompt e fuel 0 _ w it s w'
                (sched_inv_init a prompt) Hrun) as [Hinv Hend].
    destruct (sched_inv_bundles a prompt s Hinv) as (_ & Hconcat & Hall).
    split; [exact Hinv|]. split; [exact Hconcat|].
    split; [|by eapply Htrace].
    intros Hr. apply Hall, Hend, Hr. }
  split.
  { intros w i0 Hrun Hi0 Hlive Hreg.
    destruct (assign_loop_ends a prompt e i0 (length (steps prompt)) 0
                (mk_sched 0 ∅ []) w Hrun Hi0 Hlive Hreg (sched_inv_init a prompt))
      as (it & s & w' & Hloop & Hinv & Hend).
    - apply not_elem_of_empty.
    - simpl. lia.
    - exists it, s, w'. split; [done|].
      destruct (sched_inv_bundles a prompt s Hinv) as (_ & _ & Hall).
      destruct (Hall Hend) as [Hb Hc].
      destruct (Htrace _ _ _ _ _ Hloop) as (Hcalls & _ & Hsent).
      split; [done|]. split; [done|]. split; [done|].
      rewrite <- Hb. exact Hsent. }
  split; [intros k bundle step; apply assignment_prompt_holds|].
  split.
  { intros k Hk. split.
    - apply lookup_chunks; [done|apply bundle_size_pos].
    - by rewrite length_take, length_drop. }
  split.
  { intros B HB Hlt. unfold bundle_size, bundling. rewrite HB.
    apply Z.ltb_lt in Hlt. by rewrite Hlt. }
  split.
  - intros B HB Hle. unfold bundle_size, bundling. rewrite HB.
    apply Z.ltb_ge in Hle. by rewrite Hle.
  - intros HB. unfold bundle_size, bundling. by rewrite HB.
Qed.

(** C2 for five steps and bundles of two, with two agents: the prompts
    sent are those of steps 1 and 2 to agent 0, of steps 3 and 4 to agent 1
    and of step 5 to agent 0, in that order. *)
Lemma sequential_assignment_witness :
  let a := mk_args 2 true true false (Some 2%Z) in
  let bundle k := take 2 (drop (2 * k) (steps five_steps)) in
  ∃ it s w',
    assign_loop a five_steps always_ready 6 0 (mk_sched 0 ∅ []) two_agents
    = (Returns (it, s), w')
    ∧ (λ bundle : list BuildStep, number <$> bundle) <$> bundles s
      = [[1; 2]; [3; 4]; [5]]%Z
    ∧ tmux_calls w' = assignment_calls a two_agents (assignments s)
    ∧ Forall2 (assigns a two_agents) (sent_to_panes w')
              [bundle 0; bundle 1; bundle 2]
    ∧ sent_to_panes w'
      = [(0, salted (bundled_prompt (bundle 0)) uid_0);
         (1, salted (bundled_prompt (bundle 1)) uid_1);
         (0, salted (bundled_prompt (bundle 2)) uid_0)].
Proof.
  intros a bundle.
  destruct (sequential_assignment a five_steps always_ready) as (_ & Hends & _).
  destruct (Hends two_agents 0)
    as (it & s & w' & Hrun & Hbundles & _ & Hcalls & Hsent).
  - reflexivity.
  - simpl. lia.
  - apply two_agents_live. lia.
  - apply OrchestratorFacts.two_agents_registered.
  - exists it, s, w'. split; [exact Hrun|].
    split; [by rewrite Hbundles|]. split; [exact Hcalls|]. split.
    + destruct Hsent as (new & -> & Hnew); [|exact Hnew].
      intros i Hi. destruct i as [|[|i]]; [by eexists..|cbn in Hi; lia].
    + vm_compute in Hrun. injection Hrun as _ _ <-. vm_compute. reflexivity.
Defined.

End SchedulerFacts.

(** ** [run] and its cleanup *)

Module RunFacts.
Import Launcher Orchestrator LauncherFacts.

Create HintDb effects discriminated.

Lemma extends_refl w : extends w w.
Proof. split; [done|]. exists []. by rewrite app_nil_r. Qed.

Lemma extends_trans w1 w2 w3 : extends w1 w2 → extends w2 w3 → extends w1 w3.
Proof.
  intros [Hp1 [m1 Hc1]] [Hp2 [m2 Hc2]]. split; [by rewrite Hp2|].
  exists (m1 ++ m2). by rewrite Hc2, Hc1, (assoc_L (++)).
Qed.

Lemma extends_same w w' :
  pane_mapping w' = pane_mapping w → tmux_calls w' = tmux_calls w → extends w w'.
Proof. intros Hp Hc. split; [done|]. exists []. by rewrite app_nil_r. Qed.

Lemma extends_log_call c w : extends w (log_call c w).
Proof. split; [done|]. by exists [c]. Qed.

Section Combinators.
Context {A B : Type}.

Lemma growing_ret (x : A) : growing (mret x : M A).
Proof. intros w out w' [= <- <-]. apply extends_refl. Qed.

Lemma growing_raise x : growing (raise x : M A).
Proof. intros w out w' [= <- <-]. apply extends_refl. Qed.

Lemma growing_pending : growing (pending : M A).
Proof. intros w out w' [= <- <-]. apply extends_refl. Qed.

Lemma growing_bind (m : M A) (k : A → M B) :
  growing m → (∀ x, growing (k x)) → growing (m ≫= k).
Proof.
  intros Hm Hk w out w'. unfold mbind, M_bind.
  destruct (m w) as [[x|x|] w1] eqn:Hmw.
  - intros Hkw. eapply extends_trans; [by eapply Hm|by eapply Hk].
  - intros [= <- <-]. by eapply Hm.
  - intros [= <- <-]. by eapply Hm.
Qed.

Lemma settles_ret (x : A) : settles (mret x : M A).
Proof. by intros w. Qed.

Lemma settles_raise x : settles (raise x : M A).
Proof. by intros w. Qed.

Lemma settles_bind (m : M A) (k : A → M B) :
  settles m → (∀ x, settles (k x)) → settles (m ≫= k).
Proof.
  intros Hm Hk w. unfold mbind, M_bind. specialize (Hm w).
  destruct (m w) as [[x|x|] w1]; [apply Hk|done|done].
Qed.

End Combinators.

Lemma growing_get : growing get.
Proof. intros w out w' [= <- <-]. apply extends_refl. Qed.

Lemma settles_get : settles get.
Proof. by intros w. Qed.

Lemma growing_modify f : (∀ w, extends w (f w)) → growing (modify f).
Proof. intros Hf w out w' [= <- <-]. apply Hf. Qed.

Lemma settles_modify f : settles (modify f).
Proof. by intros w. Qed.

Lemma growing_for_each {X S} (l : list X) (body : S → X → M S) s :
  (∀ s x, growing (body s x)) → growing (for_each l body s).
Proof.
  intros Hbody. revert s. induction l as [|x l IH]; intros s; simpl.
  - apply growing_ret.
  - apply growing_bind; [apply Hbody|apply IH].
Qed.

Lemma settles_for_each {X S} (l : list X) (body : S → X → M S) s :
  (∀ s x, settles (body s x)) → settles (for_each l body s).
Proof.
  intros Hbody. revert s. induction l as [|x l IH]; intros s; simpl.
  - apply settles_ret.
  - apply settles_bind; [apply Hbody|apply IH].
Qed.

#[local] Hint Resolve growing_ret growing_raise growing_pending growing_get
  settles_ret settles_raise settles_get settles_modify extends_refl
  extends_log_call : effects.

Lemma growing_send_to_pane i c en : growing (send_to_pane i c en).
Proof.
  apply growing_modify. intros w. destruct (pane_of w i); auto with effects.
Qed.

Lemma growing_set_pane_title i t : growing (set_pane_title i t).
Proof.
  apply growing_modify. intros w. destruct (pane_of w i); auto with effects.
Qed.

Lemma growing_kill_session : growing kill_session.
Proof. apply growing_modify. auto with effects. Qed.

Lemma growing_set_agent i ag : growing (modify (set_agent i ag)).
Proof. apply growing_modify. intros w. by apply extends_same. Qed.

Lemma growing_coord_register_agent i r : growing (coord_register_agent i r).
Proof.
  intros w out w'. unfold coord_register_agent.
  destruct (Coordination.register_agent _ _ _ _ _) as [[u f]|x];
    intros [= <- <-]; by apply extends_same.
Qed.

Lemma settles_coord_register_agent i r : settles (coord_register_agent i r).
Proof.
  intros w. unfold coord_register_agent.
  by destruct (Coordination.register_agent _ _ _ _ _) as [[u f]|x].
Qed.

#[local] Hint Resolve growing_send_to_pane growing_set_pane_title
  growing_kill_session growing_set_agent growing_coord_register_agent
  settles_coord_register_agent : effects.

Ltac effects :=
  repeat first
    [ progress auto with effects
    | apply growing_bind; [|intros ?]
    | apply settles_bind; [|intros ?]
    | apply growing_for_each; intros ? ?
    | apply settles_for_each; intros ? ?
    | unfold send_to_pane, set_pane_title, kill_session; apply settles_modify
    | match goal with
      | |- context [match ?x with _ => _ end] => destruct x
      end ].

Lemma growing_launch_agent i pp r : growing (launch_agent i pp r).
Proof. unfold launch_agent. effects. Qed.

Lemma settles_launch_agent i pp r : settles (launch_agent i pp r).
Proof. unfold launch_agent. effects. Qed.

Lemma growing_send_prompt i p : growing (send_prompt i p).
Proof. unfold send_prompt. effects. Qed.

Lemma settles_send_prompt i p : settles (send_prompt i p).
Proof. unfold send_prompt. effects. Qed.

#[local] Hint Resolve growing_launch_agent settles_launch_agent
  growing_send_prompt settles_send_prompt : effects.

Section Run.
Variable a : args.
Variable prompt : BuildPrompt.
Variable project_path : str.
Variable e : env.

Lemma growing_send_initial_prompts : growing (_send_initial_prompts a prompt).
Proof. unfold _send_initial_prompts, _send_all_steps_to_agent. effects. Qed.

Lemma settles_send_initial_prompts : settles (_send_initial_prompts a prompt).
Proof. unfold _send_initial_prompts, _send_all_steps_to_agent. effects. Qed.

Lemma growing_launch_all l : growing (launch_all project_path e l).
Proof. induction l as [|i l IH]; simpl; effects. Qed.

Lemma settles_launch_all l : settles (launch_all project_path e l).
Proof. induction l as [|i l IH]; simpl; effects. Qed.

Lemma growing_assign it s i : growing (assign a prompt e it s i).
Proof. unfold assign. effects. Qed.

Lemma settles_assign it s i : settles (assign a prompt e it s i).
Proof. unfold assign. effects. Qed.

Lemma growing_poll it s : growing (poll e it s).
Proof. unfold poll. effects. Qed.

Lemma settles_poll it s : settles (poll e it s).
Proof. unfold poll. effects. Qed.

#[local] Hint Resolve growing_assign settles_assign growing_poll settles_poll
  growing_send_initial_prompts settles_send_initial_prompts
  growing_launch_all settles_launch_all : effects.

Lemma growing_assign_loop fuel it s : growing (assign_loop a prompt e fuel it s).
Proof.
  revert it s. induction fuel as [|fuel IH]; intros it s; simpl; effects.
Qed.

Lemma growing_wait_loop fuel it s : growing (wait_loop e fuel it s).
Proof.
  revert it s. induction fuel as [|fuel IH]; intros it s; simpl; effects.
Qed.

Lemma growing_idle_loop fuel k : growing (idle_loop e fuel k).
Proof.
  revert k. induction fuel as [|fuel IH]; intros k; simpl; effects.
Qed.

#[local] Hint Resolve growing_assign_loop growing_wait_loop growing_idle_loop
  : effects.

Lemma growing_run_body fuel : growing (run_body a prompt project_path e fuel).
Proof. unfold run_body, _orchestrate_steps. effects. Qed.

(** A monitoring loop ends at the turn at which the flag is found
    cleared. *)
Lemma idle_loop_ends k1 fuel k w :
  idle_running e k1 = false → k ≤ k1 → k1 - k < fuel →
  idle_loop e fuel k w = (Returns tt, w).
Proof.
  intros Hstop. revert k. induction fuel as [|fuel IH]; intros k Hk Hfuel; [lia|].
  simpl. destruct (idle_running e k) eqn:Hr; [|done].
  assert (k ≠ k1) by congruence. apply IH; lia.
Qed.

(** The assignment loop is over by the turn at which the flag is found
    cleared. *)
Lemma assign_loop_settles k0 fuel it s w :
  running e k0 = false → it ≤ k0 → k0 - it < fuel →
  match (assign_loop a prompt e fuel it s w).1 with
  | Returns r => r.1 ≤ k0
  | Raises _ => True
  | Pending => False
  end.
Proof.
  intros Hstop. revert it s w.
  induction fuel as [|fuel IH]; intros it s w Hit Hfuel; [exfalso; lia|].
  simpl. destruct (running e it) eqn:Hr; [|done]. simpl.
  destruct (step_index s <? length (steps prompt)); [|done].
  assert (it ≠ k0) by congruence.
  unfold mbind, M_bind.
  pose proof (settles_for_each (seq 0 (n_agents a)) (assign a prompt e it) s
                (λ s x, settles_assign it s x) w) as Hsweep.
  destruct (for_each _ _ s w) as [[s1|x|] w1]; [|done|done].
  rewrite SchedulerFacts.poll_run. apply IH; lia.
Qed.

Lemma wait_loop_settles k0 fuel it s w :
  running e k0 = false → it ≤ k0 → k0 - it < fuel →
  (wait_loop e fuel it s w).1 ≠ Pending.
Proof.
  intros Hstop. revert it s w.
  induction fuel as [|fuel IH]; intros it s w Hit Hfuel; [exfalso; lia|].
  simpl. destruct (running e it) eqn:Hr; [|done]. simpl.
  case_bool_decide; [|done].
  assert (it ≠ k0) by congruence.
  unfold mbind, M_bind. rewrite SchedulerFacts.poll_run. apply IH; lia.
Qed.

(** Once the operator has interrupted, [_orchestrate_steps] is over. *)
Lemma orchestrate_steps_settles k0 k1 fuel w :
  running e k0 = false → idle_running e k1 = false →
  k0 < fuel → k1 < fuel →
  (_orchestrate_steps a prompt e fuel w).1 ≠ Pending.
Proof.
  intros Hstop Hidle Hk0 Hk1. unfold _orchestrate_steps.
  destruct (collaborative a).
  - rewrite (idle_loop_ends k1); [done|done|lia|lia].
  - unfold mbind, M_bind.
    pose proof (assign_loop_settles k0 fuel 0 (mk_sched 0 ∅ []) w Hstop
                  ltac:(lia) ltac:(lia)) as Hloop.
    destruct (assign_loop _ _ _ _ _ _ w) as [[[it s]|x|] w1]; simpl in *;
      [|done|done].
    pose proof (wait_loop_settles k0 fuel it s w1 Hstop Hloop ltac:(lia)) as Hwait.
    by destruct (wait_loop _ _ _ _ w1) as [[s2|x|] w2].
Qed.

Lemma run_body_settles k0 k1 fuel w :
  running e k0 = false → idle_running e k1 = false →
  k0 < fuel → k1 < fuel →
  (run_body a prompt project_path e fuel w).1 ≠ Pending.
Proof.
  intros Hstop Hidle Hk0 Hk1. unfold run_body, mbind, M_bind.
  pose proof (settles_launch_all (seq 0 (n_agents a)) w) as Hlaunch.
  destruct (launch_all _ _ _ w) as [[[]|x|] w1]; [|done|done].
  pose proof (settles_send_initial_prompts w1) as Hsend.
  destruct (_send_initial_prompts _ _ w1) as [[[]|x|] w2]; [|done|done].
  case_bool_decide.
  - by apply (orchestrate_steps_settles k0 k1).
  - rewrite (idle_loop_ends k1); [done|done|lia|lia].
Qed.

(** The loop of [_cleanup] that tells every agent to exit. *)
Lemma exit_loop_run l w :
  ∃ w', for_each l (λ _ i, send_to_pane i (py "/exit") true) tt w
        = (Returns tt, w')
        ∧ pane_mapping w' = pane_mapping w ∧ agents w' = agents w
        ∧ registry w' = registry w ∧ work_claims w' = work_claims w
        ∧ completed_work w' = completed_work w
        ∧ tmux_calls w' = tmux_calls w
            ++ (l ≫= λ i, match pane_of w i with
                          | Some _ => [SendToPane i (py "/exit") true]
                          | None => []
                          end).
Proof.
  revert w. induction l as [|i l IH]; intros w.
  - exists w. simpl. by rewrite app_nil_r.
  - destruct (send_to_pane_run i (py "/exit") true w)
      as (w1 & H1 & Hp1 & Ha1 & Hr1 & Hc1 & Hd1 & Ht1).
    destruct (IH w1) as (w2 & H2 & Hp2 & Ha2 & Hr2 & Hc2 & Hd2 & Ht2).
    assert (∀ j, pane_of w1 j = pane_of w j) as Hpane
      by (intros j; unfold pane_of; by rewrite Hp1).
    assert (l ≫= (λ j, match pane_of w1 j with
                       | Some _ => [SendToPane j (py "/exit") true]
                       | None => []
                       end)
            = l ≫= (λ j, match pane_of w j with
                         | Some _ => [SendToPane j (py "/exit") true]
                         | None => []
                         end)) as Hbind.
    { clear -Hpane. induction l as [|j l IHl]; [done|].
      by rewrite !bind_cons, Hpane, IHl. }
    exists w2. rewrite bind_cons.
    change (for_each (i :: l) ?body tt) with (body tt i ≫= for_each l body).
    rewrite (bind_returns _ _ _ _ _ H1).
    split; [exact H2|]. split; [by rewrite Hp2|]. split; [by rewrite Ha2|].
    split; [by rewrite Hr2|]. split; [by rewrite Hc2|]. split; [by rewrite Hd2|].
    by rewrite Ht2, Ht1, <- (assoc_L (++)), Hbind.
Qed.

(** [_cleanup] always returns, having told every agent that has a pane to
    exit, then killed the session and reset the coordination directory as
    the arguments ask. *)
Lemma cleanup_run w :
  ∃ w', _cleanup a w = (Returns tt, w')
        ∧ tmux_calls w' = tmux_calls w ++ cleanup_calls a w
        ∧ pane_mapping w' = pane_mapping w
        ∧ (cleanup_coordination a = true →
           registry w' = Coordination.Json (Coordination.JObject ∅)
           ∧ work_claims w' = [] ∧ completed_work w' = None)
        ∧ (cleanup_coordination a = false →
           registry w' = registry w ∧ work_claims w' = work_claims w
           ∧ completed_work w' = completed_work w).
Proof.
  destruct (exit_loop_run (seq 0 (n_agents a)) w)
    as (w1 & H1 & Hp1 & Ha1 & Hr1 & Hc1 & Hd1 & Ht1).
  unfold _cleanup, cleanup_calls. rewrite (bind_returns _ _ _ _ _ H1).
  destruct (kill_on_exit a), (cleanup_coordination a);
    (eexists; split; [reflexivity|]); simpl; rewrite Ht1, ?Hp1, ?Hr1, ?Hc1, ?Hd1;
    rewrite <- ?(assoc_L (++)), ?app_nil_r; repeat split; try done.
Qed.

End Run.

(** Whatever the body does, short of staying in a loop, the [finally]
    part runs on the world the body leaves, and its outcome is that of the
    whole statement. *)
Lemma try_finally_runs {A} (body : M A) final w :
  (body w).1 ≠ Pending → try_finally body final w = final (body w).2.
Proof. unfold try_finally. by destruct (body w) as [[x|x|] w1]. Qed.

(** C3, as the code has it. When tmux fails to create the session, [run]
    returns at once: nothing is cleaned up. In every other execution in
    which [run] returns, whatever happened in the [try] block and whichever
    exception ended it, [run] returns only after [_cleanup] has run on the
    world the block left: every agent that has a pane has been told to
    exit, then the session has been killed when [kill_on_exit] is set, and
    the coordination directory has been reset when [cleanup_coordination]
    is set and left alone otherwise; these are the last calls made. And
    [run] does return once the operator has interrupted the loops. *)
Theorem run_cleanup :
  ∀ a prompt project_path e fuel w,
    (create_session e = None →
       run a prompt project_path e fuel w = (Returns tt, w))
    ∧ (∀ panes out w',
         create_session e = Some panes →
         run a prompt project_path e fuel w = (out, w') → out ≠ Pending →
         out = Returns tt
         ∧ ∃ w1,
             extends (set_panes panes w) w1
             ∧ tmux_calls w' = tmux_calls w1 ++ cleanup_calls a w1
             ∧ (cleanup_coordination a = true →
                registry w' = Coordination.Json (Coordination.JObject ∅)
                ∧ work_claims w' = [] ∧ completed_work w' = None)
             ∧ (cleanup_coordination a = false →
                registry w' = registry w1 ∧ work_claims w' = work_claims w1
                ∧ completed_work w' = completed_work w1))
    ∧ (∀ panes k0 k1,
         create_session e = Some panes →
         running e k0 = false → idle_running e k1 = false →
         k0 < fuel → k1 < fuel →
         (run a prompt project_path e fuel w).1 = Returns tt)
    ∧ (∀ A (body : M A) w0,
         (body w0).1 ≠ Pending →
         try_finally body (_cleanup a) w0 = _cleanup a (body w0).2)
    ∧ (∀ w1 i, i < n_agents a → is_Some (pane_of w1 i) →
         SendToPane i (py "/exit") true ∈ cleanup_calls a w1)
    ∧ (∀ w1, kill_on_exit a = true → KillSession ∈ cleanup_calls a w1).
Proof.
  intros a prompt project_path e fuel w.
  split; [by intros Hno; unfold run; rewrite Hno|].
  split.
  { intros panes out w' Hsession Hrun Hout. unfold run in Hrun.
    rewrite Hsession, modify_bind in Hrun. unfold try_finally in Hrun.
    pose proof (growing_run_body a prompt project_path e fuel
                  (set_panes panes w)) as Hgrow.
    destruct (run_body a prompt project_path e fuel (set_panes panes w))
      as [body_out w1] eqn:Hbody.
    specialize (Hgrow body_out w1 eq_refl).
    destruct (cleanup_run a w1) as (w2 & Hclean & Hcalls & _ & Hreset & Hkeep).
    assert (out = Returns tt ∧ w' = w2) as [-> ->].
    { destruct body_out; rewrite ?Hclean in Hrun;
        by injection Hrun as <- <-. }
    split; [done|]. by exists w1. }
  split.
  { intros panes k0 k1 Hsession Hstop Hidle Hk0 Hk1. unfold run.
    rewrite Hsession, modify_bind.
    rewrite try_finally_runs
      by by apply (run_body_settles a prompt project_path e k0 k1).
    by destruct (cleanup_run a
                   (run_body a prompt project_path e fuel (set_panes panes w)).2)
      as (w2 & -> & _). }
  split; [intros A body w0; apply try_finally_runs|].
  split.
  - intros w1 i Hi [pn Hpn]. unfold cleanup_calls.
    rewrite elem_of_app, list_elem_of_bind. left. exists i.
    rewrite Hpn, list_elem_of_singleton, elem_of_seq. split; [done|lia].
  - intros w1 Hkill. unfold cleanup_calls. rewrite Hkill, elem_of_app.
    right. by apply list_elem_of_singleton.
Qed.

(** C3 on a run that fails while launching: the registry file is not
    JSON, so the first [launch_agent] raises; [run] returns after telling
    both panes to exit and killing the session. *)
Lemma run_cleanup_witness :
  let a := mk_args 2 true true false None in
  ∃ w',
    run a two_steps (py "/srv/app") interrupted 4 corrupt_registry
    = (Returns tt, w')
    ∧ (∃ before, tmux_calls w'
                 = before ++ [SendToPane 0 (py "/exit") true;
                              SendToPane 1 (py "/exit") true; KillSession])
    ∧ registry w' = Coordination.Json (Coordination.JObject ∅).
Proof.
  intros a.
  destruct (run_cleanup a two_steps (py "/srv/app") interrupted 4 corrupt_registry)
    as (_ & Hclean & Hreturns & _).
  pose proof (Hreturns (pane_mapping two_agents) 3 3 eq_refl eq_refl eq_refl
                ltac:(lia) ltac:(lia)) as Hout.
  destruct (run a two_steps (py "/srv/app") interrupted 4 corrupt_registry)
    as [out w'] eqn:Hrun.
  simpl in Hout. subst out. exists w'. split; [done|].
  destruct (Hclean (pane_mapping two_agents) (Returns tt) w' eq_refl eq_refl)
    as (_ & w1 & [Hpanes _] & Hcalls & Hreset & _); [done|].
  split; [|by apply Hreset].
  exists (tmux_calls w1). rewrite Hcalls. f_equal.
  unfold cleanup_calls, pane_of. rewrite Hpanes. reflexivity.
Defined.

(** C3 fails as stated: when tmux fails to create the session, [run]
    returns without a single call of the cleanup sequence, although the
    arguments ask for the session to be killed. *)
Lemma run_without_cleanup :
  let a := mk_args 2 true true false None in
  run a two_steps (py "/srv/app") no_session 4 fresh_world
  = (Returns tt, fresh_world)
  ∧ tmux_calls fresh_world = []
  ∧ tmux_calls (_cleanup a fresh_world).2 = [KillSession].
Proof. repeat split. Qed.

End RunFacts.

(** ** The text format of prompts *)

Module ParserFacts.
Import Parser.

(** A decimal digit is a digit for [isdigit], and is none of the other
    characters [int] and [split] look for. *)
Lemma decimal_char c :
  is_decimal c = true →
  isdigit c = true ∧ int_space c = false
  ∧ c ≠ "-"%char ∧ c ≠ "+"%char ∧ c ≠ "."%char ∧ c ≠ "_"%char.
Proof.
  destruct c as [[] [] [] [] [] [] [] []]; vm_compute; intros H;
    try discriminate H; repeat split; discriminate.
Qed.

Lemma lstrip_suffix s : ∃ pre, s = pre ++ lstrip s.
Proof.
  induction s as [|c s [pre IH]]; [by exists []|]. simpl.
  destruct (isspace c); [|by exists []].
  exists (c :: pre). simpl. by rewrite <- IH.
Qed.

(** A stripped string is a piece of the string. *)
Lemma strip_infix s : ∃ pre post, s = pre ++ strip s ++ post.
Proof.
  unfold strip, rstrip. destruct (lstrip_suffix s) as [pre Hpre].
  destruct (lstrip_suffix (rev (lstrip s))) as [post Hpost].
  exists pre, (rev post). rewrite <- rev_app_distr, <- Hpost, rev_involutive.
  exact Hpre.
Qed.

Lemma startswith_app p s t : startswith p s = true → startswith p (s ++ t) = true.
Proof.
  revert s. induction p as [|a p IH]; intros [|b s]; simpl; try done.
  intros [-> Hp]%andb_true_iff. simpl. by apply IH.
Qed.

Lemma startswith_self p t : startswith p (p ++ t) = true.
Proof. induction p as [|a p IH]; simpl; [done|]. by rewrite bool_decide_eq_true_2. Qed.

Lemma contains_startswith sub s : startswith sub s = true → contains sub s = true.
Proof. destruct s; simpl; intros ->; done. Qed.

Lemma contains_app_r sub s t : contains sub s = true → contains sub (s ++ t) = true.
Proof.
  induction s as [|c s IH]; simpl.
  - rewrite orb_false_r. intros H. apply contains_startswith.
    by apply (startswith_app sub [] t).
  - intros [H|H]%orb_true_iff; apply orb_true_iff.
    + left. by apply (startswith_app sub (c :: s) t).
    + right. by apply IH.
Qed.

Lemma contains_app_l sub s t : contains sub s = true → contains sub (t ++ s) = true.
Proof.
  intros H. induction t as [|c t IH]; simpl; [done|].
  rewrite IH. apply orb_true_r.
Qed.

Lemma contains_strip sub s : contains sub (strip s) = true → contains sub s = true.
Proof.
  intros H. destruct (strip_infix s) as (pre & post & Hs). rewrite Hs.
  by apply contains_app_l, contains_app_r.
Qed.

(** The test of the second loop implies that of the first. *)
Lemma is_step_line_starts raw :
  is_step_line (strip raw) = true → starts_steps raw = true.
Proof.
  unfold is_step_line, starts_steps. destruct (strip raw) as [|c t] eqn:Hs; [done|].
  intros [-> Hc]%andb_true_iff. simpl. apply contains_strip. by rewrite Hs.
Qed.

Lemma take_drop_digits s : s = take_digits s ++ drop_digits s.
Proof.
  induction s as [|c s IH]; simpl; [done|].
  destruct (is_decimal c); simpl; [by rewrite <- IH|done].
Qed.

Lemma take_digits_decimal s : forallb is_decimal (take_digits s) = true.
Proof.
  induction s as [|c s IH]; simpl; [done|].
  destruct (is_decimal c) eqn:Hc; simpl; [by rewrite Hc|done].
Qed.

(** What a numbered line is made of. *)
Lemma numbered_shape t n rest :
  numbered t = Some (n, rest) →
  take_digits t ≠ []
  ∧ t = take_digits t ++ py ". " ++ rest
  ∧ n = digits_value (take_digits t).
Proof.
  unfold numbered. case_bool_decide as Hne; [|done]. rewrite andb_true_l.
  destruct (startswith (py ". ") (drop_digits t)) eqn:Hdot; [|done].
  intros [= <- <-]. split; [done|]. split; [|done].
  rewrite (take_drop_digits t) at 1. f_equal.
  destruct (drop_digits t) as [|c1 [|c2 r]]; simpl in Hdot; try done.
  - by rewrite andb_false_r in Hdot.
  - apply andb_true_iff in Hdot as [H1 H2]. apply andb_true_iff in H2 as [H2 _].
    apply bool_decide_eq_true in H1, H2. by subst.
Qed.

(** A numbered line passes the test of the second loop. *)
Lemma numbered_is_step_line t n rest :
  numbered t = Some (n, rest) → is_step_line t = true.
Proof.
  intros (Hne & Ht & _)%numbered_shape.
  pose proof (take_digits_decimal t) as Hdec.
  destruct (take_digits t) as [|c ds] eqn:Hds; [done|].
  simpl in Hdec. apply andb_true_iff in Hdec as [Hc _].
  destruct (decimal_char c Hc) as (Hdigit & _).
  unfold is_step_line. rewrite Ht. cbn [app]. rewrite Hdigit, andb_true_l.
  apply (contains_app_l _ _ (c :: ds)), contains_startswith, startswith_self.
Qed.

(** [split('. ', 1)] cuts a numbered line after its digits. *)
Lemma partition_digits ds rest :
  forallb is_decimal ds = true →
  partition (py ". ") (ds ++ py ". " ++ rest) = Some (ds, rest).
Proof.
  induction ds as [|c ds IH]; intros Hdec.
  - reflexivity.
  - simpl in Hdec. apply andb_true_iff in Hdec as [Hc Hdec].
    destruct (decimal_char c Hc) as (_ & _ & _ & _ & Hdot & _).
    change ((c :: ds) ++ py ". " ++ rest) with (c :: (ds ++ py ". " ++ rest)).
    cbn [partition]. 
    assert (startswith (py ". ") (c :: (ds ++ py ". " ++ rest)) = false) as ->.
    { simpl. rewrite bool_decide_eq_false_2; [done|]. by intros <-. }
    by rewrite (IH Hdec).
Qed.

Lemma int_digits_all ds acc count :
  forallb is_decimal ds = true →
  int_digits ds acc count false
  = Some (foldl (λ v c, v * 10 + digit_value c)%Z acc ds, count + length ds, []).
Proof.
  revert acc count. induction ds as [|c ds IH]; intros acc count Hdec; simpl.
  - by rewrite Nat.add_0_r.
  - simpl in Hdec. apply andb_true_iff in Hdec as [Hc Hdec].
    rewrite Hc, IH by done. do 3 f_equal. lia.
Qed.

(** [int] reads a run of decimal digits as its value. *)
Lemma int_of_str_digits ds :
  ds ≠ [] → forallb is_decimal ds = true → length ds ≤ int_max_str_digits →
  int_of_str ds = Some (digits_value ds).
Proof.
  intros Hne Hdec Hlen. destruct ds as [|c ds]; [done|].
  pose proof Hdec as Hdec'. simpl in Hdec'.
  apply andb_true_iff in Hdec' as [Hc _].
  destruct (decimal_char c Hc) as (_ & Hsp & Hminus & Hplus & _).
  unfold int_of_str. cbn [skip_int_space]. rewrite Hsp.
  rewrite !bool_decide_eq_false_2 by (by intros ->).
  rewrite Hc, int_digits_all by done. cbn [skip_int_space].
  by rewrite bool_decide_eq_true_2.
Qed.

Lemma drop_take_until {A} (p : A → bool) l :
  drop (length (take_until p l)) l = drop_until p l.
Proof.
  induction l as [|x l IH]; simpl; [done|]. by destruct (p x).
Qed.

Lemma take_until_ext {A} (p q : A → bool) l :
  (∀ x, x ∈ l → p x = q x) →
  take_until p l = take_until q l ∧ drop_until p l = drop_until q l.
Proof.
  induction l as [|x l IH]; intros Hpq; simpl; [done|].
  rewrite <- (Hpq x) by left.
  destruct IH as [-> ->]; [intros y Hy; apply Hpq; by right|]. done.
Qed.

Lemma drop_until_subseteq {A} (p : A → bool) l x :
  x ∈ drop_until p l → x ∈ l.
Proof.
  induction l as [|y l IH]; simpl; [done|].
  destruct (p y); [done|]. intros Hx. right. by apply IH.
Qed.

(** The first loop: the lines before the first one that passes the test,
    and where that one is. *)
Lemma find_steps_spec i lines acc :
  find_steps i lines acc
  = (acc ++ take_until starts_steps lines,
     match drop_until starts_steps lines with
     | [] => None
     | _ :: _ => Some (i + length (take_until starts_steps lines))
     end).
Proof.
  revert i acc. induction lines as [|line rest IH]; intros i acc; simpl.
  - by rewrite app_nil_r.
  - destruct (starts_steps line); simpl.
    + by rewrite app_nil_r, Nat.add_0_r.
    + rewrite IH, <- (assoc_L (++)). simpl. do 2 f_equal.
      destruct (drop_until starts_steps rest); [done|]. f_equal. lia.
Qed.

(** On a well numbered line the body of the second loop does what the
    pattern says. *)
Lemma parse_step_spec raw acc :
  (starts_steps raw = true →
   is_Some (numbered (strip raw))
   ∧ length (take_digits (strip raw)) ≤ int_max_str_digits) →
  parse_step raw acc
  = Ok (acc ++ match spec_step raw with Some step => [step] | None => [] end).
Proof.
  intros Hwell. unfold parse_step, spec_step.
  destruct (is_step_line (strip raw)) eqn:Hline.
  - destruct (Hwell (is_step_line_starts raw Hline)) as [[[n rest] Hnum] Hlen].
    rewrite Hnum. simpl.
    destruct (numbered_shape _ _ _ Hnum) as (Hne & Ht & ->).
    pose proof (take_digits_decimal (strip raw)) as Hdec.
    unfold split1. rewrite Ht at 1. rewrite partition_digits by done.
    by rewrite int_of_str_digits.
  - destruct (numbered (strip raw)) as [[n rest]|] eqn:Hnum.
    + apply numbered_is_step_line in Hnum. congruence.
    + simpl. by rewrite app_nil_r.
Qed.

Lemma parse_steps_spec lines acc :
  (∀ raw, raw ∈ lines → starts_steps raw = true →
     is_Some (numbered (strip raw))
     ∧ length (take_digits (strip raw)) ≤ int_max_str_digits) →
  parse_steps lines acc = Ok (acc ++ omap spec_step lines).
Proof.
  revert acc. induction lines as [|raw rest IH]; intros acc Hwell; simpl.
  - by rewrite app_nil_r.
  - rewrite parse_step_spec by (apply Hwell; left).
    rewrite IH by (intros r Hr; apply Hwell; by right).
    rewrite <- (assoc_L (++)). by destruct (spec_step raw).
Qed.

(** The second loop fails with [ValueError] or not at all. *)
Lemma parse_steps_raises lines acc x :
  parse_steps lines acc = Raise x → x = ValueError.
Proof.
  revert acc. induction lines as [|raw rest IH]; intros acc; simpl; [done|].
  destruct (parse_step raw acc) as [acc'|y] eqn:Hstep; [apply IH|].
  intros [= <-]. unfold parse_step in Hstep.
  destruct (is_step_line _); [|done].
  destruct (split1 _ _) as [|p0 [|p1 [|]]]; try done.
  destruct (int_of_str p0); [done|]. by injection Hstep as <-.
Qed.

(** On the lines of a well numbered text the test of the code and the
    pattern of the specification agree. *)
Lemma starts_steps_numbered text raw :
  well_numbered text → raw ∈ split_lines (strip text) →
  starts_steps raw = bool_decide (is_Some (spec_step raw)).
Proof.
  intros Hwell Hraw. unfold spec_step.
  destruct (starts_steps raw) eqn:Hstart.
  - destruct (Hwell raw Hraw Hstart) as [[nr Hnum] _]. rewrite Hnum.
    symmetry. apply bool_decide_eq_true. by eexists.
  - symmetry. apply bool_decide_eq_false. intros [step Hstep].
    destruct (numbered (strip raw)) as [[n rest]|] eqn:Hnum; [|done].
    apply numbered_is_step_line, is_step_line_starts in Hnum. congruence.
Qed.

(** C6, as the code has it. On every text in which each line that passes
    the test of the code (the trimmed line starts with a digit and the line
    holds a dot and a blank) is, once trimmed, at most 4300 decimal digits
    followed by a dot, a blank and the rest, [parse_text] returns the prompt
    the specification describes: the initial prompt is the trimmed join of
    the lines of the trimmed text before the first numbered line, and the
    steps are, in order, one per numbered line from there on, numbered by
    the value of the digits, with the rest of the trimmed line as content;
    no other line becomes a step. On any text, [parse_text] raises nothing
    but [ValueError], and only when the text is not of that kind. *)
Theorem parse_text_refines :
  ∀ text,
    (well_numbered text → parse_text text = Ok (parse_text_spec text))
    ∧ (∀ x, parse_text text = Raise x → x = ValueError ∧ ¬ well_numbered text)
    ∧ (∀ step, step ∈ steps (parse_text_spec text) →
         ∃ raw n rest,
           raw ∈ split_lines (strip text)
           ∧ numbered (strip raw) = Some (n, rest)
           ∧ step = mk_step n rest None
           ∧ strip raw = take_digits (strip raw) ++ py ". " ++ rest
           ∧ n = digits_value (take_digits (strip raw))).
Proof.
  intros text.
  assert (well_numbered text → parse_text text = Ok (parse_text_spec text))
    as Hmain.
  { intros Hwell. unfold parse_text, parse_text_spec. cbv zeta.
    set (lines := split_lines (strip text)).
    rewrite find_steps_spec. cbn [app].
    destruct (take_until_ext starts_steps
                (λ raw, bool_decide (is_Some (spec_step raw))) lines)
      as [Htake Hdrop]; [intros raw Hraw; by apply (starts_steps_numbered text)|].
    rewrite <- Htake, <- Hdrop.
    destruct (drop_until starts_steps lines) as [|l0 ls] eqn:Hd; [done|].
    rewrite Nat.add_0_l, drop_take_until, Hd, parse_steps_spec; [done|].
    intros raw Hraw. apply Hwell, (drop_until_subseteq starts_steps).
    unfold lines in Hd. by rewrite Hd. }
  split; [exact Hmain|]. split.
  - intros x Hraise. split.
    + unfold parse_text in Hraise. rewrite find_steps_spec in Hraise.
      destruct (drop_until _ _); [done|].
      destruct (parse_steps _ _) as [found|y] eqn:Hsteps; [done|].
      injection Hraise as <-. by eapply parse_steps_raises.
    + intros Hwell. rewrite (Hmain Hwell) in Hraise. done.
  - intros step Hstep. unfold parse_text_spec in Hstep. simpl in Hstep.
    apply list_elem_of_omap in Hstep as (raw & Hraw & Hspec).
    apply drop_until_subseteq in Hraw. unfold spec_step in Hspec.
    destruct (numbered (strip raw)) as [[n rest]|] eqn:Hnum; [|done].
    injection Hspec as <-.
    destruct (numbered_shape _ _ _ Hnum) as (_ & Hshape & Hn).
    by exists raw, n, rest.
Qed.

Lemma service_text_well_numbered : well_numbered service_text.
Proof.
  intros raw Hraw Hstart. vm_compute in Hraw.
  repeat (apply elem_of_cons in Hraw as [->|Hraw]);
    try (vm_compute in Hstart; discriminate Hstart);
    try (split; [eexists; reflexivity|vm_compute; lia]).
  by apply elem_of_nil in Hraw.
Qed.

(** C6 on a text of two lines of prompt, two steps and a line that is not
    a step. *)
Lemma parse_text_refines_witness :
  parse_text service_text
  = Ok (mk_prompt (py "Build the service
for real")
          [mk_step 1 (py "Design the API") None;
           mk_step 2 (py "Write the tests") None]
          default_name).
Proof.
  destruct (parse_text_refines service_text) as [Hrefines _].
  rewrite Hrefines by apply service_text_well_numbered. reflexivity.
Defined.

(** C6 fails as stated: a line that starts with a digit and holds a dot
    and a blank, but does not start with an integer, makes the parse raise;
    the initial prompt and the contents are trimmed, not the lines as they
    are; and a numbered line that ends after the blank gives no step. *)
Lemma parse_text_not_as_claimed :
  parse_text retry_text = Raise ValueError
  ∧ (∃ p, parse_text padded_text = Ok p
          ∧ initial_prompt p = py "Build it"
          ∧ initial_prompt p ≠ py "  Build it  "
          ∧ content <$> steps p = [py "First"; py "Second"]
          ∧ content <$> steps p ≠ [py "First  "; py "Second"])
  ∧ (∃ p, parse_text empty_step_text = Ok p
          ∧ number <$> steps p = [2%Z]).
Proof.
  split; [reflexivity|]. split.
  - eexists. split; [reflexivity|]. simpl. repeat split; discriminate.
  - eexists. split; reflexivity.
Qed.

End ParserFacts.

(** ** Strings and integers *)

Module PyStrFacts.
Import Launcher Parser ParserFacts.

Lemma startswith_spec p s : startswith p s = true ↔ ∃ t, s = p ++ t.
Proof.
  revert s. induction p as [|a p IH]; intros s; simpl.
  - split; [by exists s|done].
  - destruct s as [|b s].
    + split; [done|]. by intros [t ?].
    + rewrite andb_true_iff, bool_decide_eq_true, IH. split.
      * intros [-> [t ->]]. by exists t.
      * intros [t [= -> ->]]. split; [done|by exists t].
Qed.

Lemma contains_spec sub s : contains sub s = true ↔ occurs_in sub s.
Proof.
  induction s as [|c s IH].
  - cbn [contains]. rewrite orb_false_r, startswith_spec. split.
    + intros [t Ht]. by exists [], t.
    + intros (b & a & Hs). symmetry in Hs.
      apply app_eq_nil in Hs as [-> Hs]. by exists a.
  - cbn [contains]. rewrite orb_true_iff, startswith_spec, IH. split.
    + intros [[t Ht]|(b & a & Hs)].
      * by exists [], t.
      * exists (c :: b), a. by rewrite Hs.
    + intros (b & a & Hs). destruct b as [|c' b].
      * left. by exists a.
      * right. injection Hs as -> ->. by exists b, a.
Qed.

Lemma contains_false_nil sub : sub ≠ [] → contains sub [] = false.
Proof. by destruct sub. Qed.

Lemma not_elem_of_literal (c : ascii) (s : str) :
  bool_decide (c ∈ s) = false → c ∉ s.
Proof. by intros H%bool_decide_eq_false. Qed.

Lemma not_elem_of_literal_str (s : str) (l : list str) :
  bool_decide (s ∈ l) = false → s ∉ l.
Proof. by intros H%bool_decide_eq_false. Qed.

(** *** [str] of an [int] *)

Local Abbreviation chars d := (list_ascii_of_string (NilEmpty.string_of_uint d)).
Local Abbreviation read acc ds := (foldl (λ v c, v * 10 + digit_value c)%Z acc ds).

Lemma chars_decimal d : forallb is_decimal (chars d) = true.
Proof. unfold chars. induction d; simpl; auto. Qed.

Lemma read_of_uint_acc d acc :
  read (Z.pos acc) (chars d) = Z.pos (Pos.of_uint_acc d acc).
Proof.
  revert acc.
  induction d; intros acc;
    cbn [NilEmpty.string_of_uint list_ascii_of_string foldl Pos.of_uint_acc];
    [done|rewrite <- IHd; f_equal; vm_compute digit_value; lia ..].
Qed.

Lemma read_of_uint d : read 0%Z (chars d) = Z.of_N (Pos.of_uint d).
Proof.
  induction d;
    cbn [NilEmpty.string_of_uint list_ascii_of_string foldl Pos.of_uint];
    [done|exact IHd|
     rewrite positive_N_Z, <- read_of_uint_acc; reflexivity ..].
Qed.

Lemma string_of_uint_chars d :
  list_ascii_of_string (NilZero.string_of_uint d)
  = match d with Decimal.Nil => py "0" | _ => chars d end.
Proof. by destruct d. Qed.

Lemma str_of_int_pos p : str_of_int (Z.pos p) = chars (Pos.to_uint p)
  ∧ chars (Pos.to_uint p) ≠ [].
Proof.
  unfold str_of_int. cbn [Z.to_int NilZero.string_of_int].
  rewrite string_of_uint_chars.
  pose proof (DecimalPos.Unsigned.of_to p) as Hp.
  destruct (Pos.to_uint p) eqn:Hd; try (split; [reflexivity|discriminate]).
  discriminate Hp.
Qed.

Lemma str_of_int_nonneg n :
  (0 <= n)%Z →
  str_of_int n ≠ []
  ∧ forallb is_decimal (str_of_int n) = true
  ∧ digits_value (str_of_int n) = n.
Proof.
  intros Hn. destruct n as [|p|p]; [by vm_compute| |lia].
  destruct (str_of_int_pos p) as [-> Hne]. split; [done|].
  split; [apply chars_decimal|].
  unfold digits_value.
  rewrite read_of_uint, DecimalPos.Unsigned.of_to. done.
Qed.

Lemma str_of_int_neg n :
  (n < 0)%Z → str_of_int n = "-"%char :: str_of_int (- n).
Proof.
  intros Hn. destruct n as [|p|p]; [lia..|].
  change (- Z.neg p)%Z with (Z.pos p).
  unfold str_of_int. cbn [Z.to_int NilZero.string_of_int list_ascii_of_string].
  done.
Qed.

(** The text of an [int] holds its sign and decimal digits, and nothing
    else. *)
Lemma str_of_int_chars n c :
  c ∈ str_of_int n → c = "-"%char ∨ is_decimal c = true.
Proof.
  destruct (Z_lt_le_dec n 0) as [Hn|Hn].
  - rewrite str_of_int_neg by done. intros [->|Hc]%elem_of_cons; [by left|].
    right. destruct (str_of_int_nonneg (- n)) as (_ & Hd & _); [lia|].
    rewrite forallb_forall in Hd. apply Hd. by apply list_elem_of_In.
  - intros Hc. right. destruct (str_of_int_nonneg n Hn) as (_ & Hd & _).
    rewrite forallb_forall in Hd. apply Hd. by apply list_elem_of_In.
Qed.

Lemma int_of_str_str_of_int n :
  length (str_of_int (Z.abs n)) ≤ int_max_str_digits →
  int_of_str (str_of_int n) = Some n.
Proof.
  intros Hlen. destruct (Z_lt_le_dec n 0) as [Hn|Hn].
  - rewrite str_of_int_neg by done.
    replace (Z.abs n) with (- n)%Z in Hlen by lia.
    destruct (str_of_int_nonneg (- n)) as (Hne & Hd & Hv); [lia|].
    unfold int_of_str. cbn [skip_int_space].
    change (int_space "-") with false. cbv iota.
    rewrite bool_decide_true by done.
    destruct (str_of_int (- n)) as [|c ds] eqn:Hs; [done|].
    assert (is_decimal c = true) as Hc by (simpl in Hd; by apply andb_true_iff in Hd as [? _]).
    rewrite Hc. rewrite int_digits_all by done. cbn [skip_int_space].
    rewrite bool_decide_true by (simpl in *; lia).
    f_equal. unfold digits_value in Hv. rewrite Hv. lia.
  - replace (Z.abs n) with n in Hlen by lia.
    destruct (str_of_int_nonneg n Hn) as (Hne & Hd & Hv).
    rewrite int_of_str_digits by done. by rewrite Hv.
Qed.

End PyStrFacts.

(** ** Sequences of calls on the work claims *)

Module ProtocolFacts.
Import Coordination Protocol CoordinationFacts.

Lemma cleanup_nil_aux (l dir : claims_dir) :
  (∀ e, e ∈ dir → e ∈ l) → foldl (λ d e, unlink e.1 d) dir l = [].
Proof.
  revert dir. induction l as [|x l IH]; intros dir H; simpl.
  - destruct dir as [|e dir]; [done|]. specialize (H e). 
    exfalso. eapply not_elem_of_nil, H. left.
  - apply IH. intros e He. apply elem_of_unlink in He as [Hne He].
    apply H in He. apply elem_of_cons in He as [->|He]; [|done].
    done.
Qed.

Lemma cleanup_nil dir : _cleanup dir = [].
Proof. apply cleanup_nil_aux; auto. Qed.

Lemma exclusive_sublist d d' : d' `sublist_of` d → exclusive d → exclusive d'.
Proof.
  intros Hs He e1 e2 f H1 H2. apply He; eapply sublist_subseteq; eauto.
Qed.

Lemma exclusive_release uid dir : exclusive dir → exclusive (release_work uid dir).
Proof.
  intros He e1 e2 f H1 H2.
  apply elem_of_release_work in H1 as [_ H1].
  apply elem_of_release_work in H2 as [_ H2]. by apply He.
Qed.

Lemma exclusive_claim_work clock stamp uid fs d dir :
  exclusive dir → exclusive (claim_work clock stamp uid fs d dir).2.
Proof.
  intros He.
  destruct (claim_work clock stamp uid fs d dir).1 eqn:Hr.
  - intros e1 e2 f H1 H2 Hf1 Hf2.
    apply (claim_work_survivors _ _ _ _ _ _ _ Hr) in H1.
    apply (claim_work_survivors _ _ _ _ _ _ _ Hr) in H2.
    destruct H1 as [->|(_ & H1 & Hn1)], H2 as [->|(_ & H2 & Hn2)].
    + done.
    + exfalso. simpl in Hf1.
      assert (intersects fs (files e2.2) = true) as Hi
        by (apply intersects_spec; eauto).
      congruence.
    + exfalso. simpl in Hf2.
      assert (intersects fs (files e1.2) = true) as Hi
        by (apply intersects_spec; eauto).
      congruence.
    + by eapply He.
  - eapply exclusive_sublist; [|done]. by apply claim_work_refused.
Qed.

Lemma perform_inv c dir :
  wf_dir dir → exclusive dir → wf_dir (perform dir c) ∧ exclusive (perform dir c).
Proof.
  intros Hw He. destruct c; simpl.
  - split; [by apply wf_claim_work | by apply exclusive_claim_work].
  - split; [by apply wf_release_work | by apply exclusive_release].
  - rewrite cleanup_nil. split; [apply NoDup_nil_2 | by intros ? ? ? ?%not_elem_of_nil].
Qed.

(** X1. Mutual exclusion of work claims. In a directory without duplicate
    names in which no file is listed by two records, as in the empty one,
    any sequence of calls of [claim_work], [release_work] and [_cleanup],
    made one after the other, granted or refused, at whatever times, leaves a
    directory of the same kind: a file is never listed by the records of two
    agents. *)
Theorem claims_stay_exclusive :
  ∀ calls dir,
    wf_dir dir → exclusive dir →
    let dir' := perform_all calls dir in
    wf_dir dir' ∧ exclusive dir'
    ∧ ∀ f n1 l1 n2 l2,
        (n1, l1) ∈ dir' → (n2, l2) ∈ dir' → f ∈ files l1 → f ∈ files l2 →
        n1 = n2 ∧ l1 = l2.
Proof.
  intros calls. induction calls as [|c calls IH]; intros dir Hw He; simpl.
  - split_and!; [done..|]. intros f n1 l1 n2 l2 H1 H2 Hf1 Hf2.
    by pose proof (He _ _ f H1 H2 Hf1 Hf2) as [= -> ->].
  - destruct (perform_inv c dir Hw He) as [Hw' He']. by apply IH.
Qed.

Lemma read_lock_app n dir1 dir2 :
  read_lock n (dir1 ++ dir2)
  = match read_lock n dir1 with
    | Some l => Some l
    | None => read_lock n dir2
    end.
Proof.
  induction dir1 as [|[m k] dir1 IH]; [done|]. cbn [app read_lock].
  by case_bool_decide.
Qed.

Lemma read_lock_replace n uid l dir :
  read_lock n ((λ e : str * lock_data,
                  if bool_decide (e.1 = uid) then (uid, l) else e) <$> dir)
  = if bool_decide (n = uid)
    then (λ _, l) <$> read_lock uid dir
    else read_lock n dir.
Proof.
  induction dir as [|[m k] dir IH]; [by case_bool_decide|].
  rewrite fmap_cons. cbn [fst read_lock].
  destruct (decide (m = uid)) as [->|Hm].
  - rewrite !bool_decide_true by done. cbn [read_lock].
    destruct (decide (n = uid)) as [->|Hn].
    + by rewrite !bool_decide_true by done.
    + rewrite !(bool_decide_false (n = uid)), !(bool_decide_false (uid = n)) by done.
      rewrite IH. by rewrite bool_decide_false by done.
  - rewrite (bool_decide_false (m = uid)) by done. cbn [read_lock].
    destruct (decide (m = n)) as [->|Hmn].
    + rewrite !bool_decide_true by done. by rewrite bool_decide_false by done.
    + rewrite (bool_decide_false (m = n)) by done. apply IH.
Qed.

Lemma read_lock_write_lock n uid l dir :
  read_lock n (write_lock uid l dir)
  = if bool_decide (n = uid) then Some l else read_lock n dir.
Proof.
  unfold write_lock. destruct (exists_lock uid dir) eqn:Hex.
  - rewrite read_lock_replace. case_bool_decide; [|done].
    destruct (read_lock uid dir) eqn:Hr; [done|].
    apply exists_lock_read in Hr. congruence.
  - apply exists_lock_read in Hex. rewrite read_lock_app. cbn [read_lock].
    destruct (decide (n = uid)) as [->|Hn].
    + by rewrite Hex, !bool_decide_true.
    + rewrite (bool_decide_false (uid = n)), (bool_decide_false (n = uid)) by done.
      by destruct (read_lock n dir).
Qed.

Lemma scan_nothing clock i listing dir :
  scan clock [] i listing dir = (true, dir).
Proof.
  revert i. induction listing as [|[n l] listing IH]; intros i; simpl; [done|].
  apply IH.
Qed.

(** X2. A claim on no file at all is always granted, whatever the
    directory holds: no record is examined as a conflict, so none is
    deleted, stale or not. The caller's record is written all the same, so an
    earlier record of the caller is replaced and the files it listed are no
    longer claimed under the caller's name. *)
Theorem claim_nothing_granted :
  ∀ clock stamp uid d dir,
    let r := claim_work clock stamp uid [] d dir in
    r.1 = true
    ∧ read_lock uid r.2 = Some (mk_lock uid [] d stamp)
    ∧ (∀ n, n ≠ uid → read_lock n r.2 = read_lock n dir)
    ∧ (∀ e, e ∈ r.2 ↔ e = (uid, mk_lock uid [] d stamp) ∨ (e.1 ≠ uid ∧ e ∈ dir))
    ∧ (∀ f name lock, (name, lock) ∈ r.2 → f ∈ files lock → name ≠ uid).
Proof.
  intros clock stamp uid d dir r.
  assert (r = (true, write_lock uid (mk_lock uid [] d stamp) dir)) as Hr.
  { unfold r. rewrite claim_work_unfold, scan_nothing. done. }
  rewrite Hr. cbn [fst snd]. split_and!.
  - done.
  - by rewrite read_lock_write_lock, bool_decide_true.
  - intros n Hn. by rewrite read_lock_write_lock, bool_decide_false.
  - intros e. apply elem_of_write_lock.
  - intros f name lock Hin Hf ->.
    apply elem_of_write_lock in Hin as [[= ->]|[Hne _]]; [|done].
    by apply not_elem_of_nil in Hf.
Qed.

Lemma claim_nothing_granted_witness :
  let lock_b := mk_lock agent_b [b_py] (py "B") nine in
  let r := claim_work (λ _, noon) noon agent_a [] (py "A") [(agent_b, lock_b)] in
  agent_b ≠ agent_a ∧ r.1 = true ∧ read_lock agent_b r.2 = Some lock_b.
Proof.
  intros lock_b r.
  assert (agent_b ≠ agent_a) as Hne by (vm_compute; congruence).
  destruct (claim_nothing_granted (λ _, noon) noon agent_a (py "A")
              [(agent_b, lock_b)]) as (Hr & _ & Hkeep & _).
  split; [exact Hne|]. split; [exact Hr|]. exact (Hkeep agent_b Hne).
Defined.

Lemma wf_lookup_inj dir i j name l1 l2 :
  wf_dir dir → dir !! i = Some (name, l1) → dir !! j = Some (name, l2) →
  i = j ∧ l1 = l2.
Proof.
  intros Hw Hi Hj.
  assert (i = j) as ->.
  { eapply NoDup_lookup; [exact Hw| |].
    - rewrite list_lookup_fmap, Hi. done.
    - rewrite list_lookup_fmap, Hj. done. }
  split; [done|congruence].
Qed.

Lemma scan_keeps clock fs dir i name lock :
  wf_dir dir → dir !! i = Some (name, lock) →
  intersects fs (files lock) = false ∨ is_stale (clock i) (timestamp lock) = false →
  (name, lock) ∈ (scan clock fs 0 dir dir).2.
Proof.
  intros Hw Hi Hkeep. apply scan_elem. split.
  - by eapply list_elem_of_lookup_2.
  - intros (j & lock' & Hj & _ & Hint & Hst). cbn [fst] in Hj.
    destruct (wf_lookup_inj _ _ _ _ _ _ Hw Hi Hj) as [-> ->].
    destruct Hkeep; congruence.
Qed.

Lemma claim_work_keeps clock stamp uid fs d dir i name lock :
  wf_dir dir →
  dir !! i = Some (name, lock) → name ≠ uid →
  intersects fs (files lock) = false
  ∨ is_stale (clock i) (timestamp lock) = false →
  (name, lock) ∈ (claim_work clock stamp uid fs d dir).2.
Proof.
  intros Hw Hi Hne Hkeep. rewrite claim_work_unfold.
  assert ((name, lock) ∈ (scan clock fs 0 dir dir).2) as Hs
    by (by eapply scan_keeps).
  destruct (scan clock fs 0 dir dir).1; cbn [snd]; [|done].
  apply elem_of_write_lock. right. done.
Qed.

(** X3. A call of [claim_work], granted or refused, removes a record of
    another agent only if that record shares a file with the request and is
    more than 7200 seconds old when it is examined: every other record of a
    directory without duplicate names is still there afterwards,
    unchanged. *)
Theorem claim_work_keeps_others :
  ∀ clock stamp uid fs d dir i name lock,
    wf_dir dir →
    dir !! i = Some (name, lock) → name ≠ uid →
    intersects fs (files lock) = false
    ∨ (delta_micros (clock i) (timestamp lock) <= 7200 * 1000000)%Z →
    (name, lock) ∈ (claim_work clock stamp uid fs d dir).2
    ∧ read_lock name (claim_work clock stamp uid fs d dir).2 = Some lock.
Proof.
  intros clock stamp uid fs d dir i name lock Hw Hi Hne Hkeep.
  assert ((name, lock) ∈ (claim_work clock stamp uid fs d dir).2) as Hin.
  { eapply claim_work_keeps; [done..|].
    destruct Hkeep as [?|?]; [by left|right]. by apply is_stale_false. }
  split; [done|].
  apply read_lock_wf; [|done]. by apply wf_claim_work.
Qed.

Lemma claim_work_keeps_others_witness :
  let lock_a := mk_lock agent_a [a_py] (py "A") nine in
  let lock_b := mk_lock agent_b [b_py] (py "B") eleven in
  let dir := [(agent_a, lock_a); (agent_b, lock_b)] in
  wf_dir dir
  ∧ read_lock agent_b (claim_work (λ _, noon) noon agent_c [a_py; b_py] (py "C") dir).2
    = Some lock_b.
Proof.
  intros lock_a lock_b dir.
  assert (wf_dir dir) as Hw.
  { unfold wf_dir. apply (bool_decide_unpack _). vm_compute. exact I. }
  split; [done|].
  apply (claim_work_keeps_others (λ _, noon) noon agent_c [a_py; b_py] (py "C")
           dir 1 agent_b lock_b Hw eq_refl).
  - vm_compute. congruence.
  - right. vm_compute. congruence.
Defined.

Lemma blocks_perm now fs dir dir' :
  dir ≡ₚ dir' → blocks (λ _, now) fs dir → blocks (λ _, now) fs dir'.
Proof.
  intros Hp (i & name & lock & Hi & Hint & Hage).
  apply list_elem_of_lookup_2 in Hi. rewrite Hp in Hi.
  apply list_elem_of_lookup_1 in Hi as [j Hj]. by exists j, name, lock.
Qed.

Lemma claim_work_granted_elem clock stamp uid fs d dir e :
  wf_dir dir →
  (claim_work clock stamp uid fs d dir).1 = true →
  e ∈ (claim_work clock stamp uid fs d dir).2 ↔
  e = (uid, mk_lock uid fs d stamp)
  ∨ (e.1 ≠ uid ∧ e ∈ dir ∧ intersects fs (files e.2) = false).
Proof.
  intros Hw Hr. split; [by apply claim_work_survivors|].
  intros [->|(Hne & Hin & Hint)]; [by apply claim_work_new_elem|].
  apply list_elem_of_lookup_1 in Hin as [i Hi]. destruct e as [name lock].
  eapply claim_work_keeps; eauto.
Qed.

(** X4. The directory is listed in no particular order, and the answer of
    [claim_work] does not depend on it: with the clock standing still
    during the call, two listings of the same records give the same answer,
    and when the claim is granted they leave the same records. *)
Theorem claim_work_order_independent :
  ∀ now stamp uid fs d dir dir',
    wf_dir dir → dir ≡ₚ dir' →
    let r := claim_work (λ _, now) stamp uid fs d dir in
    let r' := claim_work (λ _, now) stamp uid fs d dir' in
    r.1 = r'.1 ∧ (r.1 = true → ∀ e, e ∈ r.2 ↔ e ∈ r'.2).
Proof.
  intros now stamp uid fs d dir dir' Hw Hp r r'.
  assert (wf_dir dir') as Hw'.
  { unfold wf_dir in *. by rewrite <- Hp. }
  assert (r.1 = r'.1) as Heq.
  { unfold r, r'.
    destruct (claim_work (λ _, now) stamp uid fs d dir).1 eqn:H1,
             (claim_work (λ _, now) stamp uid fs d dir').1 eqn:H2; try done.
    - apply claim_work_true_iff in H1. apply claim_work_false_iff in H2.
      destruct H1. eapply blocks_perm; [|done]. done.
    - apply claim_work_true_iff in H2. apply claim_work_false_iff in H1.
      destruct H2. eapply blocks_perm; [|done]. done. }
  split; [done|]. intros Hr e.
  unfold r, r' in *.
  rewrite (claim_work_granted_elem _ _ _ _ _ _ _ Hw Hr).
  rewrite (claim_work_granted_elem _ _ _ _ _ _ _ Hw') by congruence.
  by rewrite Hp.
Qed.

Lemma claim_work_order_independent_witness :
  let lock_a := mk_lock agent_a [a_py] (py "A") nine in
  let lock_b := mk_lock agent_b [b_py] (py "B") eleven in
  (claim_work (λ _, noon) noon agent_c [a_py] (py "C")
     [(agent_a, lock_a); (agent_b, lock_b)]).1
  = (claim_work (λ _, noon) noon agent_c [a_py] (py "C")
       [(agent_b, lock_b); (agent_a, lock_a)]).1.
Proof.
  intros lock_a lock_b.
  refine (proj1 (claim_work_order_independent noon noon agent_c [a_py] (py "C")
            [(agent_a, lock_a); (agent_b, lock_b)]
            [(agent_b, lock_b); (agent_a, lock_a)] _ _)).
  - unfold wf_dir. apply (bool_decide_unpack _). vm_compute. exact I.
  - apply Permutation_swap.
Defined.

Lemma claims_stay_exclusive_witness :
  let calls := [ClaimWork (λ _, nine) nine agent_a [a_py] (py "A");
                ClaimWork (λ _, nine) nine agent_b [a_py; b_py] (py "B");
                ClaimWork (λ _, noon) noon agent_b [a_py; b_py] (py "B");
                ReleaseWork agent_a] in
  wf_dir [] ∧ exclusive [] ∧ exclusive (perform_all calls []).
Proof.
  intros calls.
  assert (wf_dir []) as Hw by apply NoDup_nil_2.
  assert (exclusive []) as He by (by intros ? ? ? ?%not_elem_of_nil).
  split_and!; [done..|].
  apply (claims_stay_exclusive calls [] Hw He).
Defined.
End ProtocolFacts.

(** ** The tmux manager *)

Module TmuxShellFacts.
Import Launcher TmuxShell PyStrFacts.

Lemma pane_target_nonempty session pane_id : pane_target session pane_id ≠ [].
Proof.
  unfold pane_target. intros H. apply app_eq_nil in H as [_ H]. discriminate H.
Qed.

Lemma pane_target_inj session p q :
  pane_target session p = pane_target session q → p = q.
Proof.
  unfold pane_target. intros H.
  apply app_inv_head in H. by apply app_inv_head in H.
Qed.

Lemma enumerate_lookup (f : str → str) (l : list str) k (m0 : gmap nat str) i :
  foldl (λ m p, <[p.1 := f p.2]> m) m0 (imap (λ j x, (k + j, x)) l) !! i
  = if bool_decide (k ≤ i < k + length l) then f <$> l !! (i - k) else m0 !! i.
Proof.
  revert k m0. induction l as [|x l IH]; intros k m0.
  - cbn [imap foldl length]. rewrite bool_decide_false by lia. done.
  - cbn [imap foldl length fst snd].
    rewrite (imap_ext _ (λ j y, (S k + j, y))) by (intros; simpl; f_equal; lia).
    rewrite IH. case_bool_decide as H1.
    + rewrite bool_decide_true by lia.
      replace (i - k) with (S (i - S k)) by lia. done.
    + case_bool_decide as H2.
      * assert (i = k) as -> by lia.
        rewrite Nat.add_0_r, lookup_insert_eq, Nat.sub_diag. done.
      * rewrite lookup_insert_ne by lia. done.
Qed.

Lemma create_session_lookup session n r i :
  new_session_returncode r = 0%Z →
  (create_session session n r ∅).2 !! i
  = pane_target session <$> take n (pane_ids (list_panes_stdout r)) !! i.
Proof.
  intros Hrc. unfold create_session.
  rewrite bool_decide_false by (intros ?; done). cbn [snd].
  pose proof (enumerate_lookup (pane_target session)
                (take n (pane_ids (list_panes_stdout r))) 0 ∅ i) as H.
  cbn [Nat.add] in H. rewrite (imap_ext _ pair) in H by done.
  rewrite H, Nat.sub_0_r. case_bool_decide as Hi; [done|].
  rewrite lookup_empty, lookup_ge_None_2 by lia. done.
Qed.

Lemma length_split_lines s : 0 < length (split_lines s).
Proof.
  induction s as [|c s IH]; simpl; [lia|].
  case_bool_decide; simpl; [lia|]. destruct (split_lines s); simpl; lia.
Qed.

Lemma length_pane_ids stdout :
  length (pane_ids stdout) = length (split_lines (strip stdout))
  ∧ 0 < length (pane_ids stdout).
Proof.
  unfold pane_ids, sorted.
  rewrite (Permutation_length (merge_sort_Permutation _ _)), length_fmap.
  split; [done|apply length_split_lines].
Qed.

(** X5. When [tmux new-session] fails, [create_session] returns [False]
    and maps no agent. Otherwise it returns [True] and maps agent [i] exactly
    when [i] is below both the number of agents and the number of lines of
    the pane listing; a listing has at least one line, even when tmux printed
    nothing, so agent 0 is always mapped. Every target is the session name,
    [:agents.] and a trimmed line of the listing, so it is never empty. *)
Theorem create_session_mapping :
  ∀ session n r,
    let ids := pane_ids (list_panes_stdout r) in
    let out := create_session session n r ∅ in
    (new_session_returncode r ≠ 0%Z → out = (false, ∅))
    ∧ (new_session_returncode r = 0%Z →
       out.1 = true
       ∧ (∀ i, is_Some (out.2 !! i) ↔ i < n `min` length ids)
       ∧ (0 < n → is_Some (out.2 !! 0))
       ∧ (∀ i target, out.2 !! i = Some target →
            target ≠ []
            ∧ ∃ pane_id, ids !! i = Some pane_id
                ∧ target = session ++ py ":agents." ++ pane_id
                ∧ pane_id ∈ strip <$> split_lines (strip (list_panes_stdout r)))).
Proof.
  intros session n r ids out. split.
  - intros Hrc. unfold out, create_session. by rewrite bool_decide_true.
  - intros Hrc.
    assert (∀ i, out.2 !! i = pane_target session <$> take n ids !! i) as Hl
      by (intros i; by apply create_session_lookup).
    destruct (length_pane_ids (list_panes_stdout r)) as [_ Hpos].
    fold ids in Hpos.
    assert (∀ i, is_Some (out.2 !! i) ↔ i < n `min` length ids) as Hdom.
    { intros i. rewrite Hl, fmap_is_Some, lookup_lt_is_Some, length_take. done. }
    split_and!.
    + unfold out, create_session. by rewrite bool_decide_false by (intros ?; done).
    + done.
    + intros Hn. apply Hdom. lia.
    + intros i target Ht. rewrite Hl in Ht.
      destruct (take n ids !! i) as [pane_id|] eqn:Hi; [|done].
      injection Ht as <-. split; [apply pane_target_nonempty|].
      exists pane_id. apply lookup_take_Some in Hi as [Hi _].
      split_and!; [done..|].
      apply list_elem_of_lookup_2 in Hi. unfold ids, pane_ids, sorted in Hi.
      by rewrite merge_sort_Permutation in Hi.
Qed.

Lemma create_session_mapping_witness :
  let r := mk_session_readings 0 (py "") in
  new_session_returncode r = 0%Z
  ∧ 0 < 2
  ∧ is_Some ((create_session (py "claude_agents") 2 r ∅).2 !! 0).
Proof.
  intros r.
  destruct (create_session_mapping (py "claude_agents") 2 r) as [_ H].
  destruct (H eq_refl) as (_ & _ & H0 & _).
  split; [reflexivity|]. split; [lia|]. apply H0. lia.
Defined.

Lemma pane_listing_order n :
  n ≤ 20 →
  bool_decide (take n (pane_ids (pane_listing n))
               = (λ i, str_of_int (Z.of_nat i)) <$> seq 0 n)
  = (n <=? 10).
Proof.
  intros Hn.
  do 21 (destruct n as [|n]; [vm_compute; reflexivity|]). lia.
Qed.

Lemma pane_listing_third n :
  10 < n ≤ 20 → pane_ids (pane_listing n) !! 2 = Some (py "10").
Proof.
  intros Hn.
  do 11 (destruct n as [|n]; [lia|]).
  do 10 (destruct n as [|n]; [vm_compute; reflexivity|]). lia.
Qed.

(** X6. The pane ids are sorted as text. When tmux lists the panes of a
    window of [n] panes numbered from 0, for the numbers of agents that
    [main] accepts, agent [i] is mapped to pane [i] for every [i] exactly
    when there are at most ten panes; with more, the id [10] comes before
    [2], and agent 2 is mapped to pane 10. *)
Theorem create_session_pane_order :
  ∀ session n,
    1 ≤ n ≤ 20 →
    let mapping :=
      (create_session session n (mk_session_readings 0 (pane_listing n)) ∅).2 in
    ((∀ i, i < n →
        mapping !! i = Some (session ++ py ":agents." ++ str_of_int (Z.of_nat i)))
     ↔ n ≤ 10)
    ∧ (10 < n → mapping !! 2 = Some (session ++ py ":agents.10")).
Proof.
  intros session n Hn mapping.
  assert (∀ i, mapping !! i
               = pane_target session <$> take n (pane_ids (pane_listing n)) !! i)
    as Hl by (intros i; by apply create_session_lookup).
  pose proof (pane_listing_order n (proj2 Hn)) as Ho.
  split.
  - split.
    + intros Hall. apply Nat.leb_le. rewrite <- Ho. apply bool_decide_eq_true.
      apply list_eq. intros i. rewrite list_lookup_fmap.
      destruct (decide (i < n)) as [Hi|Hi].
      * specialize (Hall i Hi). rewrite Hl in Hall.
        rewrite lookup_seq_lt by done. cbn [fmap option_fmap option_map Nat.add].
        destruct (take n (pane_ids (pane_listing n)) !! i) as [p|]; [|done].
        injection Hall as Hall. f_equal. by apply (pane_target_inj session).
      * rewrite lookup_seq_ge by lia.
        apply lookup_ge_None_2. rewrite length_take. lia.
    + intros Hle i Hi. apply Nat.leb_le in Hle. rewrite Hle in Ho.
      apply bool_decide_eq_true in Ho. rewrite Hl, Ho, list_lookup_fmap.
      rewrite lookup_seq_lt by done. done.
  - intros Hgt. rewrite Hl, lookup_take_lt by lia.
    rewrite pane_listing_third by lia. done.
Qed.

Lemma create_session_pane_order_witness :
  1 ≤ 11 ≤ 20
  ∧ (create_session (py "claude_agents") 11
       (mk_session_readings 0 (pane_listing 11)) ∅).2 !! 2
    = Some (py "claude_agents:agents.10").
Proof.
  assert (1 ≤ 11 ≤ 20) as Hn by lia. split; [exact Hn|].
  apply (create_session_pane_order (py "claude_agents") 11 Hn). lia.
Defined.

Lemma send_lines_filter pane command :
  send_lines pane command
  = filter (λ line, line ≠ []) (split_lines command) ≫= λ line,
      [Shell (send_keys pane (escape line)); Shell (send_enter pane)].
Proof.
  unfold send_lines. induction (split_lines command) as [|line ls IH]; [done|].
  rewrite bind_cons, IH. destruct line as [|c line].
  - rewrite filter_cons_False by (intros H; by apply H). done.
  - rewrite filter_cons_True by done. by rewrite bind_cons.
Qed.

(** X7. What [send_to_pane] does for an agent with a pane. Without
    [enter] it runs one command, which types the escaped text. With [enter]
    the last thing it does is to send the key [C-m] on its own, on each of
    its three paths; when it writes a temporary file it removes that file
    before that. For an agent without a pane, or with an empty one, it does
    nothing: this is when the call is left out of the log of the calls made
    to tmux. *)
Theorem send_to_pane_actions :
  ∀ (w : world) agent_id command r,
    (pane_of w agent_id = None →
       ∀ enter, TmuxShell.send_to_pane (pane_mapping w) agent_id command enter r = []
                ∧ tmux_calls (Launcher.send_to_pane agent_id command enter w).2
                  = tmux_calls w)
    ∧ (∀ pane, pane_of w agent_id = Some pane →
         (∀ enter,
            TmuxShell.send_to_pane (pane_mapping w) agent_id command enter r ≠ []
            ∧ tmux_calls (Launcher.send_to_pane agent_id command enter w).2
              = tmux_calls w ++ [SendToPane agent_id command enter])
         ∧ TmuxShell.send_to_pane (pane_mapping w) agent_id command false r
           = [Shell (send_keys pane (escape command))]
         ∧ (∃ before,
              TmuxShell.send_to_pane (pane_mapping w) agent_id command true r
              = before ++ [Shell (send_enter pane)]
              ∧ ∀ path content, WriteTemp path content ∈ before →
                  ∃ b1 b2, before = b1 ++ b2
                    ∧ WriteTemp path content ∈ b1 ∧ Unlink path ∈ b2)).
Proof.
  intros w agent_id command r. unfold pane_of, TmuxShell.send_to_pane,
    Launcher.send_to_pane, modify, pane_of. split.
  - intros Hp enter.
    destruct (pane_mapping w !! agent_id) as [[|c p]|]; done.
  - intros pane Hp.
    destruct (pane_mapping w !! agent_id) as [[|c p]|]; try done.
    injection Hp as <-. split_and!.
    + intros enter. split; [|done].
      destruct (contains nl command && enter); [done|]. by destruct enter.
    + rewrite andb_false_r. done.
    + rewrite andb_true_r. destruct (contains nl command).
      * eexists. split; [rewrite !app_assoc; reflexivity|].
        intros path content Hin. rewrite <- !app_assoc in Hin.
        apply elem_of_cons in Hin as [[= -> ->]|Hin].
        -- eexists [_; _], _. split; [rewrite <- !app_assoc; reflexivity|].
           split; [left|]. apply elem_of_app. right. left.
        -- exfalso. apply elem_of_cons in Hin as [?|Hin]; [done|].
           apply elem_of_app in Hin as [Hin|Hin].
           ++ case_bool_decide.
              ** apply list_elem_of_singleton in Hin. done.
              ** rewrite send_lines_filter in Hin.
                 apply list_elem_of_bind in Hin as (line & Hin & _).
                 apply elem_of_cons in Hin as [?|Hin]; [done|].
                 apply list_elem_of_singleton in Hin. done.
           ++ apply list_elem_of_singleton in Hin. done.
      * exists [Shell (send_keys (c :: p) (escape command))]. split; [done|].
        intros path content Hin. apply list_elem_of_singleton in Hin. done.
Qed.

Lemma send_to_pane_actions_witness :
  let w := Orchestrator.two_agents in
  let r := mk_send_readings (py "/tmp/tmpab12cd34") (py "0123456789abcdef") 0 in
  pane_of w 1 = Some (py "claude_agents:agents.1")
  ∧ TmuxShell.send_to_pane (pane_mapping w) 1 (py "claude") false r
    = [Shell (py "tmux send-keys -t claude_agents:agents.1 'claude'")].
Proof.
  intros w r. split; [reflexivity|].
  exact (proj1 (proj2 (proj2 (send_to_pane_actions w 1 (py "claude") r)
                         (py "claude_agents:agents.1") eq_refl))).
Defined.

(** X8. When [tmux load-buffer] fails, a multi-line text is typed line by
    line: the command lines run after it are, for each line of the text that
    is not empty, in order, one that types the escaped line and one that
    sends [C-m]; empty lines are left out. The file is then removed and
    [C-m] sent once more, so the text is entered as many times as it has
    lines that are not empty, and once more. *)
Theorem send_to_pane_fallback :
  ∀ mapping agent_id pane command r,
    mapping !! agent_id = Some pane → pane ≠ [] →
    contains nl command = true →
    load_buffer_returncode r ≠ 0%Z →
    let lines := filter (λ line, line ≠ []) (split_lines command) in
    let actions := TmuxShell.send_to_pane mapping agent_id command true r in
    actions
    = [WriteTemp (temp_path r) command;
       Shell (py "tmux load-buffer -b multiclaude_" ++ take 8 (uuid_hex r)
              ++ py " " ++ temp_path r)]
      ++ (lines ≫= λ line,
            [Shell (send_keys pane (escape line)); Shell (send_enter pane)])
      ++ [Unlink (temp_path r); Shell (send_enter pane)]
    ∧ length (filter (λ a, a = Shell (send_enter pane)) actions)
      = length lines + 1.
Proof.
  intros mapping agent_id pane command r Hp Hne Hnl Hrc lines actions.
  assert (actions
    = [WriteTemp (temp_path r) command;
       Shell (py "tmux load-buffer -b multiclaude_" ++ take 8 (uuid_hex r)
              ++ py " " ++ temp_path r)]
      ++ (lines ≫= λ line,
            [Shell (send_keys pane (escape line)); Shell (send_enter pane)])
      ++ [Unlink (temp_path r); Shell (send_enter pane)]) as Ha.
  { unfold actions, TmuxShell.send_to_pane. rewrite Hp.
    destruct pane as [|c p]; [done|]. rewrite Hnl. cbn [andb].
    rewrite bool_decide_false by done. rewrite send_lines_filter.
    fold lines. rewrite <- !app_assoc. done. }
  split; [done|]. rewrite Ha.
  assert (∀ t, Shell (send_keys pane t) ≠ Shell (send_enter pane)) as Hk.
  { intros t [= H]. apply app_inv_head in H.
    unfold single_quote in H. discriminate H. }
  rewrite !filter_app, !length_app.
  rewrite filter_cons_False by done. rewrite filter_cons_False by done.
  rewrite filter_nil.
  rewrite (filter_cons_False _ (Unlink _)) by done.
  rewrite filter_cons_True by done. rewrite filter_nil. cbn [length].
  assert (length (filter (λ a, a = Shell (send_enter pane))
            (lines ≫= λ line,
               [Shell (send_keys pane (escape line)); Shell (send_enter pane)]))
          = length lines) as ->; [|lia].
  clear Ha. clearbody lines. induction lines as [|l ls IH]; [done|].
  rewrite bind_cons, filter_app, length_app, IH.
  rewrite filter_cons_False by apply Hk.
  rewrite filter_cons_True by done. done.
Qed.

Lemma send_to_pane_fallback_witness :
  let mapping : gmap nat str := {[ 0 := py "claude_agents:agents.0" ]} in
  let command := py "Fix it" ++ nl ++ nl ++ py "[Agent ID: a]" in
  let r := mk_send_readings (py "/tmp/tmpab12cd34") (py "0123456789abcdef") 1 in
  contains nl command = true
  ∧ length (filter (λ a, a = Shell (send_enter (py "claude_agents:agents.0")))
              (TmuxShell.send_to_pane mapping 0 command true r))
    = 3.
Proof.
  intros mapping command r. split; [reflexivity|].
  refine (proj2 (send_to_pane_fallback mapping 0 (py "claude_agents:agents.0")
                   command r _ _ _ _)).
  - reflexivity.
  - discriminate.
  - reflexivity.
  - discriminate.
Defined.

Lemma read_word_single s rest :
  single_quote ∉ s →
  read_word InSingle (s ++ single_quote :: rest)
  = (s ++.) <$> read_word Unquoted rest.
Proof.
  induction s as [|c s IH]; intros Hs.
  - cbn [app read_word]. rewrite bool_decide_true by done.
    by destruct (read_word Unquoted rest).
  - apply not_elem_of_cons in Hs as [Hc Hs].
    cbn [app read_word]. rewrite bool_decide_false by done.
    rewrite IH by done. by destruct (read_word Unquoted rest).
Qed.

Lemma read_word_escaped_quote t :
  read_word InSingle
    ([single_quote; double_quote; single_quote; double_quote; single_quote] ++ t)
  = (single_quote ::.) <$> read_word InSingle t.
Proof.
  cbn [app read_word].
  change (bool_decide (single_quote = single_quote)) with true.
  change (bool_decide (double_quote = single_quote)) with false.
  change (bool_decide (double_quote = double_quote)) with true.
  change (bool_decide (single_quote = double_quote)) with false.
  change (bool_decide (single_quote ∈ [dollar; backquote; backslash])) with false.
  cbv iota. by destruct (read_word InSingle t).
Qed.

Lemma read_word_escape s rest :
  read_word InSingle (escape s ++ single_quote :: rest)
  = (s ++.) <$> read_word Unquoted rest.
Proof.
  induction s as [|c s IH].
  - change (escape []) with (@nil ascii).
    cbn [app read_word]. rewrite bool_decide_true by done.
    by destruct (read_word Unquoted rest).
  - unfold escape. rewrite bind_cons. fold (escape s).
    destruct (decide (c = single_quote)) as [->|Hc].
    + rewrite bool_decide_true by done. rewrite <- app_assoc.
      rewrite read_word_escaped_quote, IH.
      by destruct (read_word Unquoted rest).
    + rewrite bool_decide_false by done. cbn [app read_word].
      rewrite bool_decide_false by done. rewrite IH.
      by destruct (read_word Unquoted rest).
Qed.

Lemma agent_title_no_quote i what :
  single_quote ∉ what → single_quote ∉ agent_title i what.
Proof.
  intros Hw. unfold agent_title. rewrite !not_elem_of_app. split_and!.
  - by apply not_elem_of_literal.
  - intros H. apply str_of_int_chars in H as [H|H]; by vm_compute in H.
  - by apply not_elem_of_literal.
  - done.
Qed.

(** X9. Quoting for the shell. The last word of the command line with
    which [send_to_pane] types a text, the escaped text between single quotes,
    is read by the shell as that very text, whatever characters it holds. The
    last word of the command line of [set_pane_title], the title between
    single quotes with nothing escaped, is read as the title when the title
    holds no single quote, which is the case of every title the program
    sets. *)
Theorem quoting_round_trip :
  (∀ pane text,
     ∃ word,
       send_keys pane (escape text) = py "tmux send-keys -t " ++ pane ++ py " " ++ word
       ∧ read_word Unquoted word = Some text)
  ∧ (∀ mapping agent_id pane title,
       mapping !! agent_id = Some pane → pane ≠ [] →
       single_quote ∉ title →
       ∃ word,
         TmuxShell.set_pane_title mapping agent_id title
         = [Shell (py "tmux select-pane -t " ++ pane ++ py " -T " ++ word)]
         ∧ read_word Unquoted word = Some title)
  ∧ (∀ i, (single_quote ∉ agent_title i (py "Ready"))
          ∧ (single_quote ∉ agent_title i (py "Working"))).
Proof.
  split_and!.
  - intros pane text. exists ([single_quote] ++ escape text ++ [single_quote]).
    split; [done|].
    cbn [app read_word]. rewrite bool_decide_true by done.
    rewrite read_word_escape. cbn. by rewrite app_nil_r.
  - intros mapping agent_id pane title Hp Hne Ht.
    exists ([single_quote] ++ title ++ [single_quote]). split.
    + unfold TmuxShell.set_pane_title. rewrite Hp. by destruct pane.
    + cbn [app read_word]. rewrite bool_decide_true by done.
      rewrite read_word_single by done. cbn. by rewrite app_nil_r.
  - intros i. split; apply agent_title_no_quote; by apply not_elem_of_literal.
Qed.

Lemma quoting_round_trip_witness :
  let mapping : gmap nat str := {[ 0 := py "claude_agents:agents.0" ]} in
  (single_quote ∉ py "Agent 0 - Ready")
  ∧ ∃ word,
      TmuxShell.set_pane_title mapping 0 (py "Agent 0 - Ready")
      = [Shell (py "tmux select-pane -t claude_agents:agents.0 -T " ++ word)]
      ∧ read_word Unquoted word = Some (py "Agent 0 - Ready").
Proof.
  intros mapping.
  assert (single_quote ∉ py "Agent 0 - Ready") as H
    by (by apply not_elem_of_literal).
  split; [exact H|].
  apply (proj1 (proj2 quoting_round_trip) mapping 0 (py "claude_agents:agents.0")
           (py "Agent 0 - Ready")); [reflexivity|discriminate|exact H].
Defined.

(** X10. [check_agent_ready] answers [True] exactly when the agent has a
    pane and one of the five markers occurs in the text captured from it; so
    text before or after what made the answer [True] does not change it, and
    the answer for an agent without a pane is [False] whatever its screen
    shows. *)
Theorem check_agent_ready_iff :
  ∀ w agent_id screen,
    (check_agent_ready w agent_id screen = true ↔
       is_Some (pane_of w agent_id)
       ∧ ∃ indicator, indicator ∈ ready_indicators ∧ occurs_in indicator screen)
    ∧ (∀ before after,
         check_agent_ready w agent_id screen = true →
         check_agent_ready w agent_id (before ++ screen ++ after) = true)
    ∧ (pane_of w agent_id = None → check_agent_ready w agent_id screen = false).
Proof.
  intros w agent_id screen.
  assert (∀ s, check_agent_ready w agent_id s = true ↔
            is_Some (pane_of w agent_id)
            ∧ ∃ indicator, indicator ∈ ready_indicators ∧ occurs_in indicator s)
    as Hiff.
  { intros s. unfold check_agent_ready, capture_pane.
    rewrite existsb_exists. split.
    - intros (ind & Hin & Hc). apply list_elem_of_In in Hin.
      destruct (pane_of w agent_id).
      + split; [done|]. exists ind. split; [done|]. by apply contains_spec.
      + exfalso. rewrite contains_false_nil in Hc; [done|].
        intros ->. revert Hin. by apply not_elem_of_literal_str.
    - intros [[p Hp] (ind & Hin & Ho)]. rewrite Hp. exists ind.
      split; [by apply list_elem_of_In|]. by apply contains_spec. }
  split_and!.
  - apply Hiff.
  - intros before after H. apply Hiff in H as [Hp (ind & Hin & Ho)].
    apply Hiff. split; [done|]. exists ind. split; [done|].
    apply OrchestratorFacts.occurs_in_app_l, OrchestratorFacts.occurs_in_app_r.
    done.
  - intros Hp. apply not_true_is_false. intros H. apply Hiff in H as [[? ?] _].
    congruence.
Qed.

Lemma check_agent_ready_iff_witness :
  check_agent_ready Orchestrator.two_agents 0 (py "? for shortcuts") = true
  ∧ check_agent_ready Orchestrator.two_agents 0
      (py "> " ++ py "? for shortcuts" ++ py "  (esc to interrupt)") = true.
Proof.
  assert (check_agent_ready Orchestrator.two_agents 0 (py "? for shortcuts") = true)
    as H by reflexivity.
  split; [exact H|].
  apply (proj1 (proj2 (check_agent_ready_iff Orchestrator.two_agents 0
                         (py "? for shortcuts")))
               (py "> ") (py "  (esc to interrupt)") H).
Defined.

End TmuxShellFacts.

(** ** Launching all agents *)

Module LaunchFacts.
Import Launcher Orchestrator LauncherFacts Delivery.

Lemma bind_returns_inv {A B} (m : M A) (k : A → M B) w b w' :
  (m ≫= k) w = (Returns b, w') →
  ∃ x w1, m w = (Returns x, w1) ∧ k x w1 = (Returns b, w').
Proof.
  unfold mbind, M_bind. destruct (m w) as [[x| |] w1]; [|done..].
  intros H. by exists x, w1.
Qed.

Lemma pane_of_lookup w i pane :
  pane_of w i = Some pane → pane_mapping w !! i = Some pane.
Proof.
  unfold pane_of. destruct (pane_mapping w !! i) as [[|c p]|]; naive_solver.
Qed.

Lemma pane_of_mapping w w' i :
  pane_mapping w' = pane_mapping w → pane_of w' i = pane_of w i.
Proof. unfold pane_of. by intros ->. Qed.

(** The registry after a sequence of registrations: an entry under a uid
    that none of them uses is as it was, and the entry under the uid of an
    agent that shares it with no other is the one of that agent. *)
Lemma registered_after_other e l registered k :
  (∀ i, i ∈ l → k ≠ launch_uid e i) →
  registered_after e l registered !! k = registered !! k.
Proof.
  unfold registered_after. revert registered.
  induction l as [|i l IH]; intros registered Hk; [done|].
  cbn [foldl]. rewrite IH by (intros j Hj; apply Hk; by right).
  apply lookup_insert_ne. intros Heq. by apply (Hk i); [left|].
Qed.

Lemma registered_after_own e l registered i :
  NoDup l →
  i ∈ l →
  (∀ j, j ∈ l → launch_uid e j = launch_uid e i → j = i) →
  registered_after e l registered !! launch_uid e i = Some (launch_entry e i).
Proof.
  revert registered.
  induction l as [|i0 l IH]; intros registered Hnd Hi Huniq.
  { by apply not_elem_of_nil in Hi. }
  apply NoDup_cons in Hnd as [Hi0 Hnd].
  change (registered_after e (i0 :: l) registered)
    with (registered_after e l (<[launch_uid e i0 := launch_entry e i0]> registered)).
  destruct (decide (i ∈ l)) as [Hil|Hil].
  - apply IH; [done|done|]. intros j Hj. apply Huniq. by right.
  - apply elem_of_cons in Hi as [->|Hi]; [|done].
    rewrite registered_after_other; [by rewrite lookup_insert_eq|].
    intros j Hj Heq. apply Hil.
    rewrite <- (Huniq j); [done|by right|done].
Qed.

(** What [launch_agent] does for an agent with a pane when the registry
    can be read. *)
Lemma launch_agent_ok i pp r w pane registered :
  pane_of w i = Some pane →
  Coordination.load_agents (registry w) = Ok (Coordination.JObject registered) →
  let u := Coordination.unique_id (Z.of_nat i) (register_now r) (register_time r) in
  let agent := mk_agent i pane Ready (start_reading r) 0 (Some u) in
  ∃ w', launch_agent i pp r w = (Returns agent, w')
    ∧ pane_mapping w' = pane_mapping w
    ∧ agents w' = <[i := agent]> (agents w)
    ∧ registry w'
      = Coordination.Json (Coordination.JObject
          (<[u := Coordination.mk_entry (Z.of_nat i) (register_now' r)
                    (py "active")]> registered))
    ∧ work_claims w' = work_claims w
    ∧ completed_work w' = completed_work w
    ∧ tmux_calls w'
      = tmux_calls w
        ++ [SendToPane i (py "cd " ++ pp) true;
            SendToPane i (py "claude --dangerously-skip-permissions") true;
            SetPaneTitle i (agent_title i (py "Ready"))].
Proof.
  intros Hp Hload u agent. pose proof (pane_of_lookup _ _ _ Hp) as Hpane.
  unfold launch_agent. rewrite get_bind, Hpane, modify_bind.
  set (w0 := set_agent i _ w).
  assert (pane_of w0 i = Some pane) as Hp0 by done.
  destruct (send_to_pane_run i (py "cd " ++ pp) true w0)
    as (wa & Ha & Hpa & Haa & Hra & Hwa & Hca & Hta).
  rewrite (bind_returns _ _ _ _ _ Ha). rewrite Hp0 in Hta.
  assert (pane_of wa i = Some pane) as Hp1
    by (by rewrite (pane_of_mapping _ _ _ Hpa)).
  destruct (send_to_pane_run i (py "claude --dangerously-skip-permissions") true wa)
    as (wb & Hb & Hpb & Hab & Hrb & Hwb & Hcb & Htb).
  rewrite (bind_returns _ _ _ _ _ Hb), get_bind. rewrite Hp1 in Htb.
  assert (registry wb = registry w) as Hreg by (by rewrite Hrb, Hra).
  assert (coord_register_agent i r wb
          = (Returns u, set_registry
               (Coordination.Json (Coordination.JObject
                  (<[u := Coordination.mk_entry (Z.of_nat i) (register_now' r)
                            (py "active")]> registered))) wb)) as Hc.
  { unfold coord_register_agent. rewrite Hreg.
    by rewrite (register_agent_loaded _ _ _ _ _ _ Hload). }
  rewrite (bind_returns _ _ _ _ _ Hc), modify_bind.
  set (wc := set_agent i _ (set_registry _ wb)).
  assert (pane_of wc i = Some pane) as Hp2.
  { unfold wc. rewrite pane_of_set_agent, pane_of_set_registry.
    by rewrite (pane_of_mapping _ _ _ Hpb). }
  destruct (set_pane_title_run i (agent_title i (py "Ready")) wc)
    as (wd & Hd & Hpd & Had & Hrd & Hwd & Hcd & Htd).
  rewrite (bind_returns _ _ _ _ _ Hd). rewrite Hp2 in Htd.
  exists wd. split; [reflexivity|]. split_and!.
  - rewrite Hpd. simpl. by rewrite Hpb, Hpa.
  - rewrite Had. simpl. rewrite Hab, Haa. simpl. by rewrite insert_insert_eq.
  - by rewrite Hrd.
  - rewrite Hwd. simpl. by rewrite Hwb, Hwa.
  - rewrite Hcd. simpl. by rewrite Hcb, Hca.
  - rewrite Htd. simpl. rewrite Htb, Hta. simpl. by rewrite <- !app_assoc.
Qed.

Section Launch.
Variable pp : str.
Variable e : env.

Lemma launch_all_run l : ∀ w registered,
  NoDup l →
  (∀ i, i ∈ l → launch_running e i = true) →
  (∀ i, i ∈ l → is_Some (pane_of w i)) →
  Coordination.load_agents (registry w) = Ok (Coordination.JObject registered) →
  ∃ w' registered',
    launch_all pp e l w = (Returns tt, w')
    ∧ pane_mapping w' = pane_mapping w
    ∧ work_claims w' = work_claims w
    ∧ completed_work w' = completed_work w
    ∧ (∀ i pane, i ∈ l → pane_of w i = Some pane →
         agents w' !! i = Some (launched e i pane))
    ∧ (∀ i, i ∉ l → agents w' !! i = agents w !! i)
    ∧ (∀ i, delivered i w'
            = delivered i w
              ++ if bool_decide (i ∈ l)
                 then [py "cd " ++ pp; py "claude --dangerously-skip-permissions"]
                 else [])
    ∧ Coordination.load_agents (registry w')
      = Ok (Coordination.JObject registered')
    ∧ (∀ i, i ∈ l → is_Some (registered' !! launch_uid e i))
    ∧ (∀ k, is_Some (registered !! k) → is_Some (registered' !! k))
    ∧ registered' = registered_after e l registered.
Proof.
  induction l as [|i l IH]; intros w registered Hnd Hrun Hpanes Hload.
  - exists w, registered. cbn [launch_all]. split; [done|].
    split_and!; try done.
    + intros i pane Hi. by apply not_elem_of_nil in Hi.
    + intros i. rewrite bool_decide_false by apply not_elem_of_nil.
      by rewrite app_nil_r.
    + intros i Hi. by apply not_elem_of_nil in Hi.
  - apply NoDup_cons in Hnd as [Hi Hnd].
    destruct (Hpanes i) as [pane Hp]; [left|].
    destruct (launch_agent_ok i pp (readings e i) w pane registered Hp Hload)
      as (w1 & Hl & Hp1 & Ha1 & Hr1 & Hw1 & Hc1 & Ht1).
    edestruct (IH w1) as (w' & registered' & Hrest & Hp' & Hw' & Hc' & Hag
                                   & Hout & Hdel & Hreg & Hin & Hkeep & Hafter).
    { exact Hnd. }
    { intros j Hj. apply Hrun. by right. }
    { intros j Hj. rewrite (pane_of_mapping _ _ _ Hp1). apply Hpanes. by right. }
    { rewrite Hr1. reflexivity. }
    exists w', registered'. split.
    { cbn [launch_all]. rewrite Hrun by left.
      rewrite (bind_returns _ _ _ _ _ Hl). exact Hrest. }
    split_and!.
    + by rewrite Hp', Hp1.
    + by rewrite Hw', Hw1.
    + by rewrite Hc', Hc1.
    + intros j pane' [->|Hj]%elem_of_cons Hpj.
      * rewrite Hout by done. rewrite Ha1, lookup_insert_eq.
        by simplify_eq.
      * apply Hag; [done|]. by rewrite (pane_of_mapping _ _ _ Hp1).
    + intros j [Hji Hj]%not_elem_of_cons. rewrite Hout by done.
      rewrite Ha1. by rewrite lookup_insert_ne.
    + intros j. rewrite Hdel. rewrite (delivered_calls j w w1 _ Ht1).
      rewrite <- app_assoc. f_equal. cbn [omap list_omap].
      destruct (decide (j = i)) as [->|Hji].
      * rewrite !(bool_decide_true (i = i)) by done.
        rewrite (bool_decide_true (i ∈ i :: l)) by left.
        rewrite (bool_decide_false (i ∈ l)) by done. done.
      * rewrite !(bool_decide_false (i = j)) by done.
        destruct (decide (j ∈ l)) as [Hj|Hj].
        -- rewrite (bool_decide_true (j ∈ l)) by done.
           rewrite (bool_decide_true (j ∈ i :: l)) by (by right). done.
        -- rewrite (bool_decide_false (j ∈ l)) by done.
           rewrite (bool_decide_false (j ∈ i :: l)); [done|].
           by intros [?|?]%elem_of_cons.
    + done.
    + intros j [->|Hj]%elem_of_cons; [|by apply Hin].
      apply Hkeep. rewrite lookup_insert_eq. done.
    + intros k Hk. apply Hkeep.
      destruct (decide (k = Coordination.unique_id (Z.of_nat i)
                              (register_now (readings e i))
                              (register_time (readings e i)))) as [->|Hne].
      * by rewrite lookup_insert_eq.
      * by rewrite lookup_insert_ne.
    + exact Hafter.
Qed.

Lemma launch_all_stops l1 k l2 w :
  (∀ i, i ∈ l1 → launch_running e i = true) →
  launch_running e k = false →
  launch_all pp e (l1 ++ k :: l2) w = launch_all pp e l1 w.
Proof.
  intros Hrun Hk. revert w. induction l1 as [|i l1 IH]; intros w.
  - cbn [app launch_all]. by rewrite Hk.
  - cbn [app launch_all]. rewrite Hrun by left.
    unfold mbind, M_bind. destruct (launch_agent i pp (readings e i) w) as [[| |] w1];
      [|done..].
    apply IH. intros j Hj. apply Hrun. by right.
Qed.

End Launch.

(** X11. The launch loop of [run]. When the flag [RUNNING] stays set,
    each of the [n] agents has a pane and the registry can be read, the loop
    launches every agent without raising: agent [i] is recorded with its
    pane, the status [ready] and the uid it was registered under, its pane
    has been sent [cd <project>] and then the command that starts the
    program, in this order and nothing else. The registry is the one before
    the loop with the entry of each agent written under its uid, in the
    order of the agents: every key it had is still there, an entry under a
    uid that no agent was given is as it was, an entry it had under the uid
    of an agent is replaced, and the entry under the uid of agent [i] is the
    one of agent [i] unless another agent was given the same uid. Agents
    from [n] on are not touched. *)
Theorem launch_all_launches :
  ∀ pp e n w registered,
    (∀ i, i < n → launch_running e i = true) →
    (∀ i, i < n → is_Some (pane_of w i)) →
    Coordination.load_agents (registry w) = Ok (Coordination.JObject registered) →
    ∃ w' registered',
      launch_all pp e (seq 0 n) w = (Returns tt, w')
      ∧ pane_mapping w' = pane_mapping w
      ∧ (∀ i, i < n →
           ∃ pane, pane_mapping w !! i = Some pane
             ∧ agents w' !! i
               = Some (mk_agent i pane Ready (start_reading (readings e i)) 0
                                (Some (launch_uid e i)))
             ∧ delivered i w'
               = delivered i w
                 ++ [py "cd " ++ pp; py "claude --dangerously-skip-permissions"]
             ∧ is_Some (registered' !! launch_uid e i))
      ∧ (∀ i, n ≤ i →
           agents w' !! i = agents w !! i ∧ delivered i w' = delivered i w)
      ∧ Coordination.load_agents (registry w')
        = Ok (Coordination.JObject registered')
      ∧ (∀ k, is_Some (registered !! k) → is_Some (registered' !! k))
      ∧ registered' = registered_after e (seq 0 n) registered
      ∧ (∀ k, (∀ i, i < n → k ≠ launch_uid e i) →
           registered' !! k = registered !! k)
      ∧ (∀ i, i < n →
           (∀ j, j < n → launch_uid e j = launch_uid e i → j = i) →
           registered' !! launch_uid e i = Some (launch_entry e i)).
Proof.
  intros pp e n w registered Hrun Hpanes Hload.
  destruct (launch_all_run pp e (seq 0 n) w registered)
    as (w' & registered' & Hl & Hp & _ & _ & Hag & Hout & Hdel & Hreg & Hin & Hkeep
        & Hafter).
  { apply NoDup_seq. }
  { intros i Hi%elem_of_seq. apply Hrun. lia. }
  { intros i Hi%elem_of_seq. apply Hpanes. lia. }
  { done. }
  exists w', registered'. split_and!; [done..| | |done|done|done| |].
  3:{ intros k Hk. rewrite Hafter. apply registered_after_other.
      intros i Hi%elem_of_seq. apply Hk. lia. }
  3:{ intros i Hi Huniq. rewrite Hafter.
      apply registered_after_own; [apply NoDup_seq|apply elem_of_seq; lia|].
      intros j Hj%elem_of_seq. apply Huniq. lia. }
  - intros i Hi. destruct (Hpanes i Hi) as [pane Hpane].
    assert (i ∈ seq 0 n) as Hs by (apply elem_of_seq; lia).
    exists pane. split_and!.
    + by apply pane_of_lookup.
    + by apply Hag.
    + by rewrite Hdel, bool_decide_true.
    + by apply Hin.
  - intros i Hi.
    assert (i ∉ seq 0 n) as Hs by (rewrite elem_of_seq; lia).
    split; [by apply Hout|]. by rewrite Hdel, bool_decide_false, app_nil_r.
Qed.

Lemma launch_all_launches_witness :
  let w := set_panes (pane_mapping two_agents) fresh_world in
  ∃ w', launch_all (py "/srv/app") always_ready (seq 0 2) w = (Returns tt, w')
        ∧ delivered 1 w'
          = [py "cd /srv/app"; py "claude --dangerously-skip-permissions"].
Proof.
  intros w.
  destruct (launch_all_launches (py "/srv/app") always_ready 2 w ∅)
    as (w' & registered' & Hl & _ & Hin & _).
  - done.
  - intros i Hi. destruct i as [|[|i]]; [by eexists..|lia].
  - done.
  - exists w'. split; [exact Hl|].
    destruct (Hin 1) as (pane & _ & _ & Hd & _); [lia|]. exact Hd.
Defined.

(** X12. The [break] of the launch loop. When the flag [RUNNING] is found
    cleared as the loop reaches agent [k], the agents before [k] have been
    launched and no agent from [k] on is: none of them is recorded, and
    nothing is sent to their panes. *)
Theorem launch_all_interrupted :
  ∀ pp e n k w registered,
    k < n →
    (∀ i, i < k → launch_running e i = true) →
    launch_running e k = false →
    (∀ i, i < k → is_Some (pane_of w i)) →
    Coordination.load_agents (registry w) = Ok (Coordination.JObject registered) →
    ∃ w',
      launch_all pp e (seq 0 n) w = (Returns tt, w')
      ∧ (∀ i, i < k → ∃ a, agents w' !! i = Some a ∧ status a = Ready)
      ∧ (∀ i, k ≤ i →
           agents w' !! i = agents w !! i ∧ delivered i w' = delivered i w).
Proof.
  intros pp e n k w registered Hk Hrun Hstop Hpanes Hload.
  destruct (launch_all_run pp e (seq 0 k) w registered)
    as (w' & registered' & Hl & Hp & _ & _ & Hag & Hout & Hdel & _).
  { apply NoDup_seq. }
  { intros i Hi%elem_of_seq. apply Hrun. lia. }
  { intros i Hi%elem_of_seq. apply Hpanes. lia. }
  { done. }
  exists w'. split_and!.
  - replace n with (k + S (n - S k)) by lia.
    rewrite seq_app. cbn [seq Nat.add]. rewrite launch_all_stops; [done| |done].
    intros i Hi%elem_of_seq. apply Hrun. lia.
  - intros i Hi. destruct (Hpanes i Hi) as [pane Hpane].
    exists (launched e i pane). split; [|reflexivity].
    apply Hag; [|done]. apply elem_of_seq. lia.
  - intros i Hi.
    assert (i ∉ seq 0 k) as Hs by (rewrite elem_of_seq; lia).
    split; [by apply Hout|]. by rewrite Hdel, bool_decide_false, app_nil_r.
Qed.

Lemma launch_all_interrupted_witness :
  let w := set_panes (pane_mapping two_agents) fresh_world in
  let e := mk_env (Some (pane_mapping two_agents)) (λ i, i <? 1)
                  (readings always_ready) (running always_ready)
                  (ready_screen always_ready) (done_screen always_ready)
                  (idle_running always_ready) in
  ∃ w', launch_all (py "/srv/app") e (seq 0 2) w = (Returns tt, w')
        ∧ agents w' !! 1 = None ∧ delivered 1 w' = [].
Proof.
  intros w e.
  destruct (launch_all_interrupted (py "/srv/app") e 2 1 w ∅)
    as (w' & Hl & _ & Hout).
  - lia.
  - intros i Hi. by replace i with 0 by lia.
  - done.
  - intros i Hi. replace i with 0 by lia. by eexists.
  - done.
  - exists w'. split; [exact Hl|]. exact (Hout 1 (le_n 1)).
Defined.

End LaunchFacts.

(** ** The scheduler at its edges *)

Module SchedulerEdgeFacts.
Import Launcher Orchestrator LauncherFacts OrchestratorFacts SchedulerFacts
  RunFacts Delivery LaunchFacts.

Section Edges.
Variable a : args.
Variable prompt : BuildPrompt.
Variable e : env.

Lemma check_agent_ready_mapping w w' i screen :
  pane_mapping w' = pane_mapping w →
  check_agent_ready w' i screen = check_agent_ready w i screen.
Proof.
  intros H. unfold check_agent_ready, capture_pane.
  by rewrite (pane_of_mapping _ _ _ H).
Qed.

Lemma assign_skip it s i w :
  check_agent_ready w i (ready_screen e it i) = false →
  assign a prompt e it s i w = (Returns s, w).
Proof.
  intros Hc. unfold assign. case_bool_decide; [done|].
  rewrite get_bind, Hc. done.
Qed.

Lemma sweep_skip it l s w :
  (∀ i, i ∈ l → check_agent_ready w i (ready_screen e it i) = false) →
  for_each l (assign a prompt e it) s w = (Returns s, w).
Proof.
  induction l as [|i l IH]; intros Hl; [done|]. cbn [for_each].
  rewrite (bind_returns _ _ _ _ _ (assign_skip it s i w (Hl i ltac:(left)))).
  apply IH. intros j Hj. apply Hl. by right.
Qed.

Lemma bundling_size b : bundling a = Some b → 1 < b.
Proof.
  unfold bundling. destruct (bundle_steps a) as [z|]; [|done].
  destruct (1 <? z)%Z eqn:Hz; [|done]. intros [= <-].
  apply Z.ltb_lt in Hz. lia.
Qed.

(** The two ways in which [assign] returns: it leaves everything as it
    is, or it has sent one prompt to the agent, which was not at work and
    whose pane showed a marker. *)
Lemma assign_cases it s i w s' w' :
  assign a prompt e it s i w = (Returns s', w') →
  (s' = s ∧ w' = w)
  ∨ ((i ∉ agents_working s)
     ∧ check_agent_ready w i (ready_screen e it i) = true
     ∧ step_index s < step_index s'
     ∧ (∃ bundle, assignments s' = assignments s ++ [(i, bundle)])
     ∧ agents_working s' = {[i]} ∪ agents_working s
     ∧ pane_mapping w' = pane_mapping w).
Proof.
  unfold assign. case_bool_decide as Hw; [intros [= <- <-]; by left|].
  rewrite get_bind.
  destruct (check_agent_ready w i (ready_screen e it i)) eqn:Hc;
    [|intros [= <- <-]; by left].
  destruct (step_index s <? length (steps prompt)) eqn:Hlt;
    [|intros [= <- <-]; by left].
  apply Nat.ltb_lt in Hlt.
  assert (∀ p s1,
    (send_prompt i p ;; mret s1) w = (Returns s', w') →
    s' = s1 ∧ pane_mapping w' = pane_mapping w) as Hsend.
  { intros p s1 H. unfold mbind, M_bind in H.
    destruct (send_prompt i p w) as [[[]| |] w1] eqn:Hs; [|done..].
    injection H as <- <-. split; [done|].
    by destruct (growing_send_prompt i p w _ _ Hs). }
  destruct (bundling a) as [b|] eqn:Hb.
  - intros H. apply Hsend in H as [-> Hp]. right.
    pose proof (bundling_size b Hb). cbn [step_index assignments agents_working].
    split_and!; [done|done|lia|by eexists|done|done].
  - destruct (steps prompt !! step_index s) as [step|]; [|done].
    intros H. apply Hsend in H as [-> Hp]. right.
    cbn [step_index assignments agents_working].
    split_and!; [done|done|lia|by eexists|done|done].
Qed.

Lemma sweep_cases it l : ∀ s w s' w',
  NoDup l →
  for_each l (assign a prompt e it) s w = (Returns s', w') →
  pane_mapping w' = pane_mapping w
  ∧ step_index s ≤ step_index s'
  ∧ ∃ new,
      assignments s' = assignments s ++ new
      ∧ NoDup new.*1
      ∧ length new ≤ length l
      ∧ (∀ i, i ∈ new.*1 →
           i ∈ l ∧ (i ∉ agents_working s)
           ∧ check_agent_ready w i (ready_screen e it i) = true)
      ∧ agents_working s' = list_to_set new.*1 ∪ agents_working s.
Proof.
  induction l as [|i l IH]; intros s w s' w' Hnd Hrun.
  - injection Hrun as <- <-. split; [done|]. split; [done|]. exists [].
    rewrite app_nil_r. split_and!; [done|apply NoDup_nil_2|done| |].
    + intros i Hi. by apply not_elem_of_nil in Hi.
    + cbn. by rewrite (left_id_L ∅ (∪)).
  - apply NoDup_cons in Hnd as [Hi Hnd]. cbn [for_each] in Hrun.
    apply bind_returns_inv in Hrun as (s1 & w1 & Ha & Hrun).
    destruct (IH _ _ _ _ Hnd Hrun) as (Hp & Hle & new & Hnew & Hnd' & Hlen & Hin & Hwork).
    apply assign_cases in Ha
      as [[-> ->]|(Hiw & Hc & Hlt & (bundle & Hasg) & Hw1 & Hp1)].
    + split; [done|]. split; [done|]. exists new.
      split_and!; [done|done|simpl; lia| |done].
      intros j Hj. destruct (Hin j Hj) as (? & ? & ?). split; [by right|done].
    + split; [by rewrite Hp|]. split; [lia|]. exists ((i, bundle) :: new).
      assert (i ∉ new.*1) as Hnot.
      { intros Hj. by destruct (Hin i Hj) as (? & _). }
      split_and!.
      * rewrite Hnew, Hasg, <- app_assoc. done.
      * rewrite fmap_cons. by apply NoDup_cons.
      * simpl. lia.
      * intros j. rewrite fmap_cons. intros [->|Hj]%elem_of_cons.
        -- split; [left|done].
        -- destruct (Hin j Hj) as (Hjl & Hjw & Hjc). split; [by right|].
           split; [intros ?; apply Hjw; rewrite Hw1; apply elem_of_union; by right|].
           by rewrite <- (check_agent_ready_mapping w w1 j _ Hp1).
      * rewrite Hwork, Hw1, fmap_cons, list_to_set_cons.
        rewrite (assoc_L (∪)). f_equal. apply (comm_L (∪)).
Qed.

End Edges.

(** X13. Sequential mode never gives up and never sends anything while no
    pane shows one of the readiness markers: with the flag [RUNNING] set and
    at least one step to assign, [_orchestrate_steps] is still in its first
    loop after any number of turns, with the world as it found it. *)
Theorem no_ready_agent_no_progress :
  ∀ a prompt e w,
    collaborative a = false → steps prompt ≠ [] →
    (∀ it, running e it = true) →
    (∀ it i, i < n_agents a →
       check_agent_ready w i (ready_screen e it i) = false) →
    ∀ fuel, _orchestrate_steps a prompt e fuel w = (Pending, w).
Proof.
  intros a prompt e w Hcol Hsteps Hrun Hnot fuel.
  unfold _orchestrate_steps. rewrite Hcol.
  assert (∀ it, assign_loop a prompt e fuel it (mk_sched 0 ∅ []) w = (Pending, w))
    as Hloop.
  { induction fuel as [|fuel IH]; intros it; [done|].
    rewrite assign_loop_S, Hrun. cbn [step_index andb].
    assert ((0 <? length (steps prompt)) = true) as ->.
    { apply Nat.ltb_lt. destruct (steps prompt); [done|simpl; lia]. }
    assert (for_each (seq 0 (n_agents a)) (assign a prompt e it)
              (mk_sched 0 ∅ []) w = (Returns (mk_sched 0 ∅ []), w)) as Hsweep.
    { apply sweep_skip. intros i Hi%elem_of_seq. apply Hnot. lia. }
    rewrite (bind_returns _ _ _ _ _ Hsweep).
    rewrite (bind_returns _ _ _ _ _ (poll_run e it _ w)).
    cbn [step_index agents_working assignments].
    assert (filter (λ i : nat, shows_ready w i (done_screen e it i) = false)
                   (∅ : gset nat) = ∅) as -> by (apply filter_empty_L; apply _).
    apply IH. }
  by rewrite (bind_pending _ _ _ _ (Hloop 0)).
Qed.

Lemma no_ready_agent_no_progress_witness :
  let a := mk_args 2 true true false None in
  let e := mk_env (Some (pane_mapping two_agents)) (λ _, true)
                  (readings always_ready) (λ _, true)
                  (λ _ _, py "bash: claude: command not found")
                  (done_screen always_ready) (λ _, true) in
  _orchestrate_steps a two_steps e 1000 two_agents = (Pending, two_agents).
Proof.
  intros a e.
  apply (no_ready_agent_no_progress a two_steps e two_agents);
    [reflexivity|discriminate|reflexivity|].
  intros it i Hi. unfold a in Hi. cbn in Hi.
  destruct i as [|[|i]]; [reflexivity..|lia].
Defined.

(** X14. One turn of the scheduler gives an agent at most one bundle.
    The assignments a turn adds go to distinct agents, each of which was not
    at work when the turn began and had a pane that showed a readiness
    marker; these agents, and no others, are added to the agents at work; so
    a turn makes at most as many assignments as there are agents. *)
Theorem sweep_assigns_once :
  ∀ a prompt e it s w s' w',
    for_each (seq 0 (n_agents a)) (assign a prompt e it) s w = (Returns s', w') →
    ∃ new,
      assignments s' = assignments s ++ new
      ∧ NoDup new.*1
      ∧ length new ≤ n_agents a
      ∧ (∀ i, i ∈ new.*1 →
           i < n_agents a ∧ (i ∉ agents_working s)
           ∧ check_agent_ready w i (ready_screen e it i) = true)
      ∧ agents_working s' = list_to_set new.*1 ∪ agents_working s.
Proof.
  intros a prompt e it s w s' w' Hrun.
  destruct (sweep_cases a prompt e it _ _ _ _ _ (NoDup_seq 0 (n_agents a)) Hrun)
    as (_ & _ & new & Hnew & Hnd & Hlen & Hin & Hwork).
  exists new. rewrite length_seq in Hlen. split_and!; [done..| |done].
  intros i Hi. destruct (Hin i Hi) as (Hs%elem_of_seq & ? & ?).
  split; [lia|done].
Qed.

Lemma sweep_assigns_once_witness :
  let a := mk_args 2 true true false None in
  ∃ s' w' new,
    for_each (seq 0 2) (assign a five_steps always_ready 0)
             (mk_sched 0 {[0]} []) two_agents = (Returns s', w')
    ∧ assignments s' = [] ++ new
    ∧ (∀ i, i ∈ new.*1 → i ∉ ({[0]} : gset nat)).
Proof.
  intros a.
  destruct (for_each (seq 0 2) (assign a five_steps always_ready 0)
              (mk_sched 0 {[0]} []) two_agents) as [out w'] eqn:Hrun.
  assert (∃ s', out = Returns s') as [s' ->].
  { vm_compute in Hrun. injection Hrun as <- _. by eexists. }
  destruct (sweep_assigns_once a five_steps always_ready 0 _ _ _ _ Hrun)
    as (new & Hnew & _ & _ & Hin & _).
  exists s', w', new. split; [done|]. split; [exact Hnew|].
  intros i Hi. by destruct (Hin i Hi) as (_ & ? & _).
Defined.


Section Waiting.
Variable e : env.

Lemma wait_loop_run fuel : ∀ it s w,
  ∃ out, wait_loop e fuel it s w = (out, w)
    ∧ match out with
      | Returns s' =>
          step_index s' = step_index s
          ∧ assignments s' = assignments s
          ∧ agents_working s' ⊆ agents_working s
          ∧ (agents_working s' = ∅
             ∨ ∃ it', it ≤ it' < it + fuel ∧ running e it' = false)
      | Raises _ => False
      | Pending => True
      end.
Proof.
  induction fuel as [|fuel IH]; intros it s w; [by exists Pending|].
  cbn [wait_loop]. destruct (running e it) eqn:Hr; cbn [andb].
  - case_bool_decide as Hw.
    + rewrite (bind_returns _ _ _ _ _ (poll_run e it s w)).
      destruct (IH (S it)
                  (mk_sched (step_index s)
                     (filter (λ i, shows_ready w i (done_screen e it i) = false)
                             (agents_working s))
                     (assignments s)) w) as (out & Hout & Hspec).
      exists out. split; [done|]. destruct out as [s'| |]; [|done..].
      cbn [step_index assignments agents_working] in Hspec.
      destruct Hspec as (? & ? & Hsub & Hend). split_and!; [done..| |].
      * intros i Hi. apply Hsub in Hi. by apply elem_of_filter in Hi as [_ ?].
      * destruct Hend as [?|(it' & ? & ?)]; [by left|right].
        exists it'. split; [lia|done].
    + exists (Returns s). split; [done|]. split_and!; [done..|].
      left. destruct (decide (agents_working s = ∅)); [done|by destruct Hw].
  - exists (Returns s). split; [done|]. split_and!; [done..|].
    right. exists it. split; [lia|done].
Qed.

Lemma idle_loop_run fuel : ∀ k w,
  idle_loop e fuel k w = (Pending, w) ∨ idle_loop e fuel k w = (Returns tt, w).
Proof.
  induction fuel as [|fuel IH]; intros k w; [by left|].
  cbn [idle_loop]. destruct (idle_running e k); [apply IH|by right].
Qed.

End Waiting.

(** X15. The loops that only wait send nothing and never raise. The last
    loop of sequential mode leaves the world, the list of assignments and the
    step index as they are and only takes agents out of the set of agents at
    work; when it returns, that set is empty or the flag [RUNNING] was found
    cleared. In collaborative mode [_orchestrate_steps] is such a loop from
    the start: it changes nothing and assigns no step. *)
Theorem waiting_sends_nothing :
  ∀ a prompt e fuel w,
    (∀ it s out w',
       wait_loop e fuel it s w = (out, w') →
       w' = w
       ∧ (∀ x, out ≠ Raises x)
       ∧ (∀ s', out = Returns s' →
            step_index s' = step_index s
            ∧ assignments s' = assignments s
            ∧ agents_working s' ⊆ agents_working s
            ∧ (agents_working s' = ∅
               ∨ ∃ it', it ≤ it' < it + fuel ∧ running e it' = false)))
    ∧ (collaborative a = true →
       ∀ out w', _orchestrate_steps a prompt e fuel w = (out, w') →
                 w' = w ∧ ∀ x, out ≠ Raises x).
Proof.
  intros a prompt e fuel w. split.
  - intros it s out w' Hrun.
    destruct (wait_loop_run e fuel it s w) as (out' & Hout & Hspec).
    rewrite Hout in Hrun. injection Hrun as -> ->. split; [done|]. split.
    + intros x ->. done.
    + intros s' ->. done.
  - intros Hcol out w' Hrun. unfold _orchestrate_steps in Hrun.
    rewrite Hcol in Hrun.
    destruct (idle_loop_run e fuel 0 w) as [H|H]; rewrite H in Hrun;
      injection Hrun as <- <-; by split.
Qed.

Lemma waiting_sends_nothing_witness :
  let a := mk_args 2 true true true None in
  collaborative a = true
  ∧ (_orchestrate_steps a two_steps interrupted 5 two_agents).2 = two_agents.
Proof.
  intros a. split; [reflexivity|].
  exact (proj1 (proj2 (waiting_sends_nothing a two_steps interrupted 5 two_agents)
                  eq_refl _ _ (surjective_pairing _))).
Defined.

Section Delivered.
Variable a : args.
Variable prompt : BuildPrompt.
Variable e : env.
Variable w0 : world.

(** What [send_prompt] has delivered to pane [i] for the assignments made
    so far: the prompts of its bundles when the agent was launched, nothing
    when it was not. *)
Local Abbreviation sent_for i assigned :=
  (match uid_of w0 i with
   | Some u => prompts_for a i u assigned
   | None => []
   end).

(** The state of the sequential loop agrees with the world: what has been
    delivered to each pane since [w0] is what the assignments say. *)
Local Abbreviation agrees s w :=
  (registered_agents w
   ∧ pane_mapping w = pane_mapping w0
   ∧ (∀ j, uid_of w j = uid_of w0 j)
   ∧ sched_inv a prompt s
   ∧ ∀ i, delivered i w = delivered i w0 ++ sent_for i (assignments s)).

Lemma prompts_for_snoc i u assigned j bundle :
  prompts_for a i u (assigned ++ [(j, bundle)])
  = prompts_for a i u assigned
    ++ if bool_decide (j = i) then [salted (assignment_prompt a bundle) u] else [].
Proof.
  unfold prompts_for. rewrite omap_app. f_equal. cbn. by case_bool_decide.
Qed.

Lemma assign_agrees it s i w s' w' :
  agrees s w →
  assign a prompt e it s i w = (Returns s', w') →
  agrees s' w'.
Proof.
  intros (Hreg & Hp & Hu & Hinv & Hdel) Hrun.
  destruct (assign_shape a prompt e it s i w Hinv) as [H|(Hiw & Hlt & Hc & H)];
    rewrite H in Hrun.
  { injection Hrun as <- <-. done. }
  set (bundle := take (bundle_size a) (drop (step_index s) (steps prompt))) in *.
  destruct (send_prompt_registered i (assignment_prompt a bundle) w Hreg)
    as (w1 & Hs & Hreg1 & Hp1 & _ & Hu1 & _ & Hdel1).
  rewrite (bind_returns _ _ _ _ _ Hs) in Hrun. injection Hrun as <- <-.
  split_and!.
  - done.
  - by rewrite Hp1.
  - intros j. by rewrite Hu1.
  - by apply sched_inv_after_assignment.
  - intros j. rewrite Hdel1, Hdel, <- app_assoc. f_equal.
    cbn [after_assignment assignments]. fold bundle. rewrite Hu.
    destruct (uid_of w0 j) as [u|].
    + rewrite prompts_for_snoc. done.
    + by case_bool_decide.
Qed.

Lemma sweep_agrees it l : ∀ s w s' w',
  agrees s w →
  for_each l (assign a prompt e it) s w = (Returns s', w') →
  agrees s' w'.
Proof.
  induction l as [|i l IH]; intros s w s' w' Hag Hrun.
  - by injection Hrun as <- <-.
  - cbn [for_each] in Hrun.
    apply bind_returns_inv in Hrun as (s1 & w1 & Ha & Hrun).
    eapply IH; [|exact Hrun]. by eapply assign_agrees.
Qed.

Lemma assign_loop_agrees fuel : ∀ it s w it' s' w',
  agrees s w →
  assign_loop a prompt e fuel it s w = (Returns (it', s'), w') →
  agrees s' w'.
Proof.
  induction fuel as [|fuel IH]; intros it s w it' s' w' Hag Hrun; [done|].
  rewrite assign_loop_S in Hrun.
  destruct (running e it && (step_index s <? length (steps prompt))).
  - apply bind_returns_inv in Hrun as (s1 & w1 & Hsweep & Hrun).
    rewrite (bind_returns _ _ _ _ _ (poll_run e it s1 w1)) in Hrun.
    eapply IH; [|exact Hrun].
    destruct (sweep_agrees it _ _ _ _ _ Hag Hsweep) as (? & ? & ? & ? & ?).
    split_and!; [done..|by apply sched_inv_poll|done].
  - by injection Hrun as <- <- <-.
Qed.

End Delivered.

(** X16. What the scheduler records is what the panes receive. When the
    first loop of sequential mode is left, the texts delivered to the pane of
    a launched agent since the loop began are the prompts of the bundles
    assigned to that agent, in the order of assignment, each followed by the
    uid of the agent; nothing is delivered to an agent that was not
    launched. *)
Theorem assignments_delivered :
  ∀ a prompt e fuel w it s w',
    registered_agents w →
    assign_loop a prompt e fuel 0 (mk_sched 0 ∅ []) w = (Returns (it, s), w') →
    (∀ i u, uid_of w i = Some u →
       delivered i w' = delivered i w ++ prompts_for a i u (assignments s))
    ∧ (∀ i, uid_of w i = None → delivered i w' = delivered i w)
    ∧ pane_mapping w' = pane_mapping w.
Proof.
  intros a prompt e fuel w it s w' Hreg Hrun.
  destruct (assign_loop_agrees a prompt e w fuel 0 (mk_sched 0 ∅ []) w it s w')
    as (_ & Hp & _ & _ & Hdel).
  - split_and!; [done|done|done|apply sched_inv_init|].
    intros i. destruct (uid_of w i); by rewrite app_nil_r.
  - done.
  - split_and!; [| |done].
    + intros i u Hu. by rewrite Hdel, Hu.
    + intros i Hu. by rewrite Hdel, Hu, app_nil_r.
Qed.

Lemma assignments_delivered_witness :
  let a := mk_args 2 true true false (Some 2%Z) in
  ∃ it s w',
    assign_loop a five_steps always_ready 6 0 (mk_sched 0 ∅ []) two_agents
    = (Returns (it, s), w')
    ∧ delivered 1 w' = prompts_for a 1 uid_1 (assignments s).
Proof.
  intros a.
  destruct (assign_loop a five_steps always_ready 6 0 (mk_sched 0 ∅ []) two_agents)
    as [out w'] eqn:Hrun.
  assert (∃ it s, out = Returns (it, s)) as (it & s & ->).
  { vm_compute in Hrun. injection Hrun as <- _. by eexists _, _. }
  exists it, s, w'. split; [done|].
  destruct (assignments_delivered a five_steps always_ready 6 two_agents it s w'
              two_agents_registered Hrun) as (Hdel & _).
  exact (Hdel 1 uid_1 eq_refl).
Defined.

(** X17. The initial prompts outside of the collaborative broadcast. When
    the mode is sequential, or there are no steps, every launched agent
    among the first [n_agents] is sent one text and no more: the initial
    prompt, followed by the coordination instructions of the mode when there
    is more than one agent, and by the uid of the agent. The instructions
    are the sequential ones in sequential mode; in collaborative mode
    (without steps) they are the collaborative ones, which name the number
    of agents. With a single agent no instructions are added. *)
Theorem initial_prompts_once :
  ∀ a prompt w,
    collaborative a = false ∨ steps prompt = [] →
    registered_agents w →
    ∃ w',
      _send_initial_prompts a prompt w = (Returns tt, w')
      ∧ (∀ i u, i < n_agents a → uid_of w i = Some u →
           delivered i w' = delivered i w ++ [salted (full_prompt a prompt) u])
      ∧ (∀ i, n_agents a ≤ i ∨ uid_of w i = None →
           delivered i w' = delivered i w)
      ∧ (n_agents a ≤ 1 → full_prompt a prompt = initial_prompt prompt)
      ∧ (1 < n_agents a → collaborative a = false →
         full_prompt a prompt = initial_prompt prompt ++ sequential_instructions)
      ∧ (1 < n_agents a → collaborative a = true →
         full_prompt a prompt
         = initial_prompt prompt
           ++ collaborative_head ++ str_of_int (Z.of_nat (n_agents a))
           ++ collaborative_tail).
Proof.
  intros a prompt w Hmode Hreg.
  destruct (for_each_send_prompt (seq 0 (n_agents a)) (full_prompt a prompt) w
              Hreg (NoDup_seq _ _))
    as (w' & Hs & _ & _ & _ & _ & _ & Hdel).
  exists w'. split_and!.
  - unfold _send_initial_prompts. rewrite (bind_returns _ _ _ _ _ Hs).
    destruct Hmode as [Hc|Hnone]; [by rewrite Hc|].
    rewrite Hnone, bool_decide_false by (by intros ?). by rewrite andb_false_r.
  - intros i u Hi Hu. rewrite Hdel, Hu.
    by rewrite bool_decide_true by (apply elem_of_seq; lia).
  - intros i [Hi|Hu]; rewrite Hdel.
    + rewrite bool_decide_false by (rewrite elem_of_seq; lia).
      by rewrite app_nil_r.
    + rewrite Hu. case_bool_decide; by rewrite app_nil_r.
  - intros Hn. unfold full_prompt.
    by replace (1 <? n_agents a) with false by (symmetry; apply Nat.ltb_ge; lia).
  - intros Hn Hcol. unfold full_prompt. rewrite Hcol.
    by replace (1 <? n_agents a) with true by (symmetry; apply Nat.ltb_lt; lia).
  - intros Hn Hcol. unfold full_prompt. rewrite Hcol.
    by replace (1 <? n_agents a) with true by (symmetry; apply Nat.ltb_lt; lia).
Qed.

Lemma initial_prompts_once_witness :
  let one := mk_args 1 true true false None in
  let seq2 := mk_args 2 true true false None in
  let col2 := mk_args 2 true true true None in
  let no_steps := mk_prompt (py "Build the service") [] default_name in
  (∃ w', _send_initial_prompts one two_steps two_agents = (Returns tt, w')
         ∧ delivered 0 w' = [salted (py "Build the service") uid_0]
         ∧ delivered 1 w' = [])
  ∧ (∃ w', _send_initial_prompts seq2 two_steps two_agents = (Returns tt, w')
           ∧ delivered 1 w'
             = [salted (py "Build the service" ++ sequential_instructions) uid_1])
  ∧ (∃ w', _send_initial_prompts col2 no_steps two_agents = (Returns tt, w')
           ∧ delivered 1 w'
             = [salted (py "Build the service"
                        ++ collaborative_head ++ py "2" ++ collaborative_tail)
                       uid_1]).
Proof.
  intros one seq2 col2 no_steps. split_and!.
  - destruct (initial_prompts_once one two_steps two_agents (or_introl eq_refl)
                two_agents_registered) as (w' & Hs & Hin & Hout & Hone & _).
    exists w'. split; [exact Hs|]. split.
    + rewrite (Hin 0 uid_0); [|unfold one; cbn; lia|reflexivity].
      rewrite Hone by (unfold one; cbn; lia). reflexivity.
    + apply Hout. left. unfold one. cbn. lia.
  - destruct (initial_prompts_once seq2 two_steps two_agents (or_introl eq_refl)
                two_agents_registered) as (w' & Hs & Hin & _ & _ & Hseq & _).
    exists w'. split; [exact Hs|].
    rewrite (Hin 1 uid_1); [|unfold seq2; cbn; lia|reflexivity].
    rewrite Hseq; [reflexivity|unfold seq2; cbn; lia|reflexivity].
  - destruct (initial_prompts_once col2 no_steps two_agents (or_intror eq_refl)
                two_agents_registered) as (w' & Hs & Hin & _ & _ & _ & Hcol).
    exists w'. split; [exact Hs|].
    rewrite (Hin 1 uid_1); [|unfold col2; cbn; lia|reflexivity].
    rewrite Hcol; [reflexivity|unfold col2; cbn; lia|reflexivity].
Defined.

End SchedulerEdgeFacts.

(** ** The text format, there and back *)

Module TextFormatFacts.
Import Launcher Parser ParserFacts OrchestratorFacts PyStrFacts TextFormat.

Lemma join_split_lines s : join_lines (split_lines s) = s.
Proof.
  induction s as [|c s IH]; [done|]. cbn [split_lines].
  case_bool_decide as Hc.
  - subst c. cbn [join_lines].
    destruct (split_lines s) as [|l ls] eqn:Hs; [|by rewrite IH].
    by destruct s; simplify_eq/=; repeat case_bool_decide; repeat case_match.
  - destruct (split_lines s) as [|l ls] eqn:Hs.
    + by rewrite <- IH.
    + rewrite <- IH. by destruct ls.
Qed.

Lemma split_lines_nonempty s : split_lines s ≠ [].
Proof.
  destruct s as [|c s]; [done|]. cbn [split_lines].
  case_bool_decide; [done|]. by destruct (split_lines s).
Qed.

Lemma split_lines_app a b :
  split_lines (a ++ newline :: b) = split_lines a ++ split_lines b.
Proof.
  induction a as [|c a IH].
  - cbn [app split_lines]. by rewrite bool_decide_true.
  - cbn [app split_lines]. case_bool_decide; rewrite IH; [done|].
    pose proof (split_lines_nonempty a).
    by destruct (split_lines a).
Qed.

Lemma split_lines_one s : newline ∉ s → split_lines s = [s].
Proof.
  induction s as [|c s IH]; [done|]. intros [Hc Hs]%not_elem_of_cons.
  cbn [split_lines]. rewrite bool_decide_false by done. by rewrite IH.
Qed.

Lemma split_join_lines ls :
  ls ≠ [] → Forall (λ l, newline ∉ l) ls → split_lines (join_lines ls) = ls.
Proof.
  induction ls as [|l ls IH]; [done|]. intros _ [Hl Hls]%Forall_cons.
  destruct ls as [|l' ls].
  - cbn [join_lines]. by apply split_lines_one.
  - change (join_lines (l :: l' :: ls)) with (l ++ newline :: join_lines (l' :: ls)).
    rewrite split_lines_app, split_lines_one by done. by rewrite IH.
Qed.

Lemma elem_of_join_lines_occurs line ls :
  line ∈ ls → occurs_in line (join_lines ls).
Proof.
  induction ls as [|l ls IH]; [by intros ?%not_elem_of_nil|].
  destruct ls as [|l' ls].
  - intros ->%list_elem_of_singleton. apply occurs_in_refl.
  - change (join_lines (l :: l' :: ls)) with (l ++ newline :: join_lines (l' :: ls)).
    intros [->|Hin]%elem_of_cons.
    + apply occurs_in_app_r, occurs_in_refl.
    + apply occurs_in_app_l. apply (occurs_in_app_l _ _ [newline]). by apply IH.
Qed.

Lemma elem_of_split_lines_occurs line s :
  line ∈ split_lines s → occurs_in line s.
Proof.
  intros H%elem_of_join_lines_occurs. by rewrite join_split_lines in H.
Qed.

(** *** [strip] *)

Lemma snoc_case {A} (l : list A) : l = [] ∨ ∃ r d, l = r ++ [d].
Proof. induction l using rev_ind; [by left|right; by eexists _, _]. Qed.

Lemma lstrip_app_space ws s :
  forallb isspace ws = true → lstrip (ws ++ s) = lstrip s.
Proof.
  induction ws as [|c ws IH]; [done|]. intros [Hc Hws]%andb_true_iff.
  cbn [app lstrip]. rewrite Hc. by apply IH.
Qed.

Lemma lstrip_space ws : forallb isspace ws = true → lstrip ws = [].
Proof.
  intros H. rewrite <- (app_nil_r ws). by rewrite lstrip_app_space.
Qed.

Lemma lstrip_nil_space s : lstrip s = [] → forallb isspace s = true.
Proof.
  induction s as [|c s IH]; [done|]. cbn [lstrip forallb].
  destruct (isspace c); [done|done].
Qed.

Lemma lstrip_app s t :
  lstrip (s ++ t) = match lstrip s with [] => lstrip t | _ => lstrip s ++ t end.
Proof.
  induction s as [|c s IH]; [done|]. cbn [app lstrip].
  by destruct (isspace c).
Qed.

Lemma lstrip_head s c r : lstrip s = c :: r → isspace c = false.
Proof.
  induction s as [|d s IH]; [done|]. cbn [lstrip].
  destruct (isspace d) eqn:Hd; [done|]. by intros [= <- _].
Qed.

Lemma lstrip_id c r : isspace c = false → lstrip (c :: r) = c :: r.
Proof. intros H. cbn [lstrip]. by rewrite H. Qed.

Lemma length_lstrip s : length (lstrip s) ≤ length s.
Proof.
  induction s as [|c s IH]; [done|]. cbn [lstrip].
  destruct (isspace c); simpl; lia.
Qed.

Lemma length_rstrip s : length (rstrip s) ≤ length s.
Proof.
  unfold rstrip. rewrite length_rev.
  etrans; [apply length_lstrip|]. by rewrite length_rev.
Qed.

Lemma lstrip_fixed s : length (lstrip s) = length s → lstrip s = s.
Proof.
  destruct s as [|c s]; [done|]. cbn [lstrip].
  destruct (isspace c); [|done]. pose proof (length_lstrip s). simpl. lia.
Qed.

Lemma rstrip_app_space s ws :
  forallb isspace ws = true → rstrip (s ++ ws) = rstrip s.
Proof.
  intros H. unfold rstrip. rewrite rev_app_distr, lstrip_app_space; [done|].
  rewrite forallb_forall in *. intros c Hc. apply H. by apply in_rev.
Qed.

Lemma rstrip_snoc r c : isspace c = false → rstrip (r ++ [c]) = r ++ [c].
Proof.
  intros H. unfold rstrip. rewrite rev_app_distr. cbn [rev app].
  rewrite lstrip_id by done. cbn [rev]. by rewrite rev_involutive.
Qed.

Lemma rstrip_last s r c : rstrip s = r ++ [c] → isspace c = false.
Proof.
  unfold rstrip. intros H.
  assert (lstrip (rev s) = c :: rev r) as Hl.
  { rewrite <- (rev_involutive (lstrip (rev s))), H, rev_app_distr. done. }
  by apply lstrip_head in Hl.
Qed.

Lemma strip_nil : strip [] = [].
Proof. done. Qed.

(** A text without white space at either end is its own [strip]. *)
Lemma strip_id c r d :
  isspace c = false → isspace d = false →
  strip (c :: r ++ [d]) = c :: r ++ [d].
Proof.
  intros Hc Hd. unfold strip. rewrite lstrip_id by done.
  by apply (rstrip_snoc (c :: r)).
Qed.

Lemma strip_id_one c : isspace c = false → strip [c] = [c].
Proof.
  intros Hc. unfold strip. rewrite lstrip_id by done. by apply (rstrip_snoc []).
Qed.

(** What is its own [strip] has no white space at either end. *)
Lemma strip_fixed s :
  strip s = s → s ≠ [] →
  ∃ c r, s = c :: r ∧ isspace c = false
         ∧ ∃ r' d, s = r' ++ [d] ∧ isspace d = false.
Proof.
  intros Hs Hne.
  assert (lstrip s = s) as Hl.
  { apply lstrip_fixed. pose proof (length_lstrip s).
    pose proof (length_rstrip (lstrip s)). unfold strip in Hs.
    rewrite Hs in *. lia. }
  assert (rstrip s = s) as Hr by (unfold strip in Hs; by rewrite Hl in Hs).
  destruct s as [|c r]; [done|]. exists c, r. split; [done|].
  split; [by eapply lstrip_head|].
  destruct (snoc_case (c :: r)) as [?|(r' & d & Hd)]; [done|].
  exists r', d. split; [done|]. eapply rstrip_last. by rewrite Hr.
Qed.

Lemma lstrip_split s : ∃ pre, s = pre ++ lstrip s ∧ forallb isspace pre = true.
Proof.
  induction s as [|c s (pre & Hs & Hpre)]; [by exists []|]. cbn [lstrip].
  destruct (isspace c) eqn:Hc.
  - exists (c :: pre). split; [by rewrite <- app_comm_cons, <- Hs|].
    cbn [forallb]. by rewrite Hc.
  - by exists [].
Qed.

Lemma rstrip_split s : ∃ post, s = rstrip s ++ post ∧ forallb isspace post = true.
Proof.
  destruct (lstrip_split (rev s)) as (pre & Hs & Hpre).
  exists (rev pre). split.
  - unfold rstrip. rewrite <- rev_app_distr, <- Hs. by rewrite rev_involutive.
  - rewrite forallb_forall in *. intros c Hc. apply Hpre. by apply in_rev.
Qed.

(** The three shapes of a stripped text. *)
Lemma strip_shape s :
  strip s = []
  ∨ (∃ c, strip s = [c] ∧ isspace c = false)
  ∨ ∃ c r d, strip s = c :: r ++ [d] ∧ isspace c = false ∧ isspace d = false.
Proof.
  unfold strip. destruct (lstrip s) as [|c r] eqn:Hl; [by left|]. right.
  pose proof (lstrip_head _ _ _ Hl) as Hc.
  destruct (rstrip_split (c :: r)) as (post & Hs & Hpost).
  destruct (rstrip (c :: r)) as [|c2 r2] eqn:Hr.
  - cbn [app] in Hs. subst post. cbn [forallb] in Hpost. by rewrite Hc in Hpost.
  - injection Hs as <- Hs. destruct (snoc_case r2) as [->|(r3 & d & ->)].
    + left. by exists c.
    + right. exists c, r3, d. split; [done|]. split; [done|].
      by apply (rstrip_last (c :: r) (c :: r3)).
Qed.

Lemma strip_strip s : strip (strip s) = strip s.
Proof.
  destruct (strip_shape s) as [->|[(c & -> & Hc)|(c & r & d & -> & Hc & Hd)]].
  - done.
  - by apply strip_id_one.
  - by apply strip_id.
Qed.

Lemma strip_app_space pre s post :
  forallb isspace pre = true → forallb isspace post = true →
  strip (pre ++ s ++ post) = strip s.
Proof.
  intros Hpre Hpost. unfold strip.
  rewrite lstrip_app_space by done. rewrite lstrip_app.
  destruct (lstrip s) as [|c r] eqn:Hl.
  - by rewrite lstrip_space.
  - by rewrite rstrip_app_space.
Qed.


(** *** [parse_text] on texts without steps *)

Lemma take_until_none {A} (p : A → bool) l :
  (∀ x, x ∈ l → p x = false) → take_until p l = l ∧ drop_until p l = [].
Proof.
  induction l as [|x l IH]; [done|]. intros H. cbn [take_until drop_until].
  rewrite (H x) by left. destruct IH as [-> ->]; [|done].
  intros y Hy. apply H. by right.
Qed.

Lemma take_until_first {A} (p : A → bool) l y rest :
  (∀ x, x ∈ l → p x = false) → p y = true →
  take_until p (l ++ y :: rest) = l ∧ drop_until p (l ++ y :: rest) = y :: rest.
Proof.
  induction l as [|x l IH]; intros H Hy; cbn [app take_until drop_until].
  - by rewrite Hy.
  - rewrite (H x) by left. destruct IH as [-> ->]; [|done..].
    intros z Hz. apply H. by right.
Qed.

Lemma parse_text_no_steps text :
  (∀ line, line ∈ split_lines (strip text) → starts_steps line = false) →
  parse_text text = Ok (mk_prompt (strip text) [] default_name).
Proof.
  intros H. unfold parse_text. rewrite find_steps_spec.
  destruct (take_until_none starts_steps _ H) as [-> ->]. cbn [app].
  by rewrite join_split_lines, strip_strip.
Qed.

Lemma starts_steps_contains line :
  starts_steps line = true → contains (py ". ") line = true.
Proof.
  unfold starts_steps. destruct (strip line); [done|].
  by intros [_ ?]%andb_true_iff.
Qed.

Lemma starts_steps_digit line :
  starts_steps line = true → ∃ c, c ∈ line ∧ isdigit c = true.
Proof.
  unfold starts_steps. destruct (strip line) as [|c r] eqn:Hs; [done|].
  intros [Hc _]%andb_true_iff. exists c. split; [|done].
  destruct (strip_infix line) as (pre & post & Hl). rewrite Hl, Hs.
  apply elem_of_app. right. left.
Qed.

Lemma elem_of_line line text c :
  line ∈ split_lines (strip text) → c ∈ line → c ∈ text.
Proof.
  intros (b & a & Hl)%elem_of_split_lines_occurs Hc.
  destruct (strip_infix text) as (pre & post & Ht). rewrite Ht, Hl.
  rewrite !elem_of_app. auto.
Qed.

(** X18. A text without a step line is an initial prompt and nothing
    else: when no line of the trimmed text passes the test for a first step,
    [parse_text] returns the whole text, trimmed, as the initial prompt, with
    no step and the default name. This is so for every text that nowhere has
    a period followed by a space, and for every text without a digit. *)
Theorem parse_text_plain :
  ∀ text,
    let whole := Ok (mk_prompt (strip text) [] default_name) in
    ((∀ line, line ∈ split_lines (strip text) → starts_steps line = false) →
       parse_text text = whole)
    ∧ (contains (py ". ") text = false → parse_text text = whole)
    ∧ ((∀ c, c ∈ text → isdigit c = false) → parse_text text = whole).
Proof.
  intros text whole. split_and!.
  - apply parse_text_no_steps.
  - intros Hno. apply parse_text_no_steps. intros line Hin.
    apply not_true_is_false. intros Hc%starts_steps_contains.
    apply contains_spec in Hc.
    assert (occurs_in (py ". ") text) as Ho.
    { eapply occurs_in_trans; [exact Hc|].
      eapply occurs_in_trans; [by apply elem_of_split_lines_occurs|].
      destruct (strip_infix text) as (pre & post & Ht). by exists pre, post. }
    apply contains_spec in Ho. congruence.
  - intros Hno. apply parse_text_no_steps. intros line Hin.
    apply not_true_is_false. intros (c & Hc & Hd)%starts_steps_digit.
    rewrite (Hno c) in Hd; [done|]. by eapply elem_of_line.
Qed.

Lemma parse_text_plain_witness :
  contains (py ". ") (py "  Fix all TypeScript errors in the codebase
") = false
  ∧ parse_text (py "  Fix all TypeScript errors in the codebase
")
    = Ok (mk_prompt (py "Fix all TypeScript errors in the codebase") []
                    default_name).
Proof.
  assert (contains (py ". ") (py "  Fix all TypeScript errors in the codebase
") = false) as H by reflexivity.
  split; [exact H|].
  exact (proj1 (proj2 (parse_text_plain _)) H).
Defined.

(** X19. White space around the text does not count: [parse_text] gives
    the same result, prompt or exception, for a text and for that text with
    white space, blank lines included, added before and after it. *)
Theorem parse_text_trims :
  ∀ pre text post,
    forallb isspace pre = true → forallb isspace post = true →
    parse_text (pre ++ text ++ post) = parse_text text
    ∧ parse_text (strip text) = parse_text text.
Proof.
  intros pre text post Hpre Hpost. unfold parse_text.
  by rewrite strip_app_space, strip_strip.
Qed.

Lemma parse_text_trims_witness :
  parse_text (py "
  " ++ service_text ++ py "

") = parse_text service_text.
Proof.
  apply (parse_text_trims (py "
  ") service_text (py "

")); reflexivity.
Defined.

(** *** Writing a prompt and reading it back *)

Lemma writable_step_shape s :
  writable_step s →
  ∃ c r d, step_line s = c :: r ++ [d]
    ∧ is_decimal c = true ∧ isspace d = false
    ∧ newline ∉ step_line s.
Proof.
  intros (Hn & Hlen & Hne & Hstrip & Hnl & Hdesc).
  destruct (str_of_int_nonneg _ Hn) as (Hdne & Hdec & Hval).
  destruct (strip_fixed _ Hstrip Hne) as (c0 & r0 & _ & _ & r' & d & Hc & Hd).
  unfold step_line.
  destruct (str_of_int (number s)) as [|c ds] eqn:Hs; [done|].
  exists c, (ds ++ py ". " ++ r'), d. split_and!.
  - rewrite Hc. cbn [app]. by rewrite <- !app_assoc.
  - cbn [forallb] in Hdec. by apply andb_true_iff in Hdec as [? _].
  - done.
  - rewrite !not_elem_of_app. split_and!; [|by apply not_elem_of_literal|done].
    intros Hin. rewrite forallb_forall in Hdec.
    apply list_elem_of_In, Hdec in Hin. done.
Qed.

Lemma parse_step_line s acc :
  writable_step s →
  strip (step_line s) = step_line s
  ∧ starts_steps (step_line s) = true
  ∧ parse_step (step_line s) acc = Ok (acc ++ [s]).
Proof.
  intros Hw. destruct (writable_step_shape s Hw) as (c & r & d & Hshape & Hc & Hd & _).
  destruct Hw as (Hn & Hlen & Hne & Hstrip & Hnl & Hdesc).
  destruct (str_of_int_nonneg _ Hn) as (Hdne & Hdec & Hval).
  destruct (decimal_char c Hc) as (Hdig & Hsp & _).
  assert (isspace c = false) as Hcs.
  { revert Hc. unfold is_decimal, isspace. destruct c as [[] [] [] [] [] [] [] []]; by vm_compute. }
  assert (strip (step_line s) = step_line s) as Hs
    by (rewrite Hshape; by apply strip_id).
  assert (is_step_line (step_line s) = true) as Hline.
  { unfold is_step_line. rewrite Hshape at 1. rewrite Hdig. cbn [andb].
    unfold step_line. apply contains_app_l, contains_startswith, startswith_self. }
  split; [done|]. split.
  - apply is_step_line_starts. by rewrite Hs.
  - unfold parse_step. rewrite Hs, Hline. unfold split1, step_line.
    rewrite partition_digits by done.
    rewrite int_of_str_digits by done. rewrite Hval.
    destruct s as [n c' desc]. cbn in *. by rewrite Hdesc.
Qed.

Lemma parse_step_lines ss : ∀ acc,
  Forall writable_step ss →
  parse_steps (step_line <$> ss) acc = Ok (acc ++ ss).
Proof.
  induction ss as [|s ss IH]; intros acc Hw.
  - by rewrite app_nil_r.
  - apply Forall_cons in Hw as [Hs Hw]. rewrite fmap_cons. cbn [parse_steps].
    destruct (parse_step_line s acc Hs) as (_ & _ & ->).
    rewrite IH by done. by rewrite <- app_assoc.
Qed.

Lemma join_step_lines s ss :
  Forall writable_step (s :: ss) →
  ∃ c r d, join_lines (step_line <$> s :: ss) = c :: r ++ [d]
    ∧ is_decimal c = true ∧ isspace d = false.
Proof.
  revert s. induction ss as [|s' ss IH]; intros s [Hs Hw]%Forall_cons.
  - destruct (writable_step_shape s Hs) as (c & r & d & Hshape & Hc & Hd & _).
    exists c, r, d. by rewrite fmap_cons.
  - destruct (writable_step_shape s Hs) as (c & r & d & Hshape & Hc & Hd & _).
    destruct (IH s' Hw) as (c' & r' & d' & Hj & _ & Hd').
    exists c, (r ++ [d] ++ newline :: c' :: r'), d'.
    rewrite !fmap_cons in *.
    change (join_lines (step_line s :: step_line s' :: (step_line <$> ss)))
      with (step_line s ++ newline :: join_lines (step_line s' :: (step_line <$> ss))).
    rewrite Hj, Hshape. split; [|done]. cbn [app].
    by rewrite <- !app_assoc.
Qed.

Lemma is_decimal_not_space c : is_decimal c = true → isspace c = false.
Proof.
  unfold is_decimal, isspace. destruct c as [[] [] [] [] [] [] [] []]; by vm_compute.
Qed.

(** X20. Writing a prompt in the text format and reading it back gives the
    prompt: for every prompt the format can hold, [parse_text] of its text is
    that prompt, with the same initial prompt and the same steps, numbers and
    contents, in the same order. *)
Theorem parse_text_prompt_text :
  ∀ p, writable p → parse_text (prompt_text p) = Ok p.
Proof.
  intros [initial ss nm] (Hstrip & Hlines & Hw & Hname).
  cbn [initial_prompt steps name] in *. subst nm. unfold prompt_text.
  cbn [initial_prompt steps].
  destruct ss as [|s ss].
  - cbn [fmap list_fmap join_lines]. rewrite parse_text_no_steps.
    + by rewrite Hstrip.
    + by rewrite Hstrip.
  - destruct (join_step_lines s ss Hw) as (c & r & d & Hj & Hc & Hd).
    pose proof (is_decimal_not_space c Hc) as Hcs.
    set (L := step_line <$> s :: ss) in *.
    assert (L ≠ []) as HL by done.
    assert (Forall (λ l, newline ∉ l) L) as Hnl.
    { unfold L. apply Forall_fmap. eapply Forall_impl; [exact Hw|].
      intros x Hx. by destruct (writable_step_shape x Hx) as (_ & _ & _ & _ & _ & _ & ?). }
    assert (starts_steps (step_line s) = true) as Hfirst.
    { apply Forall_cons in Hw as [Hs _].
      by destruct (parse_step_line s [] Hs) as (_ & ? & _). }
    change (join_lines (initial :: L)) with
      (match L with [] => initial | _ => initial ++ newline :: join_lines L end).
    destruct L as [|l0 L'] eqn:HLeq; [done|]. rewrite <- HLeq in *.
    assert (l0 = step_line s) as Hl0 by (unfold L in HLeq; by injection HLeq).
    unfold parse_text.
    assert (strip (initial ++ newline :: join_lines L)
            = (if bool_decide (initial = []) then [] else initial ++ [newline])
              ++ join_lines L) as Hst.
    { case_bool_decide as Hi.
      - subst initial. cbn [app].
        assert (strip (newline :: join_lines L) = strip (join_lines L)) as ->.
        { rewrite <- (strip_app_space [newline] (join_lines L) []) by done.
          by rewrite app_nil_r. }
        rewrite Hj. by apply strip_id.
      - destruct (strip_fixed _ Hstrip Hi) as (c0 & r0 & -> & Hc0 & _).
        rewrite Hj. rewrite <- !app_assoc. cbn [app].
        replace (r0 ++ newline :: c :: r ++ [d])
          with ((r0 ++ newline :: c :: r) ++ [d])
          by (by rewrite <- app_assoc).
        by apply strip_id. }
    rewrite Hst, find_steps_spec.
    assert (split_lines ((if bool_decide (initial = []) then []
                          else initial ++ [newline]) ++ join_lines L)
            = (if bool_decide (initial = []) then [] else split_lines initial)
              ++ L) as Hsp.
    { case_bool_decide.
      - cbn [app]. by apply split_join_lines.
      - rewrite <- app_assoc. cbn [app].
        by rewrite split_lines_app, split_join_lines. }
    rewrite Hsp.
    destruct (take_until_first starts_steps
                (if bool_decide (initial = []) then [] else split_lines initial)
                l0 L') as [Ht Hdr].
    { case_bool_decide; [by intros ? ?%not_elem_of_nil|done]. }
    { by rewrite Hl0. }
    rewrite HLeq, Ht, Hdr. cbn [app Nat.add].
    rewrite drop_app_length. rewrite <- HLeq. unfold L.
    rewrite parse_step_lines by done. cbn [app].
    do 2 f_equal. case_bool_decide as Hi.
    + by subst.
    + by rewrite join_split_lines.
Qed.

Lemma parse_text_prompt_text_witness :
  let p := mk_prompt (py "Build the service")
             [mk_step 1 (py "Design the API") None;
              mk_step 2 (py "Write the tests") None] default_name in
  writable p ∧ parse_text (prompt_text p) = Ok p.
Proof.
  intros p.
  assert (writable p) as Hw.
  { split_and!.
    - reflexivity.
    - intros line ->%list_elem_of_singleton. reflexivity.
    - repeat apply Forall_cons_2; [| |apply Forall_nil_2];
        (split_and!; by apply (bool_decide_unpack _)).
    - reflexivity. }
  split; [exact Hw|]. apply (parse_text_prompt_text p Hw).
Defined.

End TextFormatFacts.

(** ** The YAML format *)

Module YamlFacts.
Import Yaml.

Lemma step_of_number i item st : step_of i item = Some st → step_number st = (Z.of_nat i + 1)%Z.
Proof. destruct item; intros [= <-]; done. Qed.

Lemma steps_from k items :
  ∀ j st, omap id (imap (λ i, step_of (k + i)) items) !! j = Some st →
    ∃ i item, items !! i = Some item ∧ step_of (k + i) item = Some st
      ∧ j ≤ i
      ∧ ∀ j' st', j' < j →
          omap id (imap (λ i, step_of (k + i)) items) !! j' = Some st' →
          (step_number st' < step_number st)%Z.
Proof.
  revert k. induction items as [|item items IH]; intros k j st; [done|].
  cbn [imap omap list_omap].
  rewrite (imap_ext _ (λ i, step_of (S k + i))) by (intros; simpl; f_equal; lia).
  rewrite Nat.add_0_r. cbn [id].
  destruct (step_of k item) as [s0|] eqn:H0.
  - destruct j as [|j].
    + intros [= <-]. exists 0, item. rewrite Nat.add_0_r.
      split_and!; [done|done|done|]. intros ? ? ?. lia.
    + cbn [lookup list_lookup]. intros Hj.
      destruct (IH (S k) j st Hj) as (i & it & Hi & Hs & Hle & Hlt).
      exists (S i), it. replace (k + S i) with (S k + i) by lia.
      split_and!; [done|done|lia|].
      intros j' st' Hj'. destruct j' as [|j'].
      * intros [= <-]. apply step_of_number in H0, Hs. lia.
      * cbn [lookup list_lookup]. apply Hlt. lia.
  - intros Hj. destruct (IH (S k) j st Hj) as (i & it & Hi & Hs & Hle & Hlt).
    exists (S i), it. replace (k + S i) with (S k + i) by lia.
    split_and!; [done|done|lia|done].
Qed.

Lemma steps_all k items :
  Forall (λ item, is_Some (step_of 0 item)) items →
  step_number <$> omap id (imap (λ i, step_of (k + i)) items)
  = (λ i, Z.of_nat i + 1)%Z <$> seq k (length items).
Proof.
  revert k. induction items as [|item items IH]; intros k Hall; [done|].
  apply Forall_cons in Hall as [[s0 H0] Hall].
  cbn [imap omap list_omap length seq].
  rewrite (imap_ext _ (λ i, step_of (S k + i))) by (intros; simpl; f_equal; lia).
  rewrite Nat.add_0_r. cbn [id].
  assert (∃ s1, step_of k item = Some s1) as [s1 H1]
    by (destruct item; simplify_eq/=; by eexists).
  rewrite H1. rewrite !fmap_cons, IH by done.
  by rewrite (step_of_number _ _ _ H1).
Qed.

Lemma steps_of_chars k s :
  omap id (imap (λ i, step_of (k + i)) ((λ c, VStr [c]) <$> s))
  = imap (λ i c, mk_yaml_step (Z.of_nat (k + i) + 1) (VStr [c]) VNone) s.
Proof.
  revert k. induction s as [|c s IH]; intros k; [done|].
  cbn [fmap list_fmap imap omap list_omap step_of id].
  rewrite (imap_ext _ (λ i, step_of (S k + i)))
    by (intros; simpl; f_equal; lia).
  rewrite (imap_ext (_ ∘ S)
             (λ i c, mk_yaml_step (Z.of_nat (S k + i) + 1) (VStr [c]) VNone))
    by (intros; unfold compose; f_equal; lia).
  rewrite Nat.add_0_r. f_equal. apply IH.
Qed.

(** X21. The numbers [parse_yaml] gives to steps are positions in the
    list of the document, counted from one. Every step of the result comes
    from an item of the list that is a string or a mapping and has the
    position of that item, plus one, as its number; the steps are in the
    order of the document, so the numbers go up strictly. Items of other
    types give no step and still count: the numbers are [1..n] without a gap
    exactly when no such item comes before a step, as when every item is a
    string or a mapping. *)
Theorem parse_yaml_numbers :
  ∀ entries items,
    dict_get (py "steps") entries = Some (VList items) →
    ∃ p,
      parse_yaml (VDict entries) = Ok p
      ∧ (∀ j st, prompt_steps p !! j = Some st →
           ∃ i item, items !! i = Some item
             ∧ step_of i item = Some st
             ∧ step_number st = (Z.of_nat i + 1)%Z
             ∧ j ≤ i)
      ∧ (∀ j j' st st', j' < j →
           prompt_steps p !! j' = Some st' → prompt_steps p !! j = Some st →
           (step_number st' < step_number st)%Z)
      ∧ (Forall (λ item, (∃ s, item = VStr s) ∨ ∃ d, item = VDict d) items →
         step_number <$> prompt_steps p
         = (λ i, Z.of_nat i + 1)%Z <$> seq 0 (length items)).
Proof.
  intros entries items Hsteps. eexists. split.
  { unfold parse_yaml. rewrite Hsteps. cbn [iterate]. reflexivity. }
  cbn [prompt_steps].
  assert (imap step_of items = imap (λ i, step_of (0 + i)) items) as ->
    by (by apply imap_ext).
  split_and!.
  - intros j st Hj.
    destruct (steps_from 0 items j st Hj) as (i & item & Hi & Hs & Hle & _).
    exists i, item. split_and!; [done|done|by apply step_of_number in Hs|done].
  - intros j j' st st' Hlt Hj' Hj.
    destruct (steps_from 0 items j st Hj) as (_ & _ & _ & _ & _ & H).
    by eapply H.
  - intros Hall. apply steps_all. eapply Forall_impl; [exact Hall|].
    intros item [[s ->]|[d ->]]; by eexists.
Qed.

Lemma parse_yaml_numbers_witness :
  let entries :=
    [(VStr (py "initial_prompt"), VStr (py "Build the service"));
     (VStr (py "steps"),
      VList [VStr (py "Design the API"); VInt 7;
             VDict [(VStr (py "content"), VStr (py "Write the tests"))]])] in
  ∃ p, parse_yaml (VDict entries) = Ok p
       ∧ step_number <$> prompt_steps p = [1; 3]%Z.
Proof.
  intros entries.
  destruct (parse_yaml_numbers entries
              [VStr (py "Design the API"); VInt 7;
               VDict [(VStr (py "content"), VStr (py "Write the tests"))]]
              eq_refl) as (p & Hp & _).
  exists p. split; [exact Hp|].
  injection Hp as <-. reflexivity.
Defined.

(** X22. When [parse_yaml] raises. It returns a prompt exactly when the
    document is a mapping whose [steps] entry, if it has one, is a sequence,
    a string or a mapping. A document that is not a mapping, an empty one
    among them, raises [AttributeError]; a [steps] entry that is null, a
    boolean or an integer raises [TypeError]. Keys that are missing are
    given their defaults, and a string under [steps] gives one step for each
    of its characters. *)
Theorem parse_yaml_raises :
  ∀ data,
    ((∀ entries, data ≠ VDict entries) → parse_yaml data = Raise AttributeError)
    ∧ (∀ entries, data = VDict entries →
         (dict_get (py "steps") entries = None →
            parse_yaml data
            = Ok (mk_yaml_prompt
                    (default (VStr default_name) (dict_get (py "name") entries))
                    (default (VStr []) (dict_get (py "initial_prompt") entries))
                    []))
         ∧ (∀ v, dict_get (py "steps") entries = Some v →
              (v = VNone ∨ (∃ b, v = VBool b) ∨ (∃ n, v = VInt n)) →
              parse_yaml data = Raise TypeError)
         ∧ (∀ s, dict_get (py "steps") entries = Some (VStr s) →
              ∃ p, parse_yaml data = Ok p
                ∧ prompt_steps p
                  = imap (λ i c, mk_yaml_step (Z.of_nat i + 1) (VStr [c]) VNone) s)).
Proof.
  intros data. split.
  - intros Hnot. destruct data; try done. by destruct (Hnot entries).
  - intros entries ->. split_and!.
    + intros Hs. unfold parse_yaml. by rewrite Hs.
    + intros v Hs Hv. unfold parse_yaml. rewrite Hs.
      destruct Hv as [->|[[b ->]|[n ->]]]; done.
    + intros s Hs. eexists. split.
      { unfold parse_yaml. rewrite Hs. cbn [iterate]. reflexivity. }
      cbn [prompt_steps].
      assert (imap step_of ((λ c, VStr [c]) <$> s)
              = imap (λ i, step_of (0 + i)) ((λ c, VStr [c]) <$> s)) as ->
        by (by apply imap_ext).
      by rewrite steps_of_chars.
Qed.

Lemma parse_yaml_raises_witness :
  (∀ entries, VNone ≠ VDict entries)
  ∧ parse_yaml VNone = Raise AttributeError.
Proof.
  assert (∀ entries, VNone ≠ VDict entries) as H by done.
  split; [exact H|]. exact (proj1 (parse_yaml_raises VNone) H).
Defined.

End YamlFacts.

(** ** A run from start to end *)

Module RunThroughFacts.
Import Launcher Orchestrator LauncherFacts OrchestratorFacts SchedulerFacts
  RunFacts Delivery LaunchFacts SchedulerEdgeFacts.

Lemma launch_all_app pp e l1 l2 w :
  (∀ i, i ∈ l1 → launch_running e i = true) →
  launch_all pp e (l1 ++ l2) w = (launch_all pp e l1 ;; launch_all pp e l2) w.
Proof.
  revert w. induction l1 as [|i l1 IH]; intros w Hrun; [done|].
  cbn [app launch_all]. rewrite (Hrun i) by left.
  unfold mbind, M_bind.
  destruct (launch_agent i pp (readings e i) w) as [[ag| |] w1]; [|done..].
  apply IH. intros j Hj. apply Hrun. by right.
Qed.

(** The texts [_cleanup] sends to the pane of agent [i]. *)
Lemma delivered_exit l w i :
  NoDup l →
  omap (λ c, match c with
             | SendToPane j command _ =>
                 if bool_decide (j = i) then Some command else None
             | _ => None
             end)
       (l ≫= λ j, match pane_of w j with
                  | Some _ => [SendToPane j (py "/exit") true]
                  | None => []
                  end)
  = if bool_decide (i ∈ l)
    then match pane_of w i with Some _ => [py "/exit"] | None => [] end
    else [].
Proof.
  induction l as [|j l IH]; intros Hnd; [done|].
  apply NoDup_cons in Hnd as [Hj Hnd]. rewrite bind_cons, omap_app, IH by done.
  destruct (decide (j = i)) as [->|Hji].
  - rewrite (bool_decide_true (i ∈ i :: l)) by left.
    rewrite (bool_decide_false (i ∈ l)) by done. rewrite app_nil_r.
    destruct (pane_of w i); [|done]. cbn. by rewrite bool_decide_true.
  - assert (omap (λ c, match c with
                       | SendToPane j0 command _ =>
                           if bool_decide (j0 = i) then Some command else None
                       | _ => None
                       end)
                 (match pane_of w j with
                  | Some _ => [SendToPane j (py "/exit") true]
                  | None => []
                  end) = []) as ->.
    { destruct (pane_of w j); [|done]. cbn. by rewrite bool_decide_false. }
    cbn [app]. destruct (decide (i ∈ l)).
    + rewrite !bool_decide_true; [done| |done]. by right.
    + rewrite !bool_decide_false; [done| |done]. by intros [?|?]%elem_of_cons.
Qed.

Lemma delivered_cleanup a w w' i :
  tmux_calls w' = tmux_calls w ++ cleanup_calls a w →
  delivered i w'
  = delivered i w
    ++ if bool_decide (i < n_agents a)
       then match pane_of w i with Some _ => [py "/exit"] | None => [] end
       else [].
Proof.
  intros Hc. rewrite (delivered_calls i w w' _ Hc). f_equal.
  unfold cleanup_calls. rewrite omap_app, delivered_exit by apply NoDup_seq.
  assert (omap (λ c, match c with
                     | SendToPane j command _ =>
                         if bool_decide (j = i) then Some command else None
                     | _ => None
                     end) (if kill_on_exit a then [KillSession] else []) = [])
    as -> by (by destruct (kill_on_exit a)).
  rewrite app_nil_r. apply (f_equal (λ b : bool, if b then _ else _)).
  apply bool_decide_ext. rewrite elem_of_seq. lia.
Qed.


Lemma cleanup_full a w :
  ∃ w', _cleanup a w = (Returns tt, w')
        ∧ agents w' = agents w
        ∧ ∀ i, delivered i w'
               = delivered i w
                 ++ if bool_decide (i < n_agents a)
                    then match pane_of w i with
                         | Some _ => [py "/exit"]
                         | None => []
                         end
                    else [].
Proof.
  destruct (cleanup_run a w) as (w' & Hc & Ht & _).
  exists w'. split; [done|]. split.
  - destruct (exit_loop_run (seq 0 (n_agents a)) w)
      as (w1 & H1 & Hp1 & Ha1 & _).
    unfold _cleanup in Hc. rewrite (bind_returns _ _ _ _ _ H1) in Hc.
    destruct (kill_on_exit a), (cleanup_coordination a);
      injection Hc as <-; simpl; by rewrite Ha1.
  - intros i. by apply delivered_cleanup.
Qed.

Lemma initial_prompts_run a prompt w :
  collaborative a = false → registered_agents w →
  ∃ w', _send_initial_prompts a prompt w = (Returns tt, w')
        ∧ registered_agents w'
        ∧ pane_mapping w' = pane_mapping w
        ∧ (∀ j, uid_of w' j = uid_of w j)
        ∧ ∀ j, delivered j w'
               = delivered j w
                 ++ if bool_decide (j < n_agents a)
                    then match uid_of w j with
                         | Some u => [salted (full_prompt a prompt) u]
                         | None => []
                         end
                    else [].
Proof.
  intros Hcol Hreg.
  destruct (for_each_send_prompt (seq 0 (n_agents a)) (full_prompt a prompt) w
              Hreg (NoDup_seq _ _))
    as (w' & Hs & Hreg' & Hp & _ & Hu & _ & Hdel).
  exists w'. split_and!; [|done..|].
  - unfold _send_initial_prompts. rewrite (bind_returns _ _ _ _ _ Hs).
    by rewrite Hcol.
  - intros j. rewrite Hdel. f_equal.
    apply (f_equal (λ b : bool, if b then _ else _)).
    apply bool_decide_ext. rewrite elem_of_seq. lia.
Qed.

Section Bounded.
Variable a : args.
Variable prompt : BuildPrompt.
Variable e : env.

(** The agents the loop has at work and the agents it has assigned
    bundles to are among the first [n_agents]. *)
Local Abbreviation bounded s :=
  ((∀ j, j ∈ agents_working s → j < n_agents a)
   ∧ ∀ p, p ∈ assignments s → p.1 < n_agents a).

Lemma sweep_bounded it s w s' w' :
  bounded s →
  for_each (seq 0 (n_agents a)) (assign a prompt e it) s w = (Returns s', w') →
  bounded s'.
Proof.
  intros [Hw Ha] Hrun.
  destruct (sweep_cases a prompt e it _ _ _ _ _ (NoDup_seq 0 (n_agents a)) Hrun)
    as (_ & _ & new & Hnew & _ & _ & Hin & Hwork).
  assert (∀ i, i ∈ new.*1 → i < n_agents a) as Hlt.
  { intros i Hi. destruct (Hin i Hi) as (Hs%elem_of_seq & _). lia. }
  split.
  - intros j. rewrite Hwork, elem_of_union, elem_of_list_to_set.
    intros [?|?]; auto.
  - intros p. rewrite Hnew, elem_of_app. intros [?|Hp]; [auto|].
    apply Hlt. apply list_elem_of_fmap. by exists p.
Qed.

Lemma assign_loop_bounded fuel : ∀ it s w it' s' w',
  bounded s →
  assign_loop a prompt e fuel it s w = (Returns (it', s'), w') →
  bounded s'.
Proof.
  induction fuel as [|fuel IH]; intros it s w it' s' w' Hb Hrun; [done|].
  rewrite assign_loop_S in Hrun.
  destruct (running e it && (step_index s <? length (steps prompt))).
  - apply bind_returns_inv in Hrun as (s1 & w1 & Hsweep & Hrun).
    rewrite (bind_returns _ _ _ _ _ (poll_run e it s1 w1)) in Hrun.
    eapply IH; [|exact Hrun].
    destruct (sweep_bounded it _ _ _ _ Hb Hsweep) as [Hw Ha].
    split; [|done]. cbn [agents_working]. intros j Hj.
    apply elem_of_filter in Hj as [_ Hj]. by apply Hw.
  - by injection Hrun as <- <- <-.
Qed.

Lemma wait_loop_live fuel it s w :
  (∀ k, running e k = true) →
  (∀ j, j ∈ agents_working s →
     is_Some (pane_of w j)
     ∧ contains (py "ready") (lower (done_screen e it j)) = true) →
  2 ≤ fuel →
  ∃ s', wait_loop e fuel it s w = (Returns s', w)
        ∧ assignments s' = assignments s.
Proof.
  intros Hrun Hlive Hfuel.
  destruct fuel as [|[|fuel]]; [lia..|].
  cbn [wait_loop]. rewrite !Hrun. cbn [andb]. case_bool_decide as Hw.
  - rewrite (bind_returns _ _ _ _ _ (poll_run e it s w)).
    cbn [agents_working].
    assert (filter (λ i, shows_ready w i (done_screen e it i) = false)
                   (agents_working s) = ∅) as ->.
    { apply elem_of_equiv_empty_L. intros j [Hj Hin]%elem_of_filter.
      destruct (Hlive j Hin) as [[p Hp] Hr].
      unfold shows_ready, capture_pane in Hj. rewrite Hp in Hj. congruence. }
    rewrite bool_decide_false by (by intros ?). by eexists.
  - by exists s.
Qed.

End Bounded.

(** X23. A sequential run from start to end. When the session has a pane
    for each of the [n] agents, nobody interrupts, the registry can be read,
    and every pane shows a readiness marker whenever it is checked and the
    word [ready] whenever it is polled, [run] returns normally within as many
    turns as there are steps, and what each pane has received is, in this
    order: [cd <project>], the command that starts the program, the initial
    prompt with the agent's uid, the prompts of the bundles assigned to the
    agent, and [/exit]. The bundles assigned are the contiguous bundles of
    the step list, so every step has been sent to exactly one agent. *)
Theorem run_completes :
  ∀ a prompt pp e fuel w panes registered,
    create_session e = Some panes →
    collaborative a = false → steps prompt ≠ [] →
    (∀ i, i < n_agents a → launch_running e i = true) →
    (∀ it, running e it = true) →
    0 < n_agents a →
    (∀ i, i < n_agents a → live_agent e (set_panes panes w) i) →
    agents w = ∅ →
    Coordination.load_agents (registry w) = Ok (Coordination.JObject registered) →
    length (steps prompt) < fuel →
    ∃ w' assigned,
      run a prompt pp e fuel w = (Returns tt, w')
      ∧ assigned.*2 = chunks (bundle_size a) (steps prompt)
      ∧ concat assigned.*2 = steps prompt
      ∧ (∀ p, p ∈ assigned → p.1 < n_agents a)
      ∧ ∀ i, i < n_agents a →
          delivered i w'
          = delivered i w
            ++ [py "cd " ++ pp; py "claude --dangerously-skip-permissions";
                salted (full_prompt a prompt) (launch_uid e i)]
            ++ prompts_for a i (launch_uid e i) assigned
            ++ [py "/exit"].
Proof.
  intros a prompt pp e fuel w panes registered Hcs Hcol Hsteps Hlr Hr Hn Hlive
    Hagents Hload Hfuel.
  set (w1 := set_panes panes w).
  (* the launch loop *)
  destruct (launch_all_run pp e (seq 0 (n_agents a)) w1 registered)
    as (w2 & registered' & Hl & Hp2 & _ & _ & Hag2 & Hout2 & Hdel2 & _).
  { apply NoDup_seq. }
  { intros i Hi%elem_of_seq. apply Hlr. lia. }
  { intros i Hi%elem_of_seq. apply Hlive. lia. }
  { done. }
  assert (∀ i, i < n_agents a → uid_of w2 i = Some (launch_uid e i)) as Hu2.
  { intros i Hi. destruct (Hlive i Hi) as [[pane Hpane] _]. unfold uid_of.
    rewrite (Hag2 i pane); [done| |done]. apply elem_of_seq. lia. }
  assert (registered_agents w2) as Hreg2.
  { intros i ag Hi. destruct (decide (i < n_agents a)) as [Hlt|Hge].
    - destruct (Hlive i Hlt) as [[pane Hpane] _].
      rewrite (Hag2 i pane) in Hi; [|apply elem_of_seq; lia|done].
      injection Hi as <-. split; [by eexists|].
      rewrite (pane_of_mapping w1 w2 i Hp2). by eexists.
    - rewrite Hout2 in Hi by (rewrite elem_of_seq; lia).
      unfold w1 in Hi. cbn in Hi. by rewrite Hagents, lookup_empty in Hi. }
  (* the initial prompts *)
  destruct (initial_prompts_run a prompt w2 Hcol Hreg2)
    as (w3 & Hs3 & Hreg3 & Hp3 & Hu3 & Hdel3).
  (* the first loop of the scheduler *)
  assert (live_agent e w3 0) as Hlive0.
  { apply (live_agent_panes e w1 w3); [by rewrite Hp3, Hp2|]. by apply Hlive. }
  destruct fuel as [|m]; [lia|].
  destruct (assign_loop_ends a prompt e 0 m 0 (mk_sched 0 ∅ []) w3)
    as (it & s & w4 & Hloop & Hinv & Hidx).
  { done. } { done. } { done. } { done. }
  { apply sched_inv_init. } { apply not_elem_of_empty. }
  { cbn [step_index]. lia. }
  destruct (assign_loop_agrees a prompt e w3 (S m) 0 (mk_sched 0 ∅ []) w3 it s w4)
    as (Hreg4 & Hp4 & Hu4 & _ & Hdel4).
  { split_and!; [done|done|done|apply sched_inv_init|].
    intros i. destruct (uid_of w3 i); by rewrite app_nil_r. }
  { done. }
  destruct (assign_loop_bounded a prompt e (S m) 0 (mk_sched 0 ∅ []) w3 it s w4)
    as [Hwork Hasg].
  { split; [by intros j ?%not_elem_of_empty|by intros p ?%not_elem_of_nil]. }
  { done. }
  (* the second loop *)
  destruct (wait_loop_live e (S m) it s w4) as (s' & Hwait & _).
  { done. }
  { intros j Hj. destruct (Hlive j (Hwork j Hj)) as (Hpane & _ & Hdone).
    split; [|done]. rewrite (pane_of_mapping w1 w4 j); [done|].
    by rewrite Hp4, Hp3, Hp2. }
  { destruct (steps prompt); [done|]. simpl in Hfuel. lia. }
  (* the body of [run], then its cleanup *)
  assert (run_body a prompt pp e (S m) w1 = (Returns tt, w4)) as Hbody.
  { unfold run_body. rewrite (bind_returns _ _ _ _ _ Hl).
    rewrite (bind_returns _ _ _ _ _ Hs3).
    rewrite bool_decide_true by done. unfold _orchestrate_steps. rewrite Hcol.
    rewrite (bind_returns _ _ _ _ _ Hloop). cbn [fst snd].
    by rewrite (bind_returns _ _ _ _ _ Hwait). }
  destruct (cleanup_full a w4) as (w' & Hc & _ & Hd).
  exists w', (assignments s). split.
  { unfold run. rewrite Hcs, modify_bind. fold w1. unfold try_finally.
    by rewrite Hbody. }
  destruct (sched_inv_bundles a prompt s Hinv) as (_ & _ & Hall).
  destruct (Hall Hidx) as [Hb Hconcat]. unfold bundles in Hb, Hconcat.
  split; [done|]. split; [done|]. split; [done|].
  intros i Hi. destruct (Hlive i Hi) as [[pane Hpane] _].
  rewrite Hd, Hdel4, Hdel3, Hdel2.
  rewrite (bool_decide_true (i < n_agents a)) by done.
  rewrite (bool_decide_true (i ∈ seq 0 (n_agents a))) by (apply elem_of_seq; lia).
  rewrite Hu3, !Hu2 by done.
  rewrite (pane_of_mapping w1 w4 i) by (by rewrite Hp4, Hp3, Hp2).
  fold w1 in Hpane. rewrite Hpane.
  unfold w1. cbn [delivered tmux_calls set_panes].
  rewrite <- !app_assoc. done.
Qed.

Lemma run_completes_witness :
  let a := mk_args 2 true true false (Some 2%Z) in
  ∃ w' assigned,
    run a five_steps (py "/srv/app") always_ready 6 fresh_world = (Returns tt, w')
    ∧ concat assigned.*2 = steps five_steps
    ∧ delivered 1 w'
      = [py "cd /srv/app"; py "claude --dangerously-skip-permissions";
         salted (full_prompt a five_steps) (launch_uid always_ready 1)]
        ++ prompts_for a 1 (launch_uid always_ready 1) assigned
        ++ [py "/exit"].
Proof.
  intros a.
  destruct (run_completes a five_steps (py "/srv/app") always_ready 6 fresh_world
              (pane_mapping two_agents) ∅)
    as (w' & assigned & Hrun & _ & Hconcat & _ & Hdel).
  - reflexivity.
  - reflexivity.
  - discriminate.
  - reflexivity.
  - reflexivity.
  - unfold a. cbn. lia.
  - intros i Hi. unfold a in Hi. cbn in Hi.
    apply (live_agent_panes always_ready two_agents); [reflexivity|].
    by apply two_agents_live.
  - reflexivity.
  - reflexivity.
  - cbn. lia.
  - exists w', assigned. split; [exact Hrun|]. split; [exact Hconcat|].
    apply (Hdel 1). unfold a. cbn. lia.
Defined.

(** X24. A pane that is missing stops the run before any prompt is sent.
    When the session has panes for the first [k] agents only, fewer than the
    number of agents, [run] launches these [k] agents, fails on agent [k]
    with [KeyError], sends no prompt at all, cleans up and returns normally:
    each of the first [k] panes has received [cd <project>], the command
    that starts the program and then [/exit], and nothing else; no other
    agent is recorded or sent anything. *)
Theorem run_missing_pane :
  ∀ a prompt pp e fuel w panes k registered,
    create_session e = Some panes →
    k < n_agents a →
    (∀ i, i ≤ k → launch_running e i = true) →
    (∀ i, i < k → is_Some (pane_of (set_panes panes w) i)) →
    (∀ i, k ≤ i → panes !! i = None) →
    Coordination.load_agents (registry w) = Ok (Coordination.JObject registered) →
    ∃ w',
      run a prompt pp e fuel w = (Returns tt, w')
      ∧ (∀ i, i < k →
           (∃ ag, agents w' !! i = Some ag ∧ status ag = Ready)
           ∧ delivered i w'
             = delivered i w
               ++ [py "cd " ++ pp; py "claude --dangerously-skip-permissions";
                   py "/exit"])
      ∧ (∀ i, k ≤ i →
           agents w' !! i = agents w !! i ∧ delivered i w' = delivered i w).
Proof.
  intros a prompt pp e fuel w panes k registered Hcs Hk Hrun Hpanes Hnone Hload.
  set (w1 := set_panes panes w).
  destruct (launch_all_run pp e (seq 0 k) w1 registered)
    as (w2 & registered' & Hl & Hp & _ & _ & Hag & Hout & Hdel & _).
  { apply NoDup_seq. }
  { intros i Hi%elem_of_seq. apply Hrun. lia. }
  { intros i Hi%elem_of_seq. apply Hpanes. lia. }
  { done. }
  assert (launch_all pp e (seq 0 (n_agents a)) w1 = (Raises KeyError, w2)) as Hlaunch.
  { replace (n_agents a) with (k + S (n_agents a - S k)) by lia.
    rewrite seq_app. cbn [seq Nat.add]. rewrite launch_all_app.
    2:{ intros i Hi%elem_of_seq. apply Hrun. lia. }
    rewrite (bind_returns _ _ _ _ _ Hl). cbn [launch_all].
    rewrite Hrun by lia.
    assert (launch_agent k pp (readings e k) w2 = (Raises KeyError, w2)) as Hno.
    { apply launch_agent_no_pane. rewrite Hp. by apply Hnone. }
    by rewrite (bind_raises _ _ _ _ _ Hno). }
  destruct (cleanup_full a w2) as (w' & Hc & Ha & Hd).
  exists w'. split.
  { unfold run. rewrite Hcs, modify_bind. fold w1.
    unfold try_finally, run_body.
    by rewrite (bind_raises _ _ _ _ _ Hlaunch). }
  split.
  - intros i Hi. destruct (Hpanes i Hi) as [pane Hpane]. fold w1 in Hpane.
    assert (i ∈ seq 0 k) as Hs by (apply elem_of_seq; lia).
    split.
    + exists (launched e i pane). split; [|done]. rewrite Ha. by apply Hag.
    + rewrite Hd, Hdel, bool_decide_true by done.
      rewrite bool_decide_true by lia.
      rewrite (pane_of_mapping w1 w2 i Hp), Hpane.
      rewrite <- app_assoc. done.
  - intros i Hi.
    assert (i ∉ seq 0 k) as Hs by (rewrite elem_of_seq; lia).
    split; [rewrite Ha; by apply Hout|].
    rewrite Hd, Hdel, bool_decide_false, app_nil_r by done.
    assert (pane_of w2 i = None) as ->.
    { rewrite (pane_of_mapping w1 w2 i Hp). unfold pane_of, w1. cbn.
      by rewrite Hnone. }
    case_bool_decide; by rewrite app_nil_r.
Qed.

Lemma run_missing_pane_witness :
  let a := mk_args 2 true true false None in
  let e := mk_env (Some {[ 0 := py "claude_agents:agents.0" ]}) (λ _, true)
                  (readings always_ready) (running always_ready)
                  (ready_screen always_ready) (done_screen always_ready)
                  (idle_running always_ready) in
  ∃ w', run a two_steps (py "/srv/app") e 5 fresh_world = (Returns tt, w')
        ∧ delivered 0 w'
          = [py "cd /srv/app"; py "claude --dangerously-skip-permissions";
             py "/exit"]
        ∧ delivered 1 w' = [].
Proof.
  intros a e.
  destruct (run_missing_pane a two_steps (py "/srv/app") e 5 fresh_world
              {[ 0 := py "claude_agents:agents.0" ]} 1 ∅)
    as (w' & Hrun & Hin & Hout).
  - reflexivity.
  - unfold a. cbn. lia.
  - reflexivity.
  - intros i Hi. replace i with 0 by lia. by eexists.
  - intros i Hi. apply lookup_singleton_ne. lia.
  - reflexivity.
  - exists w'. split; [exact Hrun|]. split.
    + exact (proj2 (Hin 0 (le_n 1))).
    + exact (proj2 (Hout 1 (le_n 1))).
Defined.


Section Stuck.
Variable a : args.
Variable prompt : BuildPrompt.
Variable e : env.
Variable w0 : world.

Hypothesis never_done :
  ∀ it i, contains (py "ready") (lower (done_screen e it i)) = false.
Hypothesis always_running : ∀ it, running e it = true.
Hypothesis many_steps : n_agents a * bundle_size a < length (steps prompt).

(** The state of the loop when no agent is ever seen to be done: the
    agents at work are the agents that were assigned a bundle, each once. *)
Local Abbreviation stuck s w :=
  ((registered_agents w
    ∧ pane_mapping w = pane_mapping w0
    ∧ (∀ j, uid_of w j = uid_of w0 j)
    ∧ sched_inv a prompt s
    ∧ ∀ i, delivered i w
           = delivered i w0
             ++ match uid_of w0 i with
                | Some u => prompts_for a i u (assignments s)
                | None => []
                end)
   ∧ ((∀ j, j ∈ agents_working s → j < n_agents a)
      ∧ ∀ p, p ∈ assignments s → p.1 < n_agents a)
   ∧ NoDup (assignments s).*1
   ∧ agents_working s = list_to_set (assignments s).*1).

Lemma shows_ready_never w it i : shows_ready w i (done_screen e it i) = false.
Proof.
  unfold shows_ready, capture_pane. destruct (pane_of w i); [apply never_done|done].
Qed.

Lemma poll_keeps it s w :
  poll e it s w = (Returns s, w).
Proof.
  rewrite poll_run. do 2 f_equal. destruct s as [idx working asg].
  cbn [step_index agents_working assignments]. f_equal.
  apply set_eq. intros j. rewrite elem_of_filter.
  split; [by intros [_ ?]|]. intros Hj. split; [|done]. apply shows_ready_never.
Qed.

Lemma NoDup_bounded (l : list nat) n :
  NoDup l → (∀ i, i ∈ l → i < n) → length l ≤ n.
Proof.
  intros Hnd Hlt.
  assert (l ⊆+ seq 0 n) as Hsub.
  { apply NoDup_submseteq; [done|]. intros i Hi. apply elem_of_seq.
    specialize (Hlt i Hi). lia. }
  apply submseteq_length in Hsub. by rewrite length_seq in Hsub.
Qed.

Lemma stuck_steps_left s w : stuck s w → step_index s < length (steps prompt).
Proof.
  intros ((_ & _ & _ & (k & Hb & Hidx) & _) & (_ & Hasg) & Hnd & _).
  assert (length (assignments s) ≤ n_agents a) as Hlen.
  { rewrite <- (length_fmap fst). apply NoDup_bounded; [done|].
    intros i (p & -> & Hp)%list_elem_of_fmap. by apply Hasg. }
  pose proof (bundle_size_pos a) as Hpos.
  assert (length (bundles s) ≤ n_agents a) as Hlb
    by (unfold bundles; by rewrite length_fmap).
  rewrite Hb, length_take, length_chunks in Hlb.
  destruct (chunk_count_spec (bundle_size a) (length (steps prompt)) Hpos)
    as [Hcover _].
  assert (k ≤ n_agents a) as Hk.
  { destruct (decide (k ≤ n_agents a)); [done|]. exfalso.
    rewrite Nat.min_r in Hlb by lia. nia. }
  rewrite Hidx. apply Nat.min_lt_iff. left. nia.
Qed.

Lemma sweep_stuck it s w s' w' :
  stuck s w →
  for_each (seq 0 (n_agents a)) (assign a prompt e it) s w = (Returns s', w') →
  stuck s' w'.
Proof.
  intros (Hag & Hb & Hnd & Hwork) Hrun.
  split; [by eapply sweep_agrees|]. split; [by eapply sweep_bounded|].
  destruct (sweep_cases a prompt e it _ _ _ _ _ (NoDup_seq 0 (n_agents a)) Hrun)
    as (_ & _ & new & Hnew & Hnd' & _ & Hin & Hwork').
  rewrite Hnew, fmap_app. split.
  - apply NoDup_app. split; [done|]. split; [|done].
    intros i Hi Hi'. destruct (Hin i Hi') as (_ & Hnot & _).
    apply Hnot. rewrite Hwork. by apply elem_of_list_to_set.
  - rewrite Hwork', Hwork, list_to_set_app_L. apply (comm_L (∪)).
Qed.

Lemma sweep_settles it s w :
  registered_agents w → sched_inv a prompt s →
  ∃ s' w', for_each (seq 0 (n_agents a)) (assign a prompt e it) s w
           = (Returns s', w').
Proof.
  intros Hreg Hinv.
  destruct (for_each_assign_run a prompt e it (seq 0 (n_agents a)) s w Hreg Hinv)
    as (s' & w' & H & _). by exists s', w'.
Qed.

Lemma assign_loop_stuck fuel : ∀ it s w,
  stuck s w →
  ∃ s' w', assign_loop a prompt e fuel it s w = (Pending, w') ∧ stuck s' w'.
Proof.
  induction fuel as [|fuel IH]; intros it s w Hst; [by exists s, w|].
  rewrite assign_loop_S, always_running. cbn [andb].
  pose proof (stuck_steps_left s w Hst) as Hlt.
  apply Nat.ltb_lt in Hlt. rewrite Hlt.
  destruct Hst as (Hag & Hrest).
  destruct (sweep_settles it s w) as (s1 & w1 & Hsweep);
    [by destruct Hag as (? & _)|by destruct Hag as (_ & _ & _ & ? & _)|].
  rewrite (bind_returns _ _ _ _ _ Hsweep).
  rewrite (bind_returns _ _ _ _ _ (poll_keeps it s1 w1)).
  apply IH. eapply sweep_stuck; [|exact Hsweep]. by split.
Qed.

End Stuck.

(** X25. The scheduler relies on the word [ready] to see that an agent is
    done. When no pane ever shows it, an agent that has been given a bundle
    stays among the agents at work for good: with more bundles than agents,
    and with the flag [RUNNING] set, the first loop of sequential mode never
    ends, however many turns it is given, and no pane is ever sent more than
    one bundle; the remaining steps are never assigned. *)
Theorem never_done_one_bundle_each :
  ∀ a prompt e w,
    collaborative a = false →
    registered_agents w →
    (∀ it, running e it = true) →
    (∀ it i, contains (py "ready") (lower (done_screen e it i)) = false) →
    n_agents a * bundle_size a < length (steps prompt) →
    ∀ fuel,
      ∃ w', _orchestrate_steps a prompt e fuel w = (Pending, w')
            ∧ ∀ i, ∃ sent, delivered i w' = delivered i w ++ sent
                           ∧ length sent ≤ 1.
Proof.
  intros a prompt e w Hcol Hreg Hrun Hnever Hmany fuel.
  destruct (assign_loop_stuck a prompt e w Hnever Hrun Hmany fuel 0
              (mk_sched 0 ∅ []) w)
    as (s' & w' & Hloop & (_ & _ & _ & _ & Hdel) & _ & Hnd & _).
  { split.
    { split_and!; [done|done|done|apply sched_inv_init|].
      intros i. destruct (uid_of w i); by rewrite app_nil_r. }
    split.
    { split; [intros j Hj; by apply not_elem_of_empty in Hj|].
      intros p Hp. by apply not_elem_of_nil in Hp. }
    split; [apply NoDup_nil_2|done]. }
  exists w'. split.
  { unfold _orchestrate_steps. rewrite Hcol.
    by rewrite (bind_pending _ _ _ _ Hloop). }
  intros i. eexists. split; [apply Hdel|].
  destruct (uid_of w i) as [u|]; [|simpl; lia].
  clear -Hnd. unfold prompts_for.
  induction (assignments s') as [|[j b] l IH]; [simpl; lia|].
  rewrite fmap_cons in Hnd. apply NoDup_cons in Hnd as [Hj Hnd].
  cbn [omap list_omap fst snd]. case_bool_decide as Hji.
  - subst j. cbn [length].
    assert (omap (λ p : nat * list BuildStep,
                    if bool_decide (p.1 = i)
                    then Some (salted (assignment_prompt a p.2) u) else None) l
            = []) as ->; [|simpl; lia].
    clear -Hj. induction l as [|[j b'] l IH]; [done|].
    rewrite fmap_cons in Hj. apply not_elem_of_cons in Hj as [Hne Hj].
    cbn [omap list_omap fst]. rewrite bool_decide_false by done. by apply IH.
  - by apply IH.
Qed.

Lemma never_done_one_bundle_each_witness :
  let a := mk_args 2 true true false None in
  let e := mk_env (Some (pane_mapping two_agents)) (λ _, true)
                  (readings always_ready) (λ _, true)
                  (ready_screen always_ready)
                  (λ _ _, py "? for shortcuts") (λ _, true) in
  ∃ w', _orchestrate_steps a five_steps e 50 two_agents = (Pending, w')
        ∧ ∃ sent, delivered 0 w' = delivered 0 two_agents ++ sent
                  ∧ length sent ≤ 1.
Proof.
  intros a e.
  destruct (never_done_one_bundle_each a five_steps e two_agents)
    with (fuel := 50) as (w' & Hrun & Hdel).
  - reflexivity.
  - apply two_agents_registered.
  - reflexivity.
  - reflexivity.
  - cbn. lia.
  - exists w'. split; [exact Hrun|]. exact (Hdel 0).
Defined.

End RunThroughFacts.
